(** * A verification model of the screenshot worker ([background.js])

    The background service worker picks a URL at random, navigates a tab to
    it, waits for the page to load (or for a 15 s timeout), captures the
    visible tab, offers the image for saving under a generated file name and
    bumps a counter kept in [chrome.storage.local].

    The development is a shallow embedding: every JavaScript function of
    [background.js] is a Rocq function of the same name over an explicit
    model of the browser runtime (clock, timers, event listeners, storage);
    promise outcomes that the browser decides are inputs of the model. *)

From Stdlib Require Import ZArith QArith Qround List String Ascii Lia Bool.
From stdpp Require Import base gmap strings list.

Open Scope Z_scope.

(** ** Configuration constants (lines 7-16) *)

Definition TARGET_URLS : list string :=
  [ "https://www.competitiondatabase.co.uk";
    "https://www.facebook.com";
    "https://www.google.com";
    "https://www.yahoo.com" ]%string.

Definition SCREENSHOT_INTERVAL : Z := 60000.
Definition PAGE_LOAD_TIMEOUT : Z := 15000.

(** ** JavaScript values and a few primitives *)

(** [arr[i]] for an integral index: [undefined] (here [None]) out of range. *)
Definition array_get {A} (arr : list A) (i : Z) : option A :=
  if i <? 0 then None else nth_error arr (Z.to_nat i).

(** ** Selecting the target (lines 103-106) *)

Module Select.

(** [Math.floor(Math.random() * TARGET_URLS.length)]; the draw of
    [Math.random()] is the argument.  Every double in [0,1) is a rational
    and multiplying a double by 4 is exact, so [Q] loses nothing here. *)
Definition randomIndex (random : Q) : Z :=
  Qfloor (random * inject_Z (Z.of_nat (length TARGET_URLS))).

Definition getRandomUrl (random : Q) : option string :=
  array_get TARGET_URLS (randomIndex random).

(** The draw that lands in the middle of the [i]-th quarter of [0,1). *)
Definition midpoint (i : Z) : Q := (2 * i + 1) # 8.

End Select.

(** ** The browser runtime

    What the worker can observe of the browser: a clock, the pending
    one-shot timers ([setTimeout]) and the active repeating timers
    ([setInterval]) keyed by their handles, the closures registered on
    [chrome.tabs.onUpdated], the contents of [chrome.storage.local], and the
    sequence of calls and callbacks so far. *)

Inductive TabStatus := unloaded | loading | complete.

(** The values the worker stores and reads.  A JavaScript number is an
    IEEE 754 double; [VNum n] is the double whose value is the integer [n]. *)
Inductive JsVal :=
| VBool (b : bool)
| VNum (n : Z)
| VStr (s : string).

(** The reply passed to [sendResponse]. *)
Inductive Response :=
| StatusReply (running : bool) (lastRun : option JsVal) (totalScreenshots : JsVal)
| SuccessReply
| FailureReply (error : string).

Inductive Effect :=
| ConsoleLog (msg : string)
| ConsoleError (msg : string)
| SetTimeout (handle delay : Z)
| ClearTimeout (handle : Z)
| TimeoutFired (handle : Z)
| SetInterval (handle period : Z)
| ClearInterval (handle : Z)
| AddListener (listener : nat)
| RemoveListener (listener : nat)
| ListenerInvoked (listener : nat)
| TabsQuery
| TabsUpdateUrl (tab : Z) (url : option string)
| TabsCreate (url : option string)
| TabsGet (tab : Z)
| TabsActivate (tab : Z)
| CaptureVisibleTab
| Fetch (dataUrl : string)
| CreateObjectURL
| Download (objectUrl filename : string)
| StorageGet (keys : list string)
| StorageSet (items : list (string * JsVal)).

Record Runtime := mkRuntime {
  now : Z;
  timers : gmap Z Z;
  intervals : gmap Z Z;
  nextHandle : positive;
  onUpdated : gset nat;
  nextClosure : nat;
  storage : gmap string JsVal;
  trace : list Effect
}.

Definition emit (e : Effect) (rt : Runtime) : Runtime :=
  mkRuntime (now rt) (timers rt) (intervals rt) (nextHandle rt)
            (onUpdated rt) (nextClosure rt) (storage rt) (trace rt ++ [e]).

Definition set_now (t : Z) (rt : Runtime) : Runtime :=
  mkRuntime t (timers rt) (intervals rt) (nextHandle rt)
            (onUpdated rt) (nextClosure rt) (storage rt) (trace rt).

Definition set_timers (ts : gmap Z Z) (rt : Runtime) : Runtime :=
  mkRuntime (now rt) ts (intervals rt) (nextHandle rt)
            (onUpdated rt) (nextClosure rt) (storage rt) (trace rt).

Definition set_intervals (iv : gmap Z Z) (rt : Runtime) : Runtime :=
  mkRuntime (now rt) (timers rt) iv (nextHandle rt)
            (onUpdated rt) (nextClosure rt) (storage rt) (trace rt).

Definition set_onUpdated (ls : gset nat) (rt : Runtime) : Runtime :=
  mkRuntime (now rt) (timers rt) (intervals rt) (nextHandle rt)
            ls (nextClosure rt) (storage rt) (trace rt).

Definition set_storage (st : gmap string JsVal) (rt : Runtime) : Runtime :=
  mkRuntime (now rt) (timers rt) (intervals rt) (nextHandle rt)
            (onUpdated rt) (nextClosure rt) st (trace rt).

(** Timer handles are positive integers, shared by [setTimeout] and
    [setInterval]. *)
Definition fresh_handle (rt : Runtime) : Z * Runtime :=
  (Z.pos (nextHandle rt),
   mkRuntime (now rt) (timers rt) (intervals rt) (Pos.succ (nextHandle rt))
             (onUpdated rt) (nextClosure rt) (storage rt) (trace rt)).

Definition setTimeout (delay : Z) (rt : Runtime) : Z * Runtime :=
  let '(h, rt1) := fresh_handle rt in
  (h, emit (SetTimeout h delay) (set_timers (<[h := now rt1 + delay]> (timers rt1)) rt1)).

Definition clearTimeout (h : Z) (rt : Runtime) : Runtime :=
  emit (ClearTimeout h) (set_timers (delete h (timers rt)) rt).

Definition setInterval (period : Z) (rt : Runtime) : Z * Runtime :=
  let '(h, rt1) := fresh_handle rt in
  (h, emit (SetInterval h period) (set_intervals (<[h := period]> (intervals rt1)) rt1)).

Definition clearInterval (h : Z) (rt : Runtime) : Runtime :=
  emit (ClearInterval h) (set_intervals (delete h (intervals rt)) rt).

(** A function expression evaluates to a closure with a fresh identity. *)
Definition newClosure (rt : Runtime) : nat * Runtime :=
  (nextClosure rt,
   mkRuntime (now rt) (timers rt) (intervals rt) (nextHandle rt)
             (onUpdated rt) (S (nextClosure rt)) (storage rt) (trace rt)).

Definition addListener (l : nat) (rt : Runtime) : Runtime :=
  emit (AddListener l) (set_onUpdated ({[l]} ∪ onUpdated rt) rt).

Definition removeListener (l : nat) (rt : Runtime) : Runtime :=
  emit (RemoveListener l) (set_onUpdated (onUpdated rt ∖ {[l]}) rt).

(** JavaScript truthiness of the values that occur in the worker. *)
Definition truthy_num (n : Z) : bool := negb (n =? 0).

Definition truthy (v : option JsVal) : bool :=
  match v with
  | None => false
  | Some (VBool b) => b
  | Some (VNum n) => truthy_num n
  | Some (VStr s) => negb (String.eqb s "")
  end.

(** [a || b] where [a] may be [undefined]. *)
Definition js_or (a : option JsVal) (b : JsVal) : JsVal :=
  match a with
  | Some v => if truthy a then v else b
  | None => b
  end.

(** The double nearest to the integer [m], ties going to the even
    significand: what an arithmetic operation whose exact result is [m]
    returns.  A double has 53 significant bits, so an integer of magnitude
    below 2^53 is a double itself, and a larger one keeps its 53 leading
    bits. *)
Definition to_double (m : Z) : Z :=
  let a := Z.abs m in
  let e := Z.log2 a - 52 in
  if e <=? 0 then m
  else
    let q := a / 2 ^ e in
    let r := a mod 2 ^ e in
    let half := 2 ^ (e - 1) in
    let q' := if r <? half then q
              else if half <? r then q + 1
              else if Z.even q then q else q + 1 in
    Z.sgn m * (q' * 2 ^ e).

(** 2^53: from here on adding one to a double no longer gives the next
    integer. *)
Definition MAX_COUNT : Z := 9007199254740992.

(** [v + 1]. *)
Definition js_plus_one (v : JsVal) : JsVal :=
  match v with
  | VNum n => VNum (to_double (n + 1))
  | VBool b => VNum ((if b then 1 else 0) + 1)
  | VStr s => VStr (s ++ "1")
  end.

(** [chrome.storage.local.set(items)] merges the items into the store. *)
Definition storage_merge (items : list (string * JsVal)) (st : gmap string JsVal)
  : gmap string JsVal :=
  foldr (fun kv acc => <[kv.1 := kv.2]> acc) st items.

(** The calls that read or write [chrome.storage.local]. *)
Definition is_storage_call (e : Effect) : bool :=
  match e with
  | StorageGet _ | StorageSet _ => true
  | _ => false
  end.

(** ** Waiting for the page to load (lines 130-170) *)

Module LoadWait.

Inductive PromiseState := Pending | Fulfilled | Rejected.

(** The closure variables of one call of [waitForPageLoad], the state of
    the promise it returned, and whether the [chrome.tabs.get] query it
    issued is still outstanding. *)
Record Call := mkCall {
  tabId : Z;
  timeoutId : option Z;
  loadingListener : option nat;
  promise : PromiseState;
  settledAt : option Z;
  getPending : bool
}.

(** [resolve()]: settles the promise if it is still pending. *)
Definition resolve (c : Call) (rt : Runtime) : Call :=
  match promise c with
  | Pending => mkCall (tabId c) (timeoutId c) (loadingListener c)
                      Fulfilled (Some (now rt)) (getPending c)
  | _ => c
  end.

(** [cleanup] (lines 135-138). *)
Definition cleanup (c : Call) (rt : Runtime) : Runtime :=
  let rt1 := match timeoutId c with
             | Some h => if truthy_num h then clearTimeout h rt else rt
             | None => rt
             end in
  match loadingListener c with
  | Some l => removeListener l rt1
  | None => rt1
  end.

(** The promise executor (lines 131-169): it runs to completion before any
    of the callbacks it registers can run. *)
Definition waitForPageLoad (tab : Z) (rt : Runtime) : Call * Runtime :=
  let '(h, rt1) := setTimeout PAGE_LOAD_TIMEOUT rt in
  let '(l, rt2) := newClosure rt1 in
  let rt3 := addListener l rt2 in
  let rt4 := emit (TabsGet tab) rt3 in
  (mkCall tab (Some h) (Some l) Pending None true, rt4).

(** The timeout callback (lines 141-145). *)
Definition onTimeout (s : Call * Runtime) : Call * Runtime :=
  let '(c, rt) := s in
  let rt1 := cleanup c rt in
  let rt2 := emit (ConsoleLog "Page load timeout reached, proceeding with screenshot") rt1 in
  (resolve c rt2, rt2).

(** [loadingListener] (lines 148-154); [changeInfo.status] is [undefined]
    when the update is not a status change. *)
Definition onTabUpdated (updatedTabId : Z) (status : option TabStatus)
           (s : Call * Runtime) : Call * Runtime :=
  let '(c, rt) := s in
  match status with
  | Some complete =>
      if updatedTabId =? tabId c then
        let rt1 := cleanup c rt in
        let rt2 := emit (ConsoleLog "Page loaded successfully") rt1 in
        (resolve c rt2, rt2)
      else s
  | _ => s
  end.

(** The [then] branch of the status query (lines 159-163). *)
Definition onGetFulfilled (status : TabStatus) (s : Call * Runtime) : Call * Runtime :=
  let '(c, rt) := s in
  match status with
  | complete => let rt1 := cleanup c rt in (resolve c rt1, rt1)
  | _ => s
  end.

(** The [catch] branch of the status query (lines 164-168). *)
Definition onGetRejected (s : Call * Runtime) : Call * Runtime :=
  let '(c, rt) := s in
  let rt1 := emit (ConsoleError "Error checking tab status:") rt in
  let rt2 := cleanup c rt1 in
  (resolve c rt2, rt2).

(** What the browser can do while the call is outstanding. *)
Inductive Event :=
| Elapse (dt : N)
| TabUpdated (tab : Z) (status : option TabStatus)
| TabsGetFulfilled (status : TabStatus)
| TabsGetRejected.

Definition query_done (c : Call) : Call :=
  mkCall (tabId c) (timeoutId c) (loadingListener c) (promise c) (settledAt c) false.

(** The clock moves to [t]; if the call's timer is still pending and due
    by then, it leaves the pending set and its callback runs at the time it
    is due. *)
Definition advance (t : Z) (s : Call * Runtime) : Call * Runtime :=
  let '(c, rt) := s in
  let fired :=
    match timeoutId c with
    | Some h =>
        match timers rt !! h with
        | Some due =>
            if due <=? t then
              onTimeout (c, emit (TimeoutFired h)
                                 (set_now due (set_timers (delete h (timers rt)) rt)))
            else s
        | None => s
        end
    | None => s
    end in
  (fired.1, set_now t fired.2).

(** The browser invokes a listener only while it is registered, and
    settles the status query once. *)
Definition dispatch (e : Event) (s : Call * Runtime) : Call * Runtime :=
  let '(c, rt) := s in
  match e with
  | Elapse dt => advance (now rt + Z.of_N dt) s
  | TabUpdated tab status =>
      match loadingListener c with
      | Some l =>
          if decide (l ∈ onUpdated rt)
          then onTabUpdated tab status (c, emit (ListenerInvoked l) rt)
          else s
      | None => s
      end
  | TabsGetFulfilled status =>
      if getPending c then onGetFulfilled status (query_done c, rt) else s
  | TabsGetRejected =>
      if getPending c then onGetRejected (query_done c, rt) else s
  end.

Definition run (evs : list Event) (s : Call * Runtime) : Call * Runtime :=
  fold_left (fun s e => dispatch e s) evs s.

(** Callbacks of the race that ran: timeout firings and listener
    invocations. *)
Definition is_notification (e : Effect) : bool :=
  match e with
  | TimeoutFired _ | ListenerInvoked _ => true
  | _ => false
  end.

Definition notifications (rt : Runtime) : list Effect :=
  List.filter is_notification (trace rt).

(** Position of the first effect satisfying [p] in a trace. *)
Fixpoint position (p : Effect -> bool) (tr : list Effect) : option nat :=
  match tr with
  | [] => None
  | e :: tr' => if p e then Some 0%nat else S <$> position p tr'
  end.

Definition is_set_timeout (e : Effect) : bool :=
  match e with SetTimeout _ _ => true | _ => false end.
Definition is_add_listener (e : Effect) : bool :=
  match e with AddListener _ => true | _ => false end.
Definition is_tabs_get (e : Effect) : bool :=
  match e with TabsGet _ => true | _ => false end.

(** "The status query is issued before both registrations", as a check on
    the trace of the executor. *)
Definition query_before_registrations (tr : list Effect) : bool :=
  match position is_tabs_get tr, position is_set_timeout tr, position is_add_listener tr with
  | Some g, Some t, Some a => (g <? t)%nat && (g <? a)%nat
  | _, _, _ => false
  end.

Definition registrations_before_query (tr : list Effect) : bool :=
  match position is_tabs_get tr, position is_set_timeout tr, position is_add_listener tr with
  | Some g, Some t, Some a => (t <? a)%nat && (a <? g)%nat
  | _, _, _ => false
  end.

(** *** The invariant of an outstanding call

    [rt0] is the runtime in which [waitForPageLoad tab] was called; the
    call got the handle [Z.pos (nextHandle rt0)] for its timer and the
    closure [nextClosure rt0] for its listener, and the timer is due at
    [now rt0 + PAGE_LOAD_TIMEOUT]. *)

(** The part that also holds in the middle of a callback. *)
Record Frame (rt0 : Runtime) (tab : Z) (s : Call * Runtime) : Prop := mkFrame {
  inv_tab : tabId s.1 = tab;
  inv_timeoutId : timeoutId s.1 = Some (Z.pos (nextHandle rt0));
  inv_listener : loadingListener s.1 = Some (nextClosure rt0);
  inv_not_rejected : promise s.1 <> Rejected;
  inv_clock : now rt0 <= now s.2;
  inv_fulfilled :
    promise s.1 = Fulfilled ->
    timers s.2 !! Z.pos (nextHandle rt0) = None /\
    (nextClosure rt0 ∉ onUpdated s.2) /\
    exists t, settledAt s.1 = Some t /\
              (now rt0 <= t <= now rt0 + PAGE_LOAD_TIMEOUT) /\ t <= now s.2;
  inv_frame_timers :
    forall h', h' <> Z.pos (nextHandle rt0) -> timers s.2 !! h' = timers rt0 !! h';
  inv_frame_listeners :
    forall l', l' <> nextClosure rt0 -> l' ∈ onUpdated s.2 <-> l' ∈ onUpdated rt0;
  inv_frame_rest : intervals s.2 = intervals rt0 /\ storage s.2 = storage rt0;
  inv_frame_trace :
    List.filter is_storage_call (trace s.2) = List.filter is_storage_call (trace rt0)
}.

(** While the promise is pending both sides of the race are armed. *)
Definition Armed (rt0 : Runtime) (tab : Z) (s : Call * Runtime) : Prop :=
  promise s.1 = Pending ->
  timers s.2 !! Z.pos (nextHandle rt0) = Some (now rt0 + PAGE_LOAD_TIMEOUT) /\
  now s.2 < now rt0 + PAGE_LOAD_TIMEOUT /\
  (nextClosure rt0 ∈ onUpdated s.2) /\ settledAt s.1 = None.

Definition Inv (rt0 : Runtime) (tab : Z) (s : Call * Runtime) : Prop :=
  Frame rt0 tab s /\ Armed rt0 tab s.

(** The calls the executor makes, in program order. *)
Definition executor_calls (tab : Z) (rt : Runtime) : list Effect :=
  drop (length (trace rt)) (trace (waitForPageLoad tab rt).2).

Definition empty_runtime : Runtime :=
  mkRuntime 0 ∅ ∅ 1%positive ∅ 0%nat ∅ [].

(** On tab 7 in the empty runtime, the events [evs] fulfil the promise
    and leave neither the timer (handle 1) nor the listener (closure 0). *)
Definition cancelled_after (evs : list Event) : Prop :=
  let s := run evs (waitForPageLoad 7 empty_runtime) in
  promise s.1 = Fulfilled /\ timers s.2 !! 1 = None /\ 0%nat ∉ onUpdated s.2.

End LoadWait.

(** ** Results of calls that can fail *)

(** A call into the browser either yields a value or fails with an error
    message (a rejected promise, a thrown exception). *)
Inductive Result (A : Type) :=
| Ok (a : A)
| Err (error : string).
Arguments Ok {A} a.
Arguments Err {A} error.

(** ** File names (lines 199-202) *)

Module Filename.
Open Scope string_scope.

(** [Some r] when [s] is [p] followed by [r]. *)
Fixpoint strip_prefix (p s : string) : option string :=
  match p, s with
  | EmptyString, _ => Some s
  | String a p', String b s' => if Ascii.eqb a b then strip_prefix p' s' else None
  | String _ _, EmptyString => None
  end.

(** [s.replace(pat, rep)] with a string pattern: only the first
    occurrence of [pat], wherever it is, is replaced. *)
Fixpoint replace_first (pat rep s : string) : string :=
  match strip_prefix pat s with
  | Some rest => rep ++ rest
  | None =>
      match s with
      | EmptyString => EmptyString
      | String c s' => String c (replace_first pat rep s')
      end
  end.

(** [s.replace(/[:.]/g, '-')]. *)
Definition colon_or_period (c : ascii) : bool :=
  Ascii.eqb c ":" || Ascii.eqb c ".".

Fixpoint replace_colons_periods (s : string) : string :=
  match s with
  | EmptyString => EmptyString
  | String c s' =>
      String (if colon_or_period c then "-"%char else c) (replace_colons_periods s')
  end.

(** [s.slice(0, -n)]: all but the last [n] characters. *)
Definition slice_0_neg (n : nat) (s : string) : string :=
  substring 0 (String.length s - n) s.

(** The UTC fields of a valid [Date]; [month] counts from 1. *)
Record Date := mkDate {
  year : Z; month : Z; day : Z;
  hours : Z; minutes : Z; seconds : Z; milliseconds : Z
}.

Definition digit (n : Z) : ascii := ascii_of_nat (48 + Z.to_nat (n mod 10)).

(** The last [width] decimal digits of [n], zero padded. *)
Fixpoint pad (width : nat) (n : Z) : string :=
  match width with
  | O => EmptyString
  | S w => pad w (n / 10) ++ String (digit n) EmptyString
  end.

(** Years outside 0..9999 are written with a sign and six digits. *)
Definition iso_year (y : Z) : string :=
  if (0 <=? y)%Z && (y <=? 9999)%Z then pad 4 y
  else (if (y <? 0)%Z then "-" else "+") ++ pad 6 (Z.abs y).

(** [Date.prototype.toISOString]: [YYYY-MM-DDTHH:mm:ss.sssZ]. *)
Definition toISOString (d : Date) : string :=
  iso_year (year d) ++ "-" ++ pad 2 (month d) ++ "-" ++ pad 2 (day d) ++ "T" ++
  pad 2 (hours d) ++ ":" ++ pad 2 (minutes d) ++ ":" ++ pad 2 (seconds d) ++ "." ++
  pad 3 (milliseconds d) ++ "Z".

(** [new URL(input).hostname] on the inputs the worker deals with.

    A plain URL is [http://] or [https://] in lower case, followed by a
    host name, followed by nothing or by [/], [?] or [#] and anything.
    The host name is made of labels of lower-case ASCII letters and digits
    separated by single dots, and its last label starts with a letter (so
    it is not read as an IPv4 address).  For a plain URL the parser of the
    URL Standard reports this host name as it stands.  [undefined] is
    converted to a string without a scheme and makes the constructor throw
    its [TypeError].  About every other input (credentials, ports, IP
    addresses, upper case, other schemes, ...) nothing is said here: the
    answer is [None]. *)
Definition host_end (c : ascii) : bool :=
  Ascii.eqb c "/" || Ascii.eqb c "?" || Ascii.eqb c "#".

Definition lower_alpha (c : ascii) : bool :=
  let n := nat_of_ascii c in (97 <=? n)%nat && (n <=? 122)%nat.

Definition decimal_digit (c : ascii) : bool :=
  let n := nat_of_ascii c in (48 <=? n)%nat && (n <=? 57)%nat.

(** The host name [s] starts with; [fresh_label] tells that a label is
    about to start, [alpha] that the label being read started with a
    letter. *)
Fixpoint take_host (fresh_label alpha : bool) (s : string) : option string :=
  match s with
  | EmptyString => if negb fresh_label && alpha then Some EmptyString else None
  | String c s' =>
      if host_end c then
        if negb fresh_label && alpha then Some EmptyString else None
      else if Ascii.eqb c "." then
        if fresh_label then None else String c <$> take_host true false s'
      else if lower_alpha c then
        String c <$> take_host false (if fresh_label then true else alpha) s'
      else if decimal_digit c then
        String c <$> take_host false (if fresh_label then false else alpha) s'
      else None
  end.

Definition after_scheme (input : string) : option string :=
  match strip_prefix "https://" input with
  | Some rest => Some rest
  | None => strip_prefix "http://" input
  end.

Definition plain_hostname (input : string) : option string :=
  match after_scheme input with
  | Some rest => take_host true false rest
  | None => None
  end.

Definition URL_hostname (input : option string) : option (Result string) :=
  match input with
  | None => Some (Err "Invalid URL")
  | Some u => Ok <$> plain_hostname u
  end.

(** Lines 200-202 of [saveScreenshot], given the parsed host name and the
    current date. *)
Definition urlDomain (hostname : string) : string :=
  replace_first "www." "" hostname.

Definition timestamp (d : Date) : string :=
  slice_0_neg 5 (replace_colons_periods (toISOString d)).

Definition filename (hostname : string) (d : Date) : string :=
  "screenshot_" ++ urlDomain hostname ++ "_" ++ timestamp d ++ ".png".

(** The same for a plain source URL, or [undefined]. *)
Definition filename_of_url (sourceUrl : option string) (d : Date)
  : option (Result string) :=
  match URL_hostname sourceUrl with
  | Some (Ok host) => Some (Ok (filename host d))
  | Some (Err e) => Some (Err e)
  | None => None
  end.

(** The parser of the example environments: it answers as the URL
    Standard does on plain URLs and on [undefined], which is all the
    examples hand to it (the worker's own URLs are plain), and it rejects
    the rest. *)
Definition plain_parser (input : option string) : Result string :=
  match URL_hostname input with
  | Some r => r
  | None => Err "Invalid URL"
  end.

(** What the file name is meant to contain: the host without a leading
    [www.] and nothing else removed. *)
Definition strip_leading_www (hostname : string) : string :=
  match strip_prefix "www." hostname with
  | Some rest => rest
  | None => hostname
  end.

Definition date_2024_01_15 : Date := mkDate 2024 1 15 10 30 0 0.

End Filename.

(** ** The worker *)

Module Worker.
Import Filename.
Open Scope string_scope.

(** The module-level variables (lines 2-4) and the browser runtime. *)
Record World := mkWorld {
  isRunning : bool;
  intervalId : option Z;
  currentTabId : option Z;
  rt : Runtime
}.

Definition with_rt (r : Runtime) (w : World) : World :=
  mkWorld (isRunning w) (intervalId w) (currentTabId w) r.

(** What the browser decides while the worker handles one event: the draw
    of [Math.random()], the outcome of every browser call the handler can
    make, what happens to the tab during the load wait, what
    [new URL(input).hostname] evaluates to (a host name, or the exception
    of the constructor), and the dates read by [new Date()]. *)
Record Env := mkEnv {
  random : Q;
  queryActive : Result (option Z);
  navigate : Result unit;
  createTab : Result Z;
  createTabFallback : Result Z;
  loadEvents : list LoadWait.Event;
  activate : Result unit;
  captureVisibleTab : Result string;
  hostnameOf : option string -> Result string;
  saveDate : Date;
  fetchBlob : Result unit;
  createObjectURL : Result string;
  download : Result Z;
  storageGet : Result unit;
  statsDate : Date;
  storageSet : Result unit;
  controlDate : Date;
  controlSet : Result unit
}.

(** How an [async] function ends: it returns, it throws, or the promise it
    awaits never settles. *)
Inductive Outcome (A : Type) :=
| Returned (a : A)
| Thrown (error : string)
| Hung.
Arguments Returned {A} a.
Arguments Thrown {A} error.
Arguments Hung {A}.

Definition Async (A : Type) : Type := World -> World * Outcome A.

Definition ret {A} (a : A) : Async A := fun w => (w, Returned a).

Definition bind {A B} (m : Async A) (k : A -> Async B) : Async B :=
  fun w =>
    match m w with
    | (w', Returned a) => k a w'
    | (w', Thrown e) => (w', Thrown e)
    | (w', Hung) => (w', Hung)
    end.

Definition throw {A} (e : string) : Async A := fun w => (w, Thrown e).

(** [try { body } catch (error) { handler }]. *)
Definition try_catch {A} (body : Async A) (handler : string -> Async A) : Async A :=
  fun w =>
    match body w with
    | (w', Thrown e) => handler e w'
    | r => r
    end.

Notation "x <- m ;; k" := (bind m (fun x => k))
  (at level 100, m at next level, right associativity).
Notation "m ;;; k" := (bind m (fun _ => k))
  (at level 100, right associativity).

Definition effect (e : Effect) : Async unit :=
  fun w => (with_rt (emit e (rt w)) w, Returned tt).

(** [await] of a browser call: the call is issued, then its outcome is
    observed. *)
Definition call {A} (e : Effect) (r : Result A) : Async A :=
  fun w =>
    (with_rt (emit e (rt w)) w,
     match r with Ok a => Returned a | Err err => Thrown err end).

Definition await {A} (r : Result A) : Async A :=
  fun w => (w, match r with Ok a => Returned a | Err err => Thrown err end).

Definition console_log (msg : string) : Async unit := effect (ConsoleLog msg).
Definition console_error (msg : string) : Async unit := effect (ConsoleError msg).

(** [chrome.storage.local.set(items)]. *)
Definition storage_set (items : list (string * JsVal)) (r : Result unit) : Async unit :=
  fun w =>
    let rt1 := emit (StorageSet items) (rt w) in
    match r with
    | Ok _ => (with_rt (set_storage (storage_merge items (storage rt1)) rt1) w, Returned tt)
    | Err err => (with_rt rt1 w, Thrown err)
    end.

(** [await new Promise(resolve => setTimeout(resolve, ms))]. *)
Definition sleep (ms : Z) : Async unit :=
  fun w =>
    let '(h, rt1) := setTimeout ms (rt w) in
    let rt2 := emit (TimeoutFired h)
                    (set_now (now (rt w) + ms) (set_timers (delete h (timers rt1)) rt1)) in
    (with_rt rt2 w, Returned tt).

Definition show_url (u : option string) : string :=
  match u with Some s => s | None => "undefined" end.

(** [createOrUpdateTab] (lines 109-127), from the point where the answer
    of [chrome.tabs.query] arrives. *)
Definition createOrUpdateTab_resume (env : Env) (url : option string) : Async Z :=
  try_catch
    (activeTab <- await (queryActive env) ;;
     match activeTab with
     | Some id =>
         call (TabsUpdateUrl id url) (navigate env) ;;;
         ret id
     | None => call (TabsCreate url) (createTab env)
     end)
    (fun error =>
       console_error "Error creating/updating tab:" ;;;
       call (TabsCreate url) (createTabFallback env)).

(** The events the browser delivers while the promise of the load wait is
    pending; the cycle goes on as soon as it is settled. *)
Fixpoint deliver (evs : list LoadWait.Event) (s : LoadWait.Call * Runtime)
  : LoadWait.Call * Runtime :=
  match LoadWait.promise s.1, evs with
  | LoadWait.Pending, e :: evs' => deliver evs' (LoadWait.dispatch e s)
  | _, _ => s
  end.

(** [await waitForPageLoad(tab.id)]: the executor runs, the browser
    delivers [loadEvents env], and when these leave the promise pending
    the clock runs on until the timeout.  The cycle resumes when the
    promise settles, at the time it settled. *)
Definition await_waitForPageLoad (env : Env) (tab : Z) : Async unit :=
  fun w =>
    let s := deliver (loadEvents env ++ [LoadWait.Elapse (Z.to_N PAGE_LOAD_TIMEOUT)])
                     (LoadWait.waitForPageLoad tab (rt w)) in
    let rt' := match LoadWait.settledAt s.1 with
               | Some t => set_now t s.2
               | None => s.2
               end in
    (with_rt rt' w,
     match LoadWait.promise s.1 with
     | LoadWait.Fulfilled => Returned tt
     | LoadWait.Rejected => Thrown "rejected"
     | LoadWait.Pending => Hung
     end).

(** [captureScreenshot] (lines 173-194). *)
Definition captureScreenshot (env : Env) (tab : Z) : Async string :=
  try_catch
    (call (TabsActivate tab) (activate env) ;;;
     sleep 1000 ;;;
     dataUrl <- call CaptureVisibleTab (captureVisibleTab env) ;;
     console_log "Screenshot captured successfully" ;;;
     ret dataUrl)
    (fun error =>
       console_error "Error capturing screenshot:" ;;;
       throw error).

(** [saveScreenshot] (lines 197-224). *)
Definition saveScreenshot (env : Env) (dataUrl : string) (sourceUrl : option string)
  : Async unit :=
  try_catch
    (hostname <- await (hostnameOf env sourceUrl) ;;
     let name := filename hostname (saveDate env) in
     call (Fetch dataUrl) (fetchBlob env) ;;;
     objectUrl <- call CreateObjectURL (createObjectURL env) ;;
     call (Download objectUrl name) (download env) ;;;
     console_log ("Screenshot saved: " ++ name))
    (fun error =>
       console_error "Error saving screenshot:" ;;;
       throw error).

(** [updateStats] (lines 227-240). *)
Definition updateStats (env : Env) : Async unit :=
  try_catch
    (call (StorageGet ["totalScreenshots"]) (storageGet env) ;;;
     (fun w =>
        let totalScreenshots :=
          js_plus_one (js_or (storage (rt w) !! "totalScreenshots") (VNum 0)) in
        storage_set [("totalScreenshots", totalScreenshots);
                     ("lastRun", VStr (toISOString (statsDate env)))]
                    (storageSet env) w))
    (fun error => console_error "Error updating stats:").

Definition set_currentTabId (tab : Z) : Async unit :=
  fun w => (mkWorld (isRunning w) (intervalId w) (Some tab) (rt w), Returned tt).

(** [takeScreenshot] (lines 70-100) up to its first [await]: the query
    for the active tab has been issued. *)
Definition takeScreenshot_begin (env : Env) (w : World) : World * option string :=
  let randomUrl := Select.getRandomUrl (random env) in
  let rt1 := emit (ConsoleLog "Starting screenshot process...") (rt w) in
  let rt2 := emit (ConsoleLog ("Selected URL: " ++ show_url randomUrl)) rt1 in
  let rt3 := emit TabsQuery rt2 in
  (with_rt rt3 w, randomUrl).

(** The steps of the [try] block before the statistics are updated. *)
Definition captureAndSave (env : Env) (randomUrl : option string) : Async unit :=
  tab <- createOrUpdateTab_resume env randomUrl ;;
  set_currentTabId tab ;;;
  await_waitForPageLoad env tab ;;;
  screenshotDataUrl <- captureScreenshot env tab ;;
  saveScreenshot env screenshotDataUrl randomUrl.

(** The rest of [takeScreenshot]. *)
Definition takeScreenshot_resume (env : Env) (randomUrl : option string) : Async unit :=
  try_catch
    (captureAndSave env randomUrl ;;;
     updateStats env ;;;
     console_log "Screenshot process completed successfully")
    (fun error => console_error "Error during screenshot process:").

Definition takeScreenshot (env : Env) : Async unit :=
  fun w =>
    let '(w1, randomUrl) := takeScreenshot_begin env w in
    takeScreenshot_resume env randomUrl w1.

(** The cycle up to, and not including, the statistics update. *)
Definition before_stats (env : Env) (w : World) : World * Outcome unit :=
  let '(w1, randomUrl) := takeScreenshot_begin env w in
  captureAndSave env randomUrl w1.

(** [startAutomatedScreenshots] (lines 30-53).  The function is
    synchronous: the cycle it starts has only reached its first [await]
    when it returns, and is handed back to be resumed. *)
Definition startAutomatedScreenshots (env : Env) (w : World)
  : World * option (option string) :=
  if isRunning w then
    (with_rt (emit (ConsoleLog "Screenshot process already running") (rt w)) w, None)
  else
    let w1 := mkWorld true (intervalId w) (currentTabId w)
                      (emit (ConsoleLog "Starting automated screenshot process") (rt w)) in
    let '(w2, randomUrl) := takeScreenshot_begin env w1 in
    let '(h, rt3) := setInterval SCREENSHOT_INTERVAL (rt w2) in
    let w3 := mkWorld (isRunning w2) (Some h) (currentTabId w2) rt3 in
    let '(w4, _) :=
      storage_set [("isRunning", VBool true);
                   ("lastRun", VStr (toISOString (controlDate env)));
                   ("totalScreenshots", VNum 0)]
                  (controlSet env) w3 in
    (w4, Some randomUrl).

(** [stopAutomatedScreenshots] (lines 56-67). *)
Definition stopAutomatedScreenshots (env : Env) (w : World) : World :=
  if negb (isRunning w) then w
  else
    let w1 := mkWorld false (intervalId w) (currentTabId w) (rt w) in
    let w2 :=
      match intervalId w1 with
      | Some h =>
          if truthy_num h
          then mkWorld (isRunning w1) None (currentTabId w1) (clearInterval h (rt w1))
          else w1
      | None => w1
      end in
    let w3 := with_rt (emit (ConsoleLog "Stopped automated screenshot process") (rt w2)) w2 in
    (storage_set [("isRunning", VBool false)] (controlSet env) w3).1.

(** Resuming the cycle a start has begun, if any. *)
Definition resume_started (env : Env) (started : option (option string)) (w : World)
  : World :=
  match started with
  | Some randomUrl => (takeScreenshot_resume env randomUrl w).1
  | None => w
  end.

(** The message listener (lines 243-273), run until the handler and the
    work it started have finished; the second component is what was
    passed to [sendResponse], if it was called. *)
Definition onMessage (action : string) (env : Env) (w : World) : World * option Response :=
  if String.eqb action "getStatus" then
    let w1 := with_rt (emit (StorageGet ["isRunning"; "lastRun"; "totalScreenshots"]) (rt w)) w in
    match storageGet env with
    | Ok _ =>
        (w1, Some (StatusReply (isRunning w1)
                               (storage (rt w1) !! "lastRun")
                               (js_or (storage (rt w1) !! "totalScreenshots") (VNum 0))))
    | Err _ => (w1, None)
    end
  else if String.eqb action "start" then
    let '(w1, started) := startAutomatedScreenshots env w in
    (resume_started env started w1, Some SuccessReply)
  else if String.eqb action "stop" then
    (stopAutomatedScreenshots env w, Some SuccessReply)
  else if String.eqb action "takeScreenshotNow" then
    match takeScreenshot env w with
    | (w1, Returned _) => (w1, Some SuccessReply)
    | (w1, Thrown error) => (w1, Some (FailureReply error))
    | (w1, Hung) => (w1, None)
    end
  else (w, None).

(** Everything the browser can make the worker do.  An input is handled
    to the end, the cycle it starts included, before the next one arrives:
    cycles do not overlap. *)
Inductive Input :=
| Startup          (* chrome.runtime.onStartup, lines 19-22 *)
| Installed        (* chrome.runtime.onInstalled, lines 24-27 *)
| Suspend          (* chrome.runtime.onSuspend, lines 276-279 *)
| Message (action : string)
| IntervalFired (handle : Z).

Definition step (i : Input) (env : Env) (w : World) : World :=
  match i with
  | Startup =>
      let w0 := with_rt (emit (ConsoleLog "Extension starting up - initializing screenshot process") (rt w)) w in
      let '(w1, started) := startAutomatedScreenshots env w0 in
      resume_started env started w1
  | Installed =>
      let w0 := with_rt (emit (ConsoleLog "Extension installed - initializing screenshot process") (rt w)) w in
      let '(w1, started) := startAutomatedScreenshots env w0 in
      resume_started env started w1
  | Suspend =>
      let w0 := with_rt (emit (ConsoleLog "Extension suspending - stopping screenshot process") (rt w)) w in
      stopAutomatedScreenshots env w0
  | Message action => (onMessage action env w).1
  | IntervalFired h =>
      match intervals (rt w) !! h with
      | Some _ => (takeScreenshot env w).1
      | None => w
      end
  end.

Definition run (inputs : list (Input * Env)) (w : World) : World :=
  fold_left (fun w ie => step ie.1 ie.2 w) inputs w.

(** The run flag is set before each of the inputs is handled. *)
Fixpoint running_throughout (inputs : list (Input * Env)) (w : World) : bool :=
  match inputs with
  | [] => true
  | ie :: rest => isRunning w && running_throughout rest (step ie.1 ie.2 w)
  end.

(** The worker as the browser loads it. *)
Definition initial (st : gmap string JsVal) : World :=
  mkWorld false None None (mkRuntime 0 ∅ ∅ 1%positive ∅ 0%nat st []).

(** The value shown as the screenshot count: [totalScreenshots || 0]. *)
Definition totalCount (w : World) : Z :=
  match js_or (storage (rt w) !! "totalScreenshots") (VNum 0) with
  | VNum n => n
  | _ => 0
  end.

(** The stored counter is a number, or not there yet. *)
Definition counter_is_number (w : World) : bool :=
  match storage (rt w) !! "totalScreenshots" with
  | None | Some (VNum _) => true
  | Some _ => false
  end.

(** The stored counter is absent or an integer from -2^53 to 2^53. *)
Definition counter_in_range (w : World) : bool :=
  match storage (rt w) !! "totalScreenshots" with
  | None => true
  | Some (VNum n) => (- MAX_COUNT <=? n)%Z && (n <=? MAX_COUNT)%Z
  | Some _ => false
  end.

(** What [updateStats] writes when both storage calls succeed. *)
Definition stats_items (env : Env) (w : World) : list (string * JsVal) :=
  [("totalScreenshots",
    js_plus_one (js_or (storage (rt w) !! "totalScreenshots") (VNum 0)));
   ("lastRun", VStr (toISOString (statsDate env)))].

Definition stats_written (env : Env) : bool :=
  match storageGet env, storageSet env with
  | Ok _, Ok _ => true
  | _, _ => false
  end.

Definition storage_calls (w : World) : list Effect :=
  List.filter is_storage_call (trace (rt w)).

(** The first and the last message of a cycle ([takeScreenshot], lines 72,
    94 and 97), and the cycles begun and finished so far as the log tells
    them. *)
Definition cycle_begun : Effect := ConsoleLog "Starting screenshot process...".
Definition cycle_completed : Effect :=
  ConsoleLog "Screenshot process completed successfully".
Definition cycle_failed : Effect := ConsoleError "Error during screenshot process:".

Definition is_cycle_mark (e : Effect) : bool :=
  match e with
  | ConsoleLog msg =>
      String.eqb msg "Starting screenshot process..." ||
      String.eqb msg "Screenshot process completed successfully"
  | ConsoleError msg => String.eqb msg "Error during screenshot process:"
  | _ => false
  end.

Definition cycle_marks (w : World) : list Effect :=
  List.filter is_cycle_mark (trace (rt w)).

(** No cycle was begun or finished between [w] and [w']. *)
Definition Unmarked (w w' : World) : Prop := cycle_marks w' = cycle_marks w.

(** "Incremented by exactly 1 per successful cycle", for the cycle that
    runs in [w] under [env]: the cycle is successful when it ends with the
    message of successful completion, and it has incremented the counter
    when the count is one more than before. *)
Definition successful_cycle (env : Env) (w : World) : bool :=
  match last (trace (rt (takeScreenshot env w).1)) with
  | Some (ConsoleLog msg) => String.eqb msg "Screenshot process completed successfully"
  | _ => false
  end.

Definition incremented_by_one (env : Env) (w : World) : bool :=
  (totalCount (takeScreenshot env w).1 =? totalCount w + 1)%Z.

(** *** Notions used to state what the worker guarantees *)

(** Every run of [m] ends in a world related to the one it started in. *)
Definition Keeps (R : World -> World -> Prop) {A} (m : Async A) : Prop :=
  forall w, R w (m w).1.

(** [m] always settles; [m] always returns. *)
Definition Settles {A} (m : Async A) : Prop := forall w, (m w).2 <> Hung.
Definition Returns {A} (m : Async A) : Prop := forall w, exists a, (m w).2 = Returned a.

(** Handles and closures not handed out yet are not in use. *)
Definition fresh (r : Runtime) : Prop :=
  (forall p, (nextHandle r <= p)%positive -> timers r !! Z.pos p = None) /\
  (forall n, (nextClosure r <= n)%nat -> n ∉ onUpdated r).

(** The run flag, the schedule, and (in a runtime that hands out new
    handles) the pending timers and registered listeners are as before. *)
Definition Steady (w w' : World) : Prop :=
  isRunning w' = isRunning w /\ intervalId w' = intervalId w /\
  intervals (rt w') = intervals (rt w) /\
  (fresh (rt w) ->
   fresh (rt w') /\ timers (rt w') = timers (rt w) /\ onUpdated (rt w') = onUpdated (rt w)).

(** In addition, the store is as before and was not even accessed. *)
Definition Calm (w w' : World) : Prop :=
  Steady w w' /\ storage (rt w') = storage (rt w) /\ storage_calls w' = storage_calls w.

(** A change of the runtime that touches neither timers, intervals,
    listeners nor the counters. *)
Definition same_timing (r r' : Runtime) : Prop :=
  timers r' = timers r /\ intervals r' = intervals r /\ onUpdated r' = onUpdated r /\
  nextHandle r' = nextHandle r /\ nextClosure r' = nextClosure r.

(** What a start of a stopped worker writes to the store. *)
Definition start_items (env : Env) : list (string * JsVal) :=
  [("isRunning", VBool true);
   ("lastRun", VStr (toISOString (controlDate env)));
   ("totalScreenshots", VNum 0)].

(** While the flag is set exactly one interval, with the configured
    period, is active, and it is the one [intervalId] names; while it is
    clear there is none. *)
Definition scheduled (w : World) : Prop :=
  if isRunning w
  then exists h, intervalId w = Some h /\ h <> 0 /\
                 intervals (rt w) = {[h := SCREENSHOT_INTERVAL]}
  else intervalId w = None /\ intervals (rt w) = ∅.

(** Between events no timer is pending and no listener is registered. *)
Definition tidy (w : World) : Prop :=
  fresh (rt w) /\ timers (rt w) = ∅ /\ onUpdated (rt w) = ∅.

Definition good (w : World) : Prop := scheduled w /\ tidy w.

(** An environment in which every browser call succeeds and the page
    reports its load.  In this and the following environments the URLs of
    the worker are parsed as the URL Standard says. *)
Definition fair_weather : Env :=
  mkEnv (3 # 5) (Ok (Some 7%Z)) (Ok tt) (Ok 8%Z) (Ok 9%Z)
        [LoadWait.TabUpdated 7 (Some complete)]
        (Ok tt) (Ok "data:image/png;base64,AAAA") plain_parser date_2024_01_15
        (Ok tt) (Ok "blob:1") (Ok 1%Z)
        (Ok tt) date_2024_01_15 (Ok tt)
        date_2024_01_15 (Ok tt).

(** The same, except that [chrome.downloads.download] rejects. *)
Definition download_fails : Env :=
  mkEnv (3 # 5) (Ok (Some 7%Z)) (Ok tt) (Ok 8%Z) (Ok 9%Z)
        [LoadWait.TabUpdated 7 (Some complete)]
        (Ok tt) (Ok "data:image/png;base64,AAAA") plain_parser date_2024_01_15
        (Ok tt) (Ok "blob:1") (Err "Download canceled by the user")
        (Ok tt) date_2024_01_15 (Ok tt)
        date_2024_01_15 (Ok tt).

(** The same, except that [chrome.storage.local.get] rejects. *)
Definition storage_fails : Env :=
  mkEnv (3 # 5) (Ok (Some 7%Z)) (Ok tt) (Ok 8%Z) (Ok 9%Z)
        [LoadWait.TabUpdated 7 (Some complete)]
        (Ok tt) (Ok "data:image/png;base64,AAAA") plain_parser date_2024_01_15
        (Ok tt) (Ok "blob:1") (Ok 1%Z)
        (Err "storage unavailable") date_2024_01_15 (Ok tt)
        date_2024_01_15 (Ok tt).


(** A store left by an earlier running period. *)
Definition used_store : gmap string JsVal :=
  {[ "totalScreenshots" := VNum 41; "isRunning" := VBool false ]}.

End Worker.

(** ** Further notions used to describe the worker's behaviour *)

Module Notions.
Import Filename Worker.
Open Scope string_scope.

(** *** The load wait *)

(** The events that make [waitForPageLoad tab] resolve before its
    timeout: the awaited tab reporting [complete], the status query
    answering [complete], and the status query failing. *)
Definition resolves_wait (tab : Z) (e : LoadWait.Event) : bool :=
  match e with
  | LoadWait.Elapse _ => false
  | LoadWait.TabUpdated t (Some complete) => (t =? tab)%Z
  | LoadWait.TabUpdated _ _ => false
  | LoadWait.TabsGetFulfilled complete => true
  | LoadWait.TabsGetFulfilled _ => false
  | LoadWait.TabsGetRejected => true
  end.

(** The time that passes during a sequence of events. *)
Definition elapsed (evs : list LoadWait.Event) : Z :=
  fold_right (fun e acc => match e with
                           | LoadWait.Elapse dt => Z.of_N dt + acc
                           | _ => acc
                           end) 0 evs.

(** *** File names *)

(** [s.indexOf(pat)]: where the first occurrence of [pat] starts. *)
Fixpoint first_index (pat s : string) : option nat :=
  match strip_prefix pat s with
  | Some _ => Some 0%nat
  | None =>
      match s with
      | EmptyString => None
      | String _ s' => S <$> first_index pat s'
      end
  end.

Definition has_colon_or_period (s : string) : bool :=
  existsb colon_or_period (list_ascii_of_string s).

(** The host parts of the file names the worker can produce. *)
Definition target_domains : list string :=
  ["competitiondatabase.co.uk"; "facebook.com"; "google.com"; "yahoo.com"].

(** *** Navigation *)

(** What the [try] block of [createOrUpdateTab] comes to. *)
Definition first_attempt (env : Env) : Result Z :=
  match queryActive env with
  | Ok (Some id) => match navigate env with Ok _ => Ok id | Err e => Err e end
  | Ok None => createTab env
  | Err e => Err e
  end.

Definition is_tabs_create (e : Effect) : bool :=
  match e with TabsCreate _ => true | _ => false end.

(** The effects a computation adds to the trace. *)
Definition new_effects (w w' : World) : list Effect :=
  drop (length (trace (rt w))) (trace (rt w')).

(** *** The counter *)

(** What a cycle adds to the count: one when every step up to the save
    succeeds and both storage calls of the statistics update succeed. *)
Definition cycle_gain (env : Env) (w : World) : Z :=
  match (before_stats env w).2 with
  | Returned _ => if stats_written env then 1 else 0
  | _ => 0
  end.

(** What handling an input adds to the count. *)
Definition gain (i : Input) (env : Env) (w : World) : Z :=
  match i with
  | IntervalFired h =>
      match intervals (rt w) !! h with
      | Some _ => cycle_gain env w
      | None => 0
      end
  | Message action =>
      if String.eqb action "takeScreenshotNow" then cycle_gain env w else 0
  | _ => 0
  end.

Fixpoint counted (inputs : list (Input * Env)) (w : World) : Z :=
  match inputs with
  | [] => 0
  | ie :: rest => gain ie.1 ie.2 w + counted rest (step ie.1 ie.2 w)
  end.

(** *** The store *)

Definition worker_key (k : string) : bool :=
  String.eqb k "isRunning" || String.eqb k "lastRun" || String.eqb k "totalScreenshots".

(** The stored flag is the flag in memory. *)
Definition flag_persisted (w : World) : Prop :=
  storage (rt w) !! "isRunning" = Some (VBool (isRunning w)).

(** The writes of [start] and [stop] succeed. *)
Definition control_writes_succeed (inputs : list (Input * Env)) : bool :=
  forallb (fun ie => match controlSet ie.2 with Ok _ => true | Err _ => false end) inputs.

End Notions.

Module SelectFacts.
Import Select.

Lemma scaled_bounds (r : Q) (i : Z) :
  (inject_Z i / 4 <= r /\ r < inject_Z (i + 1) / 4)%Q <->
  (inject_Z i <= r * 4 /\ r * 4 < inject_Z (i + 1))%Q.
Proof.
  split; intros [H1 H2]; split.
  - apply (Qmult_le_r _ _ 4) in H1; [|reflexivity].
    assert (inject_Z i / 4 * 4 == inject_Z i)%Q as E by field.
    rewrite E in H1. exact H1.
  - apply (Qmult_lt_r _ _ 4) in H2; [|reflexivity].
    assert (inject_Z (i + 1) / 4 * 4 == inject_Z (i + 1))%Q as E by field.
    rewrite E in H2. exact H2.
  - apply Qle_shift_div_r; [reflexivity | exact H1].
  - apply Qlt_shift_div_l; [reflexivity | exact H2].
Qed.

Lemma floor_unique (x : Q) (i : Z) :
  (inject_Z i <= x /\ x < inject_Z (i + 1))%Q <-> Qfloor x = i.
Proof.
  split.
  - intros [H1 H2].
    apply Qfloor_resp_le in H1. rewrite Qfloor_Z in H1.
    pose proof (Qfloor_le x) as Hlo.
    assert (inject_Z (Qfloor x) < inject_Z (i + 1))%Q as H3
      by (eapply Qle_lt_trans; eassumption).
    rewrite <- Zlt_Qlt in H3. lia.
  - intros <-. split; [apply Qfloor_le | apply Qlt_floor].
Qed.

Lemma randomIndex_quarter (r : Q) (i : Z) :
  randomIndex r = i <-> (inject_Z i / 4 <= r /\ r < inject_Z (i + 1) / 4)%Q.
Proof.
  rewrite scaled_bounds. symmetry. apply floor_unique.
Qed.

Lemma randomIndex_in_bounds (r : Q) :
  (0 <= r)%Q -> (r < 1)%Q -> 0 <= randomIndex r < Z.of_nat (length TARGET_URLS).
Proof.
  intros H0 H1. unfold randomIndex. simpl length.
  change (inject_Z (Z.of_nat 4)) with 4%Q.
  split.
  - change 0 with (Qfloor 0). apply Qfloor_resp_le.
    apply Qmult_le_0_compat; [exact H0 | discriminate].
  - pose proof (Qfloor_le (r * 4)) as Hlo.
    assert (r * 4 < 4)%Q as H4.
    { change (r * 4 < 1 * 4)%Q. apply Qmult_lt_r; [reflexivity | exact H1]. }
    assert (inject_Z (Qfloor (r * 4)) < inject_Z 4)%Q as H5
      by (eapply Qle_lt_trans; eassumption).
    rewrite <- Zlt_Qlt in H5. exact H5.
Qed.

Lemma array_get_in {A} (arr : list A) (i : Z) :
  0 <= i < Z.of_nat (length arr) ->
  exists x, array_get arr i = Some x /\ In x arr.
Proof.
  intros [Hlo Hhi]. unfold array_get.
  destruct (Z.ltb_spec i 0) as [?|_]; [lia|].
  destruct (nth_error arr (Z.to_nat i)) as [x|] eqn:E.
  - exists x. split; [reflexivity | eapply nth_error_In; exact E].
  - apply nth_error_None in E. lia.
Qed.

Lemma midpoint_selects (i : Z) :
  0 <= i < 4 -> (0 <= midpoint i)%Q /\ (midpoint i < 1)%Q /\ randomIndex (midpoint i) = i.
Proof.
  intros Hi.
  assert (i = 0 \/ i = 1 \/ i = 2 \/ i = 3) as Hc by lia.
  destruct Hc as [ -> | [ -> | [ -> | -> ] ] ];
    repeat split; first [reflexivity | discriminate].
Qed.

(** C9. For every draw of [Math.random()] in [0,1) the index computed by
    [getRandomUrl] is within the bounds of the four-entry [TARGET_URLS] and
    the function returns exactly that element of the list; the draws that
    select entry [i] are exactly the quarter [i/4, (i+1)/4) of the unit
    interval (equal shares, so a uniform draw selects uniformly); the
    result depends on nothing but the current draw, and every entry, hence
    every pair of consecutive selections including a repeat, is
    reachable. *)
Theorem getRandomUrl_selects_from_list (r : Q) :
  (0 <= r)%Q -> (r < 1)%Q ->
  length TARGET_URLS = 4%nat /\
  0 <= randomIndex r < 4 /\
  (exists url, getRandomUrl r = Some url /\
               In url TARGET_URLS /\
               nth_error TARGET_URLS (Z.to_nat (randomIndex r)) = Some url) /\
  (forall i, randomIndex r = i <->
             (inject_Z i / 4 <= r /\ r < inject_Z (i + 1) / 4)%Q) /\
  (forall u1 u2, In u1 TARGET_URLS -> In u2 TARGET_URLS ->
     exists r1 r2, (0 <= r1)%Q /\ (r1 < 1)%Q /\ (0 <= r2)%Q /\ (r2 < 1)%Q /\
                   getRandomUrl r1 = Some u1 /\ getRandomUrl r2 = Some u2).
Proof.
  intros H0 H1.
  pose proof (randomIndex_in_bounds r H0 H1) as Hb.
  split; [reflexivity|]. split; [exact Hb|]. split; [|split].
  - destruct (array_get_in TARGET_URLS (randomIndex r) Hb) as [url [Hg Hin]].
    exists url. split; [exact Hg|]. split; [exact Hin|].
    unfold getRandomUrl, array_get in *.
    destruct (Z.ltb_spec (randomIndex r) 0); [lia | exact Hg].
  - intros i. apply randomIndex_quarter.
  - assert (forall u, In u TARGET_URLS ->
              exists q, (0 <= q)%Q /\ (q < 1)%Q /\ getRandomUrl q = Some u) as Hsel.
    { intros u Hu. simpl in Hu.
      destruct Hu as [ <- | [ <- | [ <- | [ <- | [] ] ] ] ];
        [exists (midpoint 0) | exists (midpoint 1)
         | exists (midpoint 2) | exists (midpoint 3)];
        repeat split; first [reflexivity | discriminate]. }
    intros u1 u2 Hu1 Hu2.
    destruct (Hsel u1 Hu1) as [r1 [? [? ?]]].
    destruct (Hsel u2 Hu2) as [r2 [? [? ?]]].
    exists r1, r2. repeat split; assumption.
Qed.

Lemma getRandomUrl_selects_from_list_witness :
  (0 <= 3 # 5)%Q /\ (3 # 5 < 1)%Q /\
  0 <= randomIndex (3 # 5) < 4 /\
  getRandomUrl (3 # 5) = Some "https://www.google.com"%string.
Proof.
  assert (0 <= 3 # 5)%Q as H0 by discriminate.
  assert (3 # 5 < 1)%Q as H1 by reflexivity.
  pose proof (getRandomUrl_selects_from_list (3 # 5) H0 H1) as (_ & Hb & _).
  split; [exact H0|]. split; [exact H1|]. split; [exact Hb | reflexivity].
Defined.
End SelectFacts.

Module LoadWaitFacts.
Import LoadWait.

(** *** The invariant of an outstanding call *)

Section Invariant.
Variable rt0 : Runtime.
Variable tab : Z.

Local Abbreviation h := (Z.pos (nextHandle rt0)).
Local Abbreviation l := (nextClosure rt0).
Local Abbreviation deadline := (now rt0 + PAGE_LOAD_TIMEOUT).

Lemma removed_listener_gone (x : nat) (X : gset nat) : x ∉ X ∖ {[x]}.
Proof. rewrite elem_of_difference, elem_of_singleton. tauto. Qed.

Lemma removed_listener_others (x y : nat) (X : gset nat) :
  y <> x -> y ∈ X ∖ {[x]} <-> y ∈ X.
Proof. intros H. rewrite elem_of_difference, elem_of_singleton. tauto. Qed.

Lemma added_listener_there (x : nat) (X : gset nat) : x ∈ {[x]} ∪ X.
Proof. rewrite elem_of_union, elem_of_singleton. tauto. Qed.

Lemma added_listener_others (x y : nat) (X : gset nat) :
  y <> x -> y ∈ {[x]} ∪ X <-> y ∈ X.
Proof. intros H. rewrite elem_of_union, elem_of_singleton. tauto. Qed.

Ltac trace_frame :=
  simpl; rewrite ?List.filter_app; simpl; rewrite ?app_nil_r;
  first [assumption | reflexivity].

Lemma Inv_init : Inv rt0 tab (waitForPageLoad tab rt0).
Proof.
  unfold waitForPageLoad; simpl. split; [constructor; simpl; try done|].
  - intros h' Hne. rewrite lookup_insert_ne; [done | congruence].
  - intros l' Hne. apply added_listener_others. exact Hne.
  - trace_frame.
  - intros _; simpl. repeat split.
    + apply lookup_insert_eq.
    + unfold PAGE_LOAD_TIMEOUT. lia.
    + apply added_listener_there.
Qed.

(** What [cleanup] does once both closure variables are assigned. *)
Lemma cleanup_assigned (c : Call) (rt : Runtime) :
  timeoutId c = Some h -> loadingListener c = Some l ->
  cleanup c rt = removeListener l (clearTimeout h rt).
Proof. intros Ht Hl. unfold cleanup. rewrite Ht, Hl. reflexivity. Qed.

Lemma Frame_emit (c : Call) (rt : Runtime) (e : Effect) :
  is_storage_call e = false -> Frame rt0 tab (c, rt) -> Frame rt0 tab (c, emit e rt).
Proof.
  intros He [? ? ? ? ? ? ? ? ? Htr]. constructor; try assumption.
  simpl in *. rewrite List.filter_app. simpl. rewrite He, app_nil_r. exact Htr.
Qed.

Lemma Armed_emit (c : Call) (rt : Runtime) (e : Effect) :
  Armed rt0 tab (c, rt) -> Armed rt0 tab (c, emit e rt).
Proof. intros H. exact H. Qed.

Lemma Frame_query_done (c : Call) (rt : Runtime) :
  Frame rt0 tab (c, rt) -> Frame rt0 tab (query_done c, rt).
Proof. intros [? ? ? ? ? ? ? ? ? ?]. constructor; assumption. Qed.

Lemma Armed_query_done (c : Call) (rt : Runtime) :
  Armed rt0 tab (c, rt) -> Armed rt0 tab (query_done c, rt).
Proof. intros H. exact H. Qed.

(** Cleaning up and then resolving leads to an invariant state, from any
    state of the frame that is not past the deadline. *)
Lemma Inv_settle (c : Call) (rt : Runtime) :
  Frame rt0 tab (c, rt) ->
  (promise c = Pending -> now rt <= deadline) ->
  Inv rt0 tab (resolve c (cleanup c rt), cleanup c rt).
Proof.
  intros [Htab Hto Hli Hnr Hclk Hf Hft Hfl Hfr Htr] Hnow.
  simpl in *. rewrite (cleanup_assigned c rt Hto Hli).
  unfold resolve. destruct (promise c) eqn:Ep; simpl.
  - specialize (Hnow eq_refl). split; [constructor|]; simpl; rewrite ?Ep; try done.
    + intros _. split; [apply lookup_delete_eq|]. split; [apply removed_listener_gone|].
      exists (now rt). repeat split; lia.
    + intros h' Hne. rewrite lookup_delete_ne; [auto | congruence].
    + intros l' Hne. rewrite <- (Hfl l' Hne). apply removed_listener_others. exact Hne.
    + trace_frame.
  - destruct (Hf eq_refl) as [Hnone [Hnot [t [Hs Ht]]]].
    split; [constructor|]; simpl; rewrite ?Ep; try done.
    + intros _. split; [apply lookup_delete_eq|]. split; [apply removed_listener_gone|].
      exists t. done.
    + intros h' Hne. rewrite lookup_delete_ne; [auto | congruence].
    + intros l' Hne. rewrite <- (Hfl l' Hne). apply removed_listener_others. exact Hne.
    + trace_frame.
    + intros Hp; simpl in Hp; congruence.
  - done.
Qed.

(** Logging between [cleanup] and [resolve] changes nothing. *)
Lemma Inv_settle_logged (c : Call) (rt : Runtime) (e : Effect) :
  is_storage_call e = false ->
  Frame rt0 tab (c, rt) ->
  (promise c = Pending -> now rt <= deadline) ->
  Inv rt0 tab (resolve c (emit e (cleanup c rt)), emit e (cleanup c rt)).
Proof.
  intros He HF Hnow. destruct (Inv_settle c rt HF Hnow) as [HF' HA'].
  split.
  - apply (Frame_emit _ _ e) in HF'; [exact HF' | exact He].
  - exact HA'.
Qed.

Lemma Inv_deadline (s : Call * Runtime) :
  Inv rt0 tab s -> promise s.1 = Pending -> now s.2 <= deadline.
Proof. intros [_ HA] Hp. destruct (HA Hp) as [_ [? _]]. lia. Qed.

Lemma Inv_advance (t : Z) (s : Call * Runtime) :
  now s.2 <= t -> Inv rt0 tab s -> Inv rt0 tab (advance t s).
Proof.
  intros Ht HI. destruct s as [c rt]. simpl in Ht.
  pose proof HI as [HF HA]. pose proof HF as [Htab Hto Hli Hnr Hclk Hf Hft Hfl Hfr Htr].
  simpl in *. unfold advance. rewrite Hto.
  destruct (promise c) eqn:Ep.
  - (* pending: the timer is armed *)
    destruct (HA Ep) as [Htm [Hlt [Hin Hs]]]. simpl in *. rewrite Htm.
    destruct (Z.leb_spec deadline t) as [Hdue|Hnot].
    + (* it fires, at the deadline *)
      set (rt1 := emit (TimeoutFired h)
                    (set_now deadline (set_timers (delete h (timers rt)) rt))).
      assert (Frame rt0 tab (c, rt1)) as HF1.
      { constructor; simpl; rewrite ?Ep; try done.
        - lia.
        - intros h' Hne. rewrite lookup_delete_ne; [auto | congruence].
        - trace_frame. }
      assert (now rt1 <= deadline) as Hn1 by (simpl; lia).
      pose proof (Inv_settle_logged c rt1
        (ConsoleLog "Page load timeout reached, proceeding with screenshot") eq_refl HF1
        (fun _ => Hn1))
        as [HF2 HA2].
      unfold onTimeout. simpl.
      destruct HF2 as [? ? ? ? ? Hf2 ? ? ? ?]. simpl in *.
      split; [constructor|]; simpl; try assumption.
      * lia.
      * intros Hp. destruct (Hf2 Hp) as [? [? [t' [? [? ?]]]]].
        repeat split; try assumption. exists t'. repeat split; try assumption; lia.
      * intros Hp. simpl in Hp. exfalso.
        revert Hp. unfold resolve. rewrite Ep. simpl. discriminate.
    + (* it does not fire yet *)
      simpl. split; [constructor|]; simpl; rewrite ?Ep; try done.
      * lia.
  - (* fulfilled: the timer is gone *)
    destruct (Hf eq_refl) as [Hnone [Hnot [t' [Hs [Hb Hle]]]]]. simpl in *.
    rewrite Hnone. simpl.
    split; [constructor|]; simpl; rewrite ?Ep; try done.
    + lia.
    + intros _. repeat split; try assumption. exists t'. repeat split; try assumption; lia.
    + intros Hp; simpl in Hp; congruence.
  - done.
Qed.

Lemma Inv_onTabUpdated (tab' : Z) (status : option TabStatus) (s : Call * Runtime) :
  Inv rt0 tab s -> Inv rt0 tab (onTabUpdated tab' status s).
Proof.
  intros HI. destruct s as [c rt]. unfold onTabUpdated.
  destruct status as [[| |]|]; try exact HI.
  destruct (tab' =? tabId c); [|exact HI].
  destruct HI as [HF HA].
  apply Inv_settle_logged; [reflexivity | exact HF |].
  intros Hp. destruct (HA Hp) as [_ [? _]]. simpl in *. lia.
Qed.

Lemma Inv_onGetFulfilled (status : TabStatus) (s : Call * Runtime) :
  Inv rt0 tab s -> Inv rt0 tab (onGetFulfilled status s).
Proof.
  intros HI. destruct s as [c rt]. unfold onGetFulfilled.
  destruct status; try exact HI.
  destruct HI as [HF HA].
  apply Inv_settle; [exact HF|].
  intros Hp. destruct (HA Hp) as [_ [? _]]. simpl in *. lia.
Qed.

Lemma Inv_onGetRejected (s : Call * Runtime) :
  Inv rt0 tab s -> Inv rt0 tab (onGetRejected s).
Proof.
  intros HI. destruct s as [c rt]. unfold onGetRejected.
  destruct HI as [HF HA].
  apply Inv_settle; [apply Frame_emit; [reflexivity | exact HF]|].
  intros Hp. destruct (HA Hp) as [_ [? _]]. simpl in *. lia.
Qed.

Lemma dispatch_Elapse (dt : N) (c : Call) (rt : Runtime) :
  dispatch (Elapse dt) (c, rt) = advance (now rt + Z.of_N dt) (c, rt).
Proof. reflexivity. Qed.

Lemma dispatch_TabUpdated (tab' : Z) (status : option TabStatus) (c : Call) (rt : Runtime) :
  dispatch (TabUpdated tab' status) (c, rt) =
  match loadingListener c with
  | Some l' => if decide (l' ∈ onUpdated rt)
               then onTabUpdated tab' status (c, emit (ListenerInvoked l') rt)
               else (c, rt)
  | None => (c, rt)
  end.
Proof. reflexivity. Qed.

Lemma dispatch_TabsGetFulfilled (status : TabStatus) (c : Call) (rt : Runtime) :
  dispatch (TabsGetFulfilled status) (c, rt) =
  if getPending c then onGetFulfilled status (query_done c, rt) else (c, rt).
Proof. reflexivity. Qed.

Lemma dispatch_TabsGetRejected (c : Call) (rt : Runtime) :
  dispatch TabsGetRejected (c, rt) =
  if getPending c then onGetRejected (query_done c, rt) else (c, rt).
Proof. reflexivity. Qed.

Lemma Inv_dispatch (e : Event) (s : Call * Runtime) :
  Inv rt0 tab s -> Inv rt0 tab (dispatch e s).
Proof.
  intros HI. destruct s as [c rt]. destruct e as [dt|tab' status|status|].
  - rewrite dispatch_Elapse. apply Inv_advance; [simpl; lia | exact HI].
  - rewrite dispatch_TabUpdated. destruct (loadingListener c) as [l'|]; [|exact HI].
    destruct (decide (l' ∈ onUpdated rt)); [|exact HI].
    apply Inv_onTabUpdated. destruct HI as [HF HA].
    split; [apply Frame_emit; [reflexivity | exact HF] | exact HA].
  - rewrite dispatch_TabsGetFulfilled. destruct (getPending c); [|exact HI].
    apply Inv_onGetFulfilled. destruct HI as [HF HA].
    split; [apply Frame_query_done; exact HF | exact HA].
  - rewrite dispatch_TabsGetRejected. destruct (getPending c); [|exact HI].
    apply Inv_onGetRejected. destruct HI as [HF HA].
    split; [apply Frame_query_done; exact HF | exact HA].
Qed.

Lemma Inv_run (evs : list Event) (s : Call * Runtime) :
  Inv rt0 tab s -> Inv rt0 tab (run evs s).
Proof.
  revert s. induction evs as [|e evs IH]; intros s HI; simpl.
  - exact HI.
  - apply IH. apply Inv_dispatch. exact HI.
Qed.

Lemma Inv_reachable (evs : list Event) :
  Inv rt0 tab (run evs (waitForPageLoad tab rt0)).
Proof. apply Inv_run, Inv_init. Qed.

(** Once the promise is fulfilled, nothing the browser does makes a
    callback of the race run again. *)
Lemma quiet_dispatch (e : Event) (s : Call * Runtime) :
  Inv rt0 tab s -> promise s.1 = Fulfilled ->
  promise (dispatch e s).1 = Fulfilled /\
  notifications (dispatch e s).2 = notifications s.2.
Proof.
  intros [HF HA] Hp. destruct s as [c rt].
  destruct HF as [Htab Hto Hli Hnr Hclk Hf Hft Hfl Hfr Htr]. simpl in * |-.
  destruct (Hf Hp) as [Hnone [Hnot _]].
  destruct e as [dt|tab' status|status|].
  - rewrite dispatch_Elapse. unfold advance. rewrite Hto, Hnone. simpl. done.
  - rewrite dispatch_TabUpdated, Hli.
    destruct (decide (l ∈ onUpdated rt)); [contradiction | done].
  - rewrite dispatch_TabsGetFulfilled. destruct (getPending c); [|done].
    unfold onGetFulfilled. destruct status; try done.
    rewrite (cleanup_assigned (query_done c) rt Hto Hli).
    unfold resolve, notifications; simpl. rewrite Hp. simpl. split; [done|].
    rewrite !List.filter_app. simpl. rewrite !app_nil_r. reflexivity.
  - rewrite dispatch_TabsGetRejected. destruct (getPending c); [|done].
    unfold onGetRejected.
    rewrite (cleanup_assigned (query_done c) _ Hto Hli).
    unfold resolve, notifications; simpl. rewrite Hp. simpl. split; [done|].
    rewrite !List.filter_app. simpl. rewrite !app_nil_r. reflexivity.
Qed.

Lemma quiet_run (evs : list Event) (s : Call * Runtime) :
  Inv rt0 tab s -> promise s.1 = Fulfilled ->
  promise (run evs s).1 = Fulfilled /\
  notifications (run evs s).2 = notifications s.2.
Proof.
  revert s. induction evs as [|e evs IH]; intros s HI Hp; simpl.
  - done.
  - destruct (quiet_dispatch e s HI Hp) as [Hp' Hn'].
    destruct (IH (dispatch e s) (Inv_dispatch e s HI) Hp') as [Hp'' Hn''].
    split; [exact Hp'' | congruence].
Qed.

Lemma Inv_settled_by_deadline (s : Call * Runtime) :
  Inv rt0 tab s -> deadline <= now s.2 -> promise s.1 = Fulfilled.
Proof.
  intros [HF HA] Hd. destruct (promise s.1) eqn:Ep.
  - destruct (HA Ep) as [_ [Hlt _]]. lia.
  - reflexivity.
  - destruct (inv_not_rejected _ _ s HF Ep).
Qed.

Lemma now_advance (t : Z) (s : Call * Runtime) : now (advance t s).2 = t.
Proof. destruct s as [c rt]. reflexivity. Qed.

(** The timeout side of the race resolves. *)
Lemma timeout_resolves (s : Call * Runtime) :
  Inv rt0 tab s -> promise (dispatch (Elapse (Z.to_N PAGE_LOAD_TIMEOUT)) s).1 = Fulfilled.
Proof.
  intros HI. apply Inv_settled_by_deadline; [apply Inv_dispatch; exact HI|].
  destruct s as [c rt]. rewrite dispatch_Elapse, now_advance.
  destruct HI as [HF _]. pose proof (inv_clock _ _ _ HF) as Hc. simpl in Hc.
  unfold PAGE_LOAD_TIMEOUT. lia.
Qed.

(** The load-complete side of the race resolves. *)
Lemma load_complete_resolves (s : Call * Runtime) :
  Inv rt0 tab s -> promise (dispatch (TabUpdated tab (Some complete)) s).1 = Fulfilled.
Proof.
  intros HI. destruct s as [c rt]. pose proof HI as [HF HA].
  pose proof (inv_listener _ _ _ HF) as Hli. pose proof (inv_tab _ _ _ HF) as Htab.
  simpl in Hli, Htab.
  rewrite dispatch_TabUpdated, Hli.
  destruct (promise c) eqn:Ep.
  - destruct (HA Ep) as [_ [_ [Hin _]]]. simpl in Hin.
    destruct (decide (l ∈ onUpdated rt)); [|contradiction].
    unfold onTabUpdated. rewrite <- Htab, Z.eqb_refl.
    unfold resolve. simpl. rewrite Ep. reflexivity.
  - destruct (inv_fulfilled _ _ _ HF Ep) as [_ [Hnot _]]. simpl in Hnot.
    destruct (decide (l ∈ onUpdated rt)); [contradiction | exact Ep].
  - destruct (inv_not_rejected _ _ _ HF Ep).
Qed.

(** An already-complete answer of the status query resolves. *)
Lemma already_complete_resolves (s : Call * Runtime) :
  Inv rt0 tab s -> getPending s.1 = true ->
  promise (dispatch (TabsGetFulfilled complete) s).1 = Fulfilled.
Proof.
  intros HI Hg. destruct s as [c rt]. simpl in Hg.
  rewrite dispatch_TabsGetFulfilled, Hg. unfold onGetFulfilled, resolve. simpl.
  destruct HI as [HF _]. pose proof (inv_not_rejected _ _ _ HF) as Hnr. simpl in Hnr.
  destruct (promise c) eqn:Ep; simpl; congruence.
Qed.

(** A failing status query resolves as well. *)
Lemma query_error_resolves (s : Call * Runtime) :
  Inv rt0 tab s -> getPending s.1 = true ->
  promise (dispatch TabsGetRejected s).1 = Fulfilled.
Proof.
  intros HI Hg. destruct s as [c rt]. simpl in Hg.
  rewrite dispatch_TabsGetRejected, Hg. unfold onGetRejected, resolve. simpl.
  destruct HI as [HF _]. pose proof (inv_not_rejected _ _ _ HF) as Hnr. simpl in Hnr.
  destruct (promise c) eqn:Ep; simpl; congruence.
Qed.

(** After the promise is fulfilled the runtime holds the timers and
    listeners it held before the call, provided the handle and the
    closure of the call were new. *)
Lemma settled_restores_timers (s : Call * Runtime) :
  Inv rt0 tab s -> promise s.1 = Fulfilled ->
  timers rt0 !! h = None -> timers s.2 = timers rt0.
Proof.
  intros [HF _] Hp Hfresh. destruct (inv_fulfilled _ _ _ HF Hp) as [Hnone _].
  apply map_eq. intros h'. destruct (decide (h' = h)) as [->|Hne].
  - congruence.
  - apply (inv_frame_timers _ _ _ HF). exact Hne.
Qed.

Lemma settled_restores_listeners (s : Call * Runtime) :
  Inv rt0 tab s -> promise s.1 = Fulfilled ->
  l ∉ onUpdated rt0 -> onUpdated s.2 = onUpdated rt0.
Proof.
  intros [HF _] Hp Hfresh. destruct (inv_fulfilled _ _ _ HF Hp) as [_ [Hnot _]].
  apply set_eq. intros l'. destruct (decide (l' = l)) as [->|Hne].
  - split; intros; contradiction.
  - apply (inv_frame_listeners _ _ _ HF). exact Hne.
Qed.
End Invariant.

(** The executor registers the timer, then the listener, and only then
    issues the status query. *)
Lemma executor_trace (rt0 : Runtime) (tab : Z) :
  trace (waitForPageLoad tab rt0).2 =
  trace rt0 ++ [SetTimeout (Z.pos (nextHandle rt0)) PAGE_LOAD_TIMEOUT;
                AddListener (nextClosure rt0);
                TabsGet tab].
Proof. unfold waitForPageLoad. simpl. rewrite <- !app_assoc. reflexivity. Qed.

(** No event changes the handle and closure counters. *)
Lemma cleanup_counters (c : Call) (rt : Runtime) :
  nextHandle (cleanup c rt) = nextHandle rt /\
  nextClosure (cleanup c rt) = nextClosure rt.
Proof.
  unfold cleanup. destruct (timeoutId c) as [h|]; [destruct (truthy_num h)|];
    destruct (loadingListener c); done.
Qed.

Ltac through_cleanup :=
  simpl;
  match goal with
  | |- context [cleanup ?c ?r] =>
      let E1 := fresh in let E2 := fresh in
      destruct (cleanup_counters c r) as [E1 E2]; rewrite E1, E2; done
  end.

Lemma dispatch_counters (e : Event) (s : Call * Runtime) :
  nextHandle (dispatch e s).2 = nextHandle s.2 /\
  nextClosure (dispatch e s).2 = nextClosure s.2.
Proof.
  destruct s as [c rt].
  destruct e as [dt|tab' status|status|].
  - unfold dispatch, advance, onTimeout.
    destruct (timeoutId c) as [h|]; [|done].
    destruct (timers rt !! h) as [due|]; [|done].
    destruct (due <=? now rt + Z.of_N dt); [|done].
    through_cleanup.
  - unfold dispatch, onTabUpdated.
    destruct (loadingListener c) as [l|]; [|done].
    destruct (decide (l ∈ onUpdated rt)); [|done].
    destruct status as [[| |]|]; try done.
    destruct (tab' =? tabId c); [|done].
    through_cleanup.
  - unfold dispatch, onGetFulfilled.
    destruct (getPending c); [|done].
    destruct status; try done. through_cleanup.
  - unfold dispatch, onGetRejected.
    destruct (getPending c); [|done].
    through_cleanup.
Qed.

Lemma run_counters (evs : list Event) (s : Call * Runtime) :
  nextHandle (run evs s).2 = nextHandle s.2 /\
  nextClosure (run evs s).2 = nextClosure s.2.
Proof.
  revert s. induction evs as [|e evs IH]; intros s; simpl; [done|].
  destruct (IH (dispatch e s)) as [-> ->]. apply dispatch_counters.
Qed.

Lemma executor_calls_eq (rt0 : Runtime) (tab : Z) :
  executor_calls tab rt0 =
  [SetTimeout (Z.pos (nextHandle rt0)) PAGE_LOAD_TIMEOUT;
   AddListener (nextClosure rt0);
   TabsGet tab].
Proof. unfold executor_calls. rewrite executor_trace. apply drop_app_length. Qed.

(** C4, as the code has it.  The executor of [waitForPageLoad] first
    registers the timeout timer, then the load-complete listener, and only
    then issues the status query; when the query is issued both sides of
    the race are armed and the promise is pending.  The answer arrives
    later as an event: an answer [complete] resolves the promise at once
    and cancels both the timer and the listener, any other answer leaves
    the race as it is; and so it is whenever the answer arrives, whatever
    the browser has delivered in between. *)
Theorem status_query_follows_registrations (rt0 : Runtime) (tab : Z) :
  let h := Z.pos (nextHandle rt0) in
  let l := nextClosure rt0 in
  let s0 := waitForPageLoad tab rt0 in
  let s1 := dispatch (TabsGetFulfilled complete) s0 in
  executor_calls tab rt0 = [SetTimeout h PAGE_LOAD_TIMEOUT; AddListener l; TabsGet tab] /\
  registrations_before_query (executor_calls tab rt0) = true /\
  query_before_registrations (executor_calls tab rt0) = false /\
  (timers s0.2 !! h = Some (now rt0 + PAGE_LOAD_TIMEOUT) /\ l ∈ onUpdated s0.2 /\
   getPending s0.1 = true /\ promise s0.1 = Pending) /\
  (promise s1.1 = Fulfilled /\ settledAt s1.1 = Some (now rt0) /\
   timers s1.2 !! h = None /\ l ∉ onUpdated s1.2) /\
  (forall status, status <> complete ->
     dispatch (TabsGetFulfilled status) s0 = (query_done s0.1, s0.2)) /\
  (forall evs : list Event,
     let s := run evs s0 in
     let s' := dispatch (TabsGetFulfilled complete) s in
     getPending s.1 = true ->
     promise s'.1 = Fulfilled /\ timers s'.2 !! h = None /\ l ∉ onUpdated s'.2 /\
     (forall status, status <> complete ->
        dispatch (TabsGetFulfilled status) s = (query_done s.1, s.2))).
Proof.
  intros h l s0 s1. rewrite executor_calls_eq.
  split; [reflexivity|]. split; [reflexivity|]. split; [reflexivity|].
  destruct (Inv_init rt0 tab) as [HF HA]. fold s0 in HF, HA.
  assert (promise s0.1 = Pending) as Hp by reflexivity.
  destruct (HA Hp) as (Ht & _ & Hl & _).
  split; [repeat split; assumption|]. split.
  - pose proof (Inv_dispatch rt0 tab (TabsGetFulfilled complete) s0 (conj HF HA))
      as [HF1 _]. fold s1 in HF1.
    assert (promise s1.1 = Fulfilled) as Hp1 by reflexivity.
    destruct (inv_fulfilled _ _ _ HF1 Hp1) as (Hnone & Hnot & _).
    repeat split; assumption || reflexivity.
  - split; [intros [| |] Hne; try reflexivity; contradiction|].
    intros evs s s' Hg.
    pose proof (Inv_reachable rt0 tab evs) as HI. fold s0 s in HI.
    pose proof (already_complete_resolves rt0 tab s HI Hg) as Hf. fold s' in Hf.
    pose proof (Inv_dispatch rt0 tab (TabsGetFulfilled complete) s HI) as [HF' _].
    fold s' in HF'.
    destruct (inv_fulfilled _ _ _ HF' Hf) as (Hnone & Hnot & _).
    split; [exact Hf|]. split; [exact Hnone|]. split; [exact Hnot|].
    intros status Hne. destruct s as [c rt]. simpl in Hg.
    rewrite dispatch_TabsGetFulfilled, Hg.
    destruct status; try reflexivity. contradiction.
Qed.

(** C4, as stated, fails: in the trace of the executor the status query
    does not come before the two registrations. *)
Lemma status_query_is_not_first :
  query_before_registrations (executor_calls 7 empty_runtime) <> true.
Proof. vm_compute. discriminate. Qed.

End LoadWaitFacts.

Module FilenameFacts.
Import Filename.
Open Scope string_scope.

#[local] Arguments digit : simpl never.
#[local] Arguments pad : simpl never.
#[local] Arguments iso_year : simpl never.

(** *** Strings *)

Lemma append_nil (s : string) : "" ++ s = s.
Proof. reflexivity. Qed.

Lemma append_cons (c : ascii) (a b : string) : String c a ++ b = String c (a ++ b).
Proof. reflexivity. Qed.

Lemma append_assoc (a b c : string) : (a ++ b) ++ c = a ++ (b ++ c).
Proof.
  induction a as [|x a IH]; [reflexivity|].
  rewrite !append_cons, IH. reflexivity.
Qed.

Lemma length_append (a b : string) :
  String.length (a ++ b) = (String.length a + String.length b)%nat.
Proof.
  induction a as [|x a IH]; [reflexivity|].
  rewrite append_cons. simpl. rewrite IH. reflexivity.
Qed.

Lemma substring_prefix (a b : string) : substring 0 (String.length a) (a ++ b) = a.
Proof.
  induction a as [|x a IH].
  - rewrite append_nil. destruct b; reflexivity.
  - rewrite append_cons. simpl. rewrite IH. reflexivity.
Qed.

(** Dropping a suffix of [n] characters. *)
Lemma slice_drops_suffix (n : nat) (a b : string) :
  String.length b = n -> slice_0_neg n (a ++ b) = a.
Proof.
  intros H. unfold slice_0_neg. rewrite length_append, H.
  replace (String.length a + n - n)%nat with (String.length a) by lia.
  apply substring_prefix.
Qed.

Lemma replace_append (a b : string) :
  replace_colons_periods (a ++ b) = replace_colons_periods a ++ replace_colons_periods b.
Proof.
  induction a as [|x a IH]; [reflexivity|].
  rewrite !append_cons. simpl. rewrite IH, append_cons. reflexivity.
Qed.

(** *** Digits *)

Lemma digit_plain (n : Z) : colon_or_period (digit n) = false.
Proof.
  unfold digit. pose proof (Z.mod_pos_bound n 10 ltac:(lia)) as Hb.
  assert (Z.to_nat (n mod 10) < 10)%nat as Hk by lia.
  destruct (Z.to_nat (n mod 10)) as [|k]; [reflexivity|].
  do 9 (destruct k as [|k]; [reflexivity|]). lia.
Qed.

Lemma pad_succ (w : nat) (n : Z) :
  pad (S w) n = pad w (n / 10) ++ String (digit n) EmptyString.
Proof. reflexivity. Qed.

Lemma replace_single (c : ascii) :
  replace_colons_periods (String c EmptyString)
  = String (if colon_or_period c then "-"%char else c) EmptyString.
Proof. reflexivity. Qed.

Lemma pad_plain (w : nat) (n : Z) : replace_colons_periods (pad w n) = pad w n.
Proof.
  revert n. induction w as [|w IH]; intros n; [reflexivity|].
  rewrite pad_succ, replace_append, IH, replace_single, digit_plain. reflexivity.
Qed.

Lemma pad_length (w : nat) (n : Z) : String.length (pad w n) = w.
Proof.
  revert n. induction w as [|w IH]; intros n; [reflexivity|].
  rewrite pad_succ, length_append, IH. simpl. lia.
Qed.

Lemma iso_year_plain (y : Z) : replace_colons_periods (iso_year y) = iso_year y.
Proof.
  unfold iso_year. destruct ((0 <=? y)%Z && (y <=? 9999)%Z); [apply pad_plain|].
  rewrite replace_append, pad_plain. destruct (y <? 0)%Z; reflexivity.
Qed.

(** *** The time stamp *)

(** The ISO string with [:] and [.] turned into [-] and the last five
    characters (the milliseconds with their separator, and the [Z])
    dropped: [YYYY-MM-DDTHH-mm-ss]. *)
Lemma timestamp_format (d : Date) :
  timestamp d =
  iso_year (year d) ++ "-" ++ pad 2 (month d) ++ "-" ++ pad 2 (day d) ++ "T" ++
  pad 2 (hours d) ++ "-" ++ pad 2 (minutes d) ++ "-" ++ pad 2 (seconds d).
Proof.
  unfold timestamp, toISOString.
  rewrite !replace_append, iso_year_plain, !pad_plain.
  change (replace_colons_periods "-") with "-".
  change (replace_colons_periods "T") with "T".
  change (replace_colons_periods ":") with "-".
  change (replace_colons_periods ".") with "-".
  change (replace_colons_periods "Z") with "Z".
  set (tail := "-" ++ pad 3 (milliseconds d) ++ "Z").
  assert (String.length tail = 5%nat) as Hl.
  { unfold tail. rewrite !length_append, pad_length. reflexivity. }
  set (head := iso_year (year d) ++ "-" ++ pad 2 (month d) ++ "-" ++ pad 2 (day d) ++
               "T" ++ pad 2 (hours d) ++ "-" ++ pad 2 (minutes d) ++ "-" ++
               pad 2 (seconds d)).
  rewrite <- (slice_drops_suffix 5 head tail Hl). f_equal.
  unfold head. rewrite !append_assoc. reflexivity.
Qed.

(** *** The host part *)

Lemma replace_first_prefix (pat rep s rest : string) :
  strip_prefix pat s = Some rest -> replace_first pat rep s = rep ++ rest.
Proof. intros H. destruct s; simpl; rewrite H; reflexivity. Qed.

(** A host that starts with [www.] loses exactly that prefix. *)
Lemma urlDomain_leading_www (host rest : string) :
  strip_prefix "www." host = Some rest ->
  urlDomain host = rest /\ strip_leading_www host = rest.
Proof.
  intros H. unfold urlDomain, strip_leading_www.
  rewrite (replace_first_prefix _ _ _ _ H), H. split; reflexivity.
Qed.

(** A host without [www.] is left as it is. *)
Lemma replace_first_absent (pat rep s : string) :
  Notions.first_index pat s = None -> replace_first pat rep s = s.
Proof.
  induction s as [|c s IH]; intros H.
  - simpl in *. destruct (strip_prefix pat ""); [discriminate | reflexivity].
  - change (Notions.first_index pat (String c s))
      with (match strip_prefix pat (String c s) with
            | Some _ => Some 0%nat
            | None => S <$> Notions.first_index pat s
            end) in H.
    change (replace_first pat rep (String c s))
      with (match strip_prefix pat (String c s) with
            | Some rest => rep ++ rest
            | None => String c (replace_first pat rep s)
            end).
    destruct (strip_prefix pat (String c s)); [discriminate|].
    destruct (Notions.first_index pat s); [discriminate|].
    rewrite IH; reflexivity.
Qed.

Lemma first_index_absent_prefix (pat s : string) :
  Notions.first_index pat s = None -> strip_prefix pat s = None.
Proof.
  intros H. destruct s as [|c s]; simpl in H;
    match type of H with context [strip_prefix ?p ?x] =>
      destruct (strip_prefix p x) eqn:E end;
    first [discriminate | reflexivity | exact E].
Qed.

(** For every configured URL the file name carries the host without its
    leading [www.]. *)
Lemma filename_of_target (u : string) (d : Date) :
  In u TARGET_URLS ->
  exists rest,
    URL_hostname (Some u) = Some (Ok ("www." ++ rest)) /\
    strip_leading_www ("www." ++ rest) = rest /\
    filename_of_url (Some u) d =
    Some (Ok ("screenshot_" ++ rest ++ "_" ++ timestamp d ++ ".png")).
Proof.
  simpl. intros [ <- | [ <- | [ <- | [ <- | [] ] ] ] ];
    eexists; (split; [reflexivity|]); split; reflexivity.
Qed.

Example filename_of_example :
  filename_of_url (Some "https://www.example.com") date_2024_01_15
  = Some (Ok "screenshot_example.com_2024-01-15T10-30-00.png").
Proof. reflexivity. Qed.

(** C3. The file name is a function of the source URL and the date, of
    the form [screenshot_<host>_<timestamp>.png].  Each of the URLs a cycle
    hands to [saveScreenshot] (the entries of [TARGET_URLS], the only
    values [getRandomUrl] returns) is parsed, its host name starts with
    [www.], and <host> is the host name without that prefix.  More
    generally, stripping the leading [www.] is what the code does to every
    host name that starts with [www.] and to every host name that does not
    contain it.  <timestamp> is the ISO string [YYYY-MM-DDTHH:mm:ss.sssZ]
    of the date with the separators of the time turned into [-] and the
    milliseconds and the [Z] gone.  The example of the specification comes
    out as stated.  This name, computed from the host name the parser
    reports and from the date, is the one under which [saveScreenshot]
    offers the download. *)
Theorem filename_strips_leading_www :
  (forall (u : string) (d : Date),
     In u TARGET_URLS ->
     exists rest,
       URL_hostname (Some u) = Some (Ok ("www." ++ rest)) /\
       strip_leading_www ("www." ++ rest) = rest /\
       filename_of_url (Some u) d
       = Some (Ok ("screenshot_" ++ rest ++ "_" ++ timestamp d ++ ".png"))) /\
  (forall (host : string) (d : Date),
     (exists rest, host = "www." ++ rest) \/ Notions.first_index "www." host = None ->
     filename host d
     = "screenshot_" ++ strip_leading_www host ++ "_" ++ timestamp d ++ ".png") /\
  (forall d : Date,
     toISOString d =
       iso_year (year d) ++ "-" ++ pad 2 (month d) ++ "-" ++ pad 2 (day d) ++ "T" ++
       pad 2 (hours d) ++ ":" ++ pad 2 (minutes d) ++ ":" ++ pad 2 (seconds d) ++
       "." ++ pad 3 (milliseconds d) ++ "Z" /\
     timestamp d =
       iso_year (year d) ++ "-" ++ pad 2 (month d) ++ "-" ++ pad 2 (day d) ++ "T" ++
       pad 2 (hours d) ++ "-" ++ pad 2 (minutes d) ++ "-" ++ pad 2 (seconds d)) /\
  filename_of_url (Some "https://www.example.com") date_2024_01_15
  = Some (Ok "screenshot_example.com_2024-01-15T10-30-00.png") /\
  (forall (env : Worker.Env) (dataUrl : string) (sourceUrl : option string)
          (hostname objectUrl : string) (w : Worker.World),
     Worker.hostnameOf env sourceUrl = Ok hostname ->
     Worker.fetchBlob env = Ok tt ->
     Worker.createObjectURL env = Ok objectUrl ->
     In (Download objectUrl (filename hostname (Worker.saveDate env)))
        (trace (Worker.rt (Worker.saveScreenshot env dataUrl sourceUrl w).1))).
Proof.
  split; [exact filename_of_target|].
  split.
  { intros host d [[rest ->] | Habsent]; unfold filename.
    - assert (strip_prefix "www." ("www." ++ rest) = Some rest) as Hp by reflexivity.
      destruct (urlDomain_leading_www _ _ Hp) as [-> ->]. reflexivity.
    - unfold urlDomain, strip_leading_www.
      rewrite (replace_first_absent _ _ _ Habsent),
        (first_index_absent_prefix _ _ Habsent). reflexivity. }
  split; [intros d; split; [reflexivity | apply timestamp_format]|].
  split; [reflexivity|].
  intros env dataUrl sourceUrl hostname objectUrl w Hh Hf Ho.
  unfold Worker.saveScreenshot, Worker.try_catch, Worker.bind, Worker.await,
    Worker.call, Worker.console_log, Worker.console_error, Worker.effect, Worker.throw.
  rewrite Hh, Hf, Ho.
  destruct (Worker.download env); simpl;
    rewrite !in_app_iff; simpl; tauto.
Qed.

End FilenameFacts.

Module WorkerFacts.
Import Filename Worker.
Open Scope string_scope.

#[local] Arguments to_double : simpl never.

(** *** Properties kept by every step of an [async] function *)

Section KeepsLemmas.
Variable R : World -> World -> Prop.
Hypothesis R_refl : forall w, R w w.
Hypothesis R_trans : forall a b c, R a b -> R b c -> R a c.

Local Abbreviation Keeps := (Keeps R).

Lemma Keeps_ret {A} (a : A) : Keeps (ret a).
Proof. intros w. apply R_refl. Qed.

Lemma Keeps_throw {A} (e : string) : Keeps (@throw A e).
Proof. intros w. apply R_refl. Qed.

Lemma Keeps_await {A} (r : Result A) : Keeps (await r).
Proof. intros w. apply R_refl. Qed.

Lemma Keeps_bind {A B} (m : Async A) (k : A -> Async B) :
  Keeps m -> (forall a, Keeps (k a)) -> Keeps (bind m k).
Proof.
  intros Hm Hk w. unfold bind. specialize (Hm w).
  destruct (m w) as [w' [a|e|]]; simpl in *; try exact Hm.
  eapply R_trans; [exact Hm | apply Hk].
Qed.

Lemma Keeps_try_catch {A} (body : Async A) (handler : string -> Async A) :
  Keeps body -> (forall e, Keeps (handler e)) -> Keeps (try_catch body handler).
Proof.
  intros Hb Hh w. unfold try_catch. specialize (Hb w).
  destruct (body w) as [w' [a|e|]]; simpl in *; try exact Hb.
  eapply R_trans; [exact Hb | apply Hh].
Qed.
End KeepsLemmas.

(** *** Functions that always come back *)

Lemma Settles_ret {A} (a : A) : Settles (ret a).
Proof. intros w. discriminate. Qed.

Lemma Settles_throw {A} (e : string) : Settles (@throw A e).
Proof. intros w. discriminate. Qed.

Lemma Settles_await {A} (r : Result A) : Settles (await r).
Proof. intros w. destruct r; discriminate. Qed.

Lemma Settles_call {A} (e : Effect) (r : Result A) : Settles (call e r).
Proof. intros w. destruct r; discriminate. Qed.

Lemma Settles_effect (e : Effect) : Settles (effect e).
Proof. intros w. discriminate. Qed.

Lemma Settles_storage_set items r : Settles (storage_set items r).
Proof. intros w. unfold storage_set. destruct r; discriminate. Qed.

Lemma Settles_sleep ms : Settles (sleep ms).
Proof. intros w. discriminate. Qed.

Lemma Settles_bind {A B} (m : Async A) (k : A -> Async B) :
  Settles m -> (forall a, Settles (k a)) -> Settles (bind m k).
Proof.
  intros Hm Hk w. unfold bind. specialize (Hm w).
  destruct (m w) as [w' [a|e|]]; simpl in *; try done. apply Hk.
Qed.

Lemma Settles_try_catch {A} (body : Async A) (handler : string -> Async A) :
  Settles body -> (forall e, Settles (handler e)) -> Settles (try_catch body handler).
Proof.
  intros Hb Hh w. unfold try_catch. specialize (Hb w).
  destruct (body w) as [w' [a|e|]]; simpl in *; try done. apply Hh.
Qed.

(** A [try] whose handler returns turns every exception into a return. *)
Lemma Returns_try_catch (body : Async unit) (handler : string -> Async unit) :
  Settles body -> (forall e, Returns (handler e)) -> Returns (try_catch body handler).
Proof.
  intros Hb Hh w. unfold try_catch. specialize (Hb w).
  destruct (body w) as [w' [a|e|]]; simpl in *; try done.
  - exists a. reflexivity.
  - apply Hh.
Qed.

Lemma Returns_effect (e : Effect) : Returns (effect e).
Proof. intros w. exists tt. reflexivity. Qed.

(** The load wait, seen from the cycle, always returns. *)
Lemma run_snoc (evs : list LoadWait.Event) (e : LoadWait.Event) s :
  LoadWait.run (evs ++ [e]) s = LoadWait.dispatch e (LoadWait.run evs s).
Proof. unfold LoadWait.run. rewrite fold_left_app. reflexivity. Qed.

Lemma deliver_settled (evs : list LoadWait.Event) s :
  LoadWait.promise s.1 <> LoadWait.Pending -> deliver evs s = s.
Proof. intros H. destruct evs; simpl; destruct (LoadWait.promise s.1); done. Qed.

Lemma deliver_pending (e : LoadWait.Event) (evs : list LoadWait.Event) s :
  LoadWait.promise s.1 = LoadWait.Pending ->
  deliver (e :: evs) s = deliver evs (LoadWait.dispatch e s).
Proof. intros H. simpl. rewrite H. reflexivity. Qed.

(** What was delivered is a prefix of what the browser had in store. *)
Lemma deliver_run (evs : list LoadWait.Event) s :
  exists n, deliver evs s = LoadWait.run (take n evs) s.
Proof.
  revert s. induction evs as [|e evs IH]; intros s.
  - exists 0%nat. simpl. destruct (LoadWait.promise s.1); reflexivity.
  - destruct (LoadWait.promise s.1) eqn:Hp.
    + rewrite (deliver_pending _ _ _ Hp).
      destruct (IH (LoadWait.dispatch e s)) as [n Hn].
      exists (S n). rewrite Hn. reflexivity.
    + exists 0%nat. rewrite (deliver_settled _ s) by (rewrite Hp; discriminate).
      reflexivity.
    + exists 0%nat. rewrite (deliver_settled _ s) by (rewrite Hp; discriminate).
      reflexivity.
Qed.

Lemma deliver_fulfilled (rt0 : Runtime) (tab : Z) (evs : list LoadWait.Event) s :
  LoadWait.Inv rt0 tab s ->
  LoadWait.promise
    (deliver (evs ++ [LoadWait.Elapse (Z.to_N PAGE_LOAD_TIMEOUT)]) s).1
  = LoadWait.Fulfilled.
Proof.
  revert s. induction evs as [|e evs IH]; intros s HI;
    destruct (LoadWait.promise s.1) eqn:Hp.
  - simpl app. rewrite (deliver_pending _ _ _ Hp).
    pose proof (LoadWaitFacts.timeout_resolves rt0 tab s HI) as Hf.
    rewrite deliver_settled; [exact Hf|].
    intros E.
    assert (LoadWait.Fulfilled = LoadWait.Pending) by (rewrite <- Hf; exact E).
    discriminate.
  - rewrite deliver_settled; [exact Hp | rewrite Hp; discriminate].
  - destruct HI as [HF _]. destruct (LoadWait.inv_not_rejected _ _ _ HF Hp).
  - simpl app. rewrite (deliver_pending _ _ _ Hp).
    apply IH. apply LoadWaitFacts.Inv_dispatch. exact HI.
  - rewrite deliver_settled; [exact Hp | rewrite Hp; discriminate].
  - destruct HI as [HF _]. destruct (LoadWait.inv_not_rejected _ _ _ HF Hp).
Qed.

Lemma await_waitForPageLoad_fulfilled (env : Env) (tab : Z) (w : World) :
  LoadWait.promise
    (deliver (loadEvents env ++ [LoadWait.Elapse (Z.to_N PAGE_LOAD_TIMEOUT)])
             (LoadWait.waitForPageLoad tab (rt w))).1 = LoadWait.Fulfilled.
Proof. apply (deliver_fulfilled (rt w) tab). apply LoadWaitFacts.Inv_init. Qed.

Lemma await_waitForPageLoad_returns (env : Env) (tab : Z) (w : World) :
  (await_waitForPageLoad env tab w).2 = Returned tt.
Proof.
  unfold await_waitForPageLoad. simpl.
  rewrite await_waitForPageLoad_fulfilled. reflexivity.
Qed.

Lemma Settles_await_waitForPageLoad env tab : Settles (await_waitForPageLoad env tab).
Proof. intros w. rewrite await_waitForPageLoad_returns. discriminate. Qed.

Lemma Settles_createOrUpdateTab_resume env url : Settles (createOrUpdateTab_resume env url).
Proof.
  apply Settles_try_catch.
  - apply Settles_bind; [apply Settles_await|]. intros [id|].
    + apply Settles_bind; [apply Settles_call | intros; apply Settles_ret].
    + apply Settles_call.
  - intros e. apply Settles_bind; [apply Settles_effect | intros; apply Settles_call].
Qed.

Lemma Settles_captureScreenshot env tab : Settles (captureScreenshot env tab).
Proof.
  apply Settles_try_catch.
  - apply Settles_bind; [apply Settles_call | intros _].
    apply Settles_bind; [apply Settles_sleep | intros _].
    apply Settles_bind; [apply Settles_call | intros d].
    apply Settles_bind; [apply Settles_effect | intros _; apply Settles_ret].
  - intros e. apply Settles_bind; [apply Settles_effect | intros; apply Settles_throw].
Qed.

Lemma Settles_saveScreenshot env d url : Settles (saveScreenshot env d url).
Proof.
  apply Settles_try_catch.
  - apply Settles_bind; [apply Settles_await | intros hostname].
    apply Settles_bind; [apply Settles_call | intros _].
    apply Settles_bind; [apply Settles_call | intros o].
    apply Settles_bind; [apply Settles_call | intros _; apply Settles_effect].
  - intros e. apply Settles_bind; [apply Settles_effect | intros; apply Settles_throw].
Qed.

Lemma Settles_captureAndSave env url : Settles (captureAndSave env url).
Proof.
  apply Settles_bind; [apply Settles_createOrUpdateTab_resume | intros tab].
  apply Settles_bind; [intros w; discriminate | intros _].
  apply Settles_bind; [apply Settles_await_waitForPageLoad | intros _].
  apply Settles_bind; [apply Settles_captureScreenshot | intros d].
  apply Settles_saveScreenshot.
Qed.

(** [updateStats] absorbs every failure of the storage calls. *)
Lemma updateStats_returns env : Returns (updateStats env).
Proof.
  apply Returns_try_catch.
  - apply Settles_bind; [apply Settles_call | intros _].
    intros w. apply Settles_storage_set.
  - intros e. apply Returns_effect.
Qed.

Lemma Settles_updateStats env : Settles (updateStats env).
Proof. intros w. destruct (updateStats_returns env w) as [a ->]. discriminate. Qed.

(** [takeScreenshot] catches everything: its promise is always fulfilled. *)
Lemma takeScreenshot_resume_returns env url : Returns (takeScreenshot_resume env url).
Proof.
  apply Returns_try_catch.
  - apply Settles_bind; [apply Settles_captureAndSave | intros _].
    apply Settles_bind; [apply Settles_updateStats | intros _; apply Settles_effect].
  - intros e. apply Returns_effect.
Qed.

Lemma takeScreenshot_returns env : Returns (takeScreenshot env).
Proof.
  intros w. unfold takeScreenshot.
  destruct (takeScreenshot_begin env w) as [w1 url].
  apply takeScreenshot_resume_returns.
Qed.

(** Hence [takeScreenshotNow] is always answered with success. *)
Lemma takeScreenshotNow_reply env w :
  (onMessage "takeScreenshotNow" env w).2 = Some SuccessReply.
Proof.
  unfold onMessage. simpl.
  destruct (takeScreenshot_returns env w) as [[] Hr].
  destruct (takeScreenshot env w) as [w1 o]. simpl in Hr. subst o. reflexivity.
Qed.

(** *** What a cycle leaves alone *)

Lemma Steady_refl w : Steady w w.
Proof. unfold Steady. tauto. Qed.

Lemma Steady_trans a b c : Steady a b -> Steady b c -> Steady a c.
Proof.
  intros (H1 & H2 & H3 & H4) (K1 & K2 & K3 & K4).
  split; [congruence|]. split; [congruence|]. split; [congruence|].
  intros Hfr. destruct (H4 Hfr) as (Hf & Ht & Hl).
  destruct (K4 Hf) as (Kf & Kt & Kl).
  split; [exact Kf|]. split; congruence.
Qed.

Lemma Calm_refl w : Calm w w.
Proof. split; [apply Steady_refl | done]. Qed.

Lemma Calm_trans a b c : Calm a b -> Calm b c -> Calm a c.
Proof.
  intros (H1 & H2 & H3) (K1 & K2 & K3).
  split; [eapply Steady_trans; eassumption | split; congruence].
Qed.

Lemma Steady_same_timing (w w' : World) :
  isRunning w' = isRunning w -> intervalId w' = intervalId w ->
  same_timing (rt w) (rt w') -> Steady w w'.
Proof.
  intros H1 H2 (Ht & Hi & Hl & Hh & Hc).
  split; [exact H1|]. split; [exact H2|]. split; [exact Hi|].
  intros [Hft Hfl]. split; [|split; assumption]. split.
  - intros p Hp. rewrite Ht. apply Hft. rewrite <- Hh. exact Hp.
  - intros n Hn. rewrite Hl. apply Hfl. rewrite <- Hc. exact Hn.
Qed.

Lemma Calm_effect (e : Effect) : is_storage_call e = false -> Keeps Calm (effect e).
Proof.
  intros He w. split; [apply Steady_same_timing; done|]. split; [done|].
  unfold storage_calls. simpl. rewrite List.filter_app. simpl. rewrite He.
  apply app_nil_r.
Qed.

Lemma Calm_call {A} (e : Effect) (r : Result A) :
  is_storage_call e = false -> Keeps Calm (call e r).
Proof. intros He w. apply (Calm_effect e He w). Qed.

Lemma Calm_set_currentTabId tab : Keeps Calm (set_currentTabId tab).
Proof. intros w. split; [apply Steady_same_timing; done | done]. Qed.

Lemma Calm_sleep ms : Keeps Calm (sleep ms).
Proof.
  intros w. unfold sleep. simpl. split; [|split; [done|]].
  - split; [done|]. split; [done|]. split; [done|].
    intros [Hft Hfl]. simpl. split; [split|split]; simpl.
    + intros p Hp. rewrite delete_insert_eq.
      rewrite lookup_delete_ne; [apply Hft; lia | lia].
    + exact Hfl.
    + rewrite delete_insert_eq. apply delete_id. apply Hft. lia.
    + reflexivity.
  - unfold storage_calls. simpl. rewrite !List.filter_app. simpl.
    rewrite !app_nil_r. reflexivity.
Qed.

Lemma Calm_await_waitForPageLoad env tab : Keeps Calm (await_waitForPageLoad env tab).
Proof.
  intros w. unfold await_waitForPageLoad.
  pose proof (await_waitForPageLoad_fulfilled env tab w) as Hp.
  destruct (deliver_run (loadEvents env ++ [LoadWait.Elapse (Z.to_N PAGE_LOAD_TIMEOUT)])
                        (LoadWait.waitForPageLoad tab (rt w))) as [k Hk].
  rewrite Hk in *.
  set (evs := take k (loadEvents env ++ [LoadWait.Elapse (Z.to_N PAGE_LOAD_TIMEOUT)])) in *.
  pose proof (LoadWaitFacts.Inv_reachable (rt w) tab evs) as HI.
  pose proof (LoadWaitFacts.run_counters evs (LoadWait.waitForPageLoad tab (rt w)))
    as [Hh Hc].
  set (s := LoadWait.run evs (LoadWait.waitForPageLoad tab (rt w))) in *.
  assert (forall r' : Runtime,
            r' = match LoadWait.settledAt s.1 with
                 | Some t => set_now t s.2
                 | None => s.2
                 end ->
            timers r' = timers s.2 /\ intervals r' = intervals s.2 /\
            onUpdated r' = onUpdated s.2 /\ storage r' = storage s.2 /\
            trace r' = trace s.2 /\ nextHandle r' = nextHandle s.2 /\
            nextClosure r' = nextClosure s.2) as Hsame
    by (intros r' ->; destruct (LoadWait.settledAt s.1); done).
  destruct (Hsame _ eq_refl) as (Rt & Ri & Rl & Rs & Rtr & Rh & Rc).
  simpl. unfold Calm, Steady, storage_calls, fresh. simpl.
  rewrite Rt, Ri, Rl, Rs, Rtr, Rh, Rc. clear Hsame Rt Ri Rl Rs Rtr Rh Rc.
  pose proof HI as [HF _].
  destruct (LoadWait.inv_frame_rest _ _ _ HF) as [Hiv Hst].
  pose proof (LoadWait.inv_frame_trace _ _ _ HF) as Htr.
  split; [|split; [exact Hst | exact Htr]].
  split; [done|]. split; [done|]. split; [exact Hiv|].
  intros [Hft Hfl].
  assert (timers s.2 = timers (rt w)) as Et.
  { apply (LoadWaitFacts.settled_restores_timers (rt w) tab s HI Hp). apply Hft. lia. }
  assert (onUpdated s.2 = onUpdated (rt w)) as El.
  { apply (LoadWaitFacts.settled_restores_listeners (rt w) tab s HI Hp). apply Hfl. lia. }
  assert (nextHandle s.2 = Pos.succ (nextHandle (rt w))) as Eh by (rewrite Hh; reflexivity).
  assert (nextClosure s.2 = S (nextClosure (rt w))) as Ec by (rewrite Hc; reflexivity).
  assert (fresh s.2) as Hfresh.
  { split.
    - intros p Hp'. rewrite Et. apply Hft. rewrite Eh in Hp'. lia.
    - intros n Hn. rewrite El. apply Hfl. rewrite Ec in Hn. lia. }
  split; [exact Hfresh | split; assumption].
Qed.

Lemma Calm_bind {A B} (m : Async A) (k : A -> Async B) :
  Keeps Calm m -> (forall a, Keeps Calm (k a)) -> Keeps Calm (bind m k).
Proof. apply Keeps_bind. exact Calm_trans. Qed.

Lemma Calm_try_catch {A} (body : Async A) (handler : string -> Async A) :
  Keeps Calm body -> (forall e, Keeps Calm (handler e)) -> Keeps Calm (try_catch body handler).
Proof. apply Keeps_try_catch. exact Calm_trans. Qed.

Lemma Calm_pure {A} (m : Async A) : (forall w, (m w).1 = w) -> Keeps Calm m.
Proof. intros H w. rewrite H. apply Calm_refl. Qed.

Lemma Calm_createOrUpdateTab_resume env url : Keeps Calm (createOrUpdateTab_resume env url).
Proof.
  apply Calm_try_catch.
  - apply Calm_bind; [apply Calm_pure; done|]. intros [id|].
    + apply Calm_bind; [apply Calm_call; done | intros; apply Calm_pure; done].
    + apply Calm_call; done.
  - intros e. apply Calm_bind; [apply Calm_effect; done | intros; apply Calm_call; done].
Qed.

Lemma Calm_captureScreenshot env tab : Keeps Calm (captureScreenshot env tab).
Proof.
  apply Calm_try_catch.
  - apply Calm_bind; [apply Calm_call; done | intros _].
    apply Calm_bind; [apply Calm_sleep | intros _].
    apply Calm_bind; [apply Calm_call; done | intros d].
    apply Calm_bind; [apply Calm_effect; done | intros _; apply Calm_pure; done].
  - intros e. apply Calm_bind; [apply Calm_effect; done | intros; apply Calm_pure; done].
Qed.

Lemma Calm_saveScreenshot env d url : Keeps Calm (saveScreenshot env d url).
Proof.
  apply Calm_try_catch.
  - apply Calm_bind; [apply Calm_pure; done | intros hostname].
    apply Calm_bind; [apply Calm_call; done | intros _].
    apply Calm_bind; [apply Calm_call; done | intros o].
    apply Calm_bind; [apply Calm_call; done | intros _; apply Calm_effect; done].
  - intros e. apply Calm_bind; [apply Calm_effect; done | intros; apply Calm_pure; done].
Qed.

(** Everything before the statistics update leaves the run flag, the
    schedule and the store alone, and leaves no timer or listener behind. *)
Lemma Calm_captureAndSave env url : Keeps Calm (captureAndSave env url).
Proof.
  apply Calm_bind; [apply Calm_createOrUpdateTab_resume | intros tab].
  apply Calm_bind; [apply Calm_set_currentTabId | intros _].
  apply Calm_bind; [apply Calm_await_waitForPageLoad | intros _].
  apply Calm_bind; [apply Calm_captureScreenshot | intros d].
  apply Calm_saveScreenshot.
Qed.

Lemma Calm_takeScreenshot_begin env w : Calm w (takeScreenshot_begin env w).1.
Proof.
  unfold takeScreenshot_begin. simpl.
  split; [apply Steady_same_timing; done|]. split; [done|].
  unfold storage_calls. simpl. rewrite !List.filter_app. simpl.
  rewrite !app_nil_r. reflexivity.
Qed.

(** *** The statistics update *)

Lemma Steady_bind {A B} (m : Async A) (k : A -> Async B) :
  Keeps Steady m -> (forall a, Keeps Steady (k a)) -> Keeps Steady (bind m k).
Proof. apply Keeps_bind. exact Steady_trans. Qed.

Lemma Steady_of_Calm {A} (m : Async A) : Keeps Calm m -> Keeps Steady m.
Proof. intros H w. apply H. Qed.

Lemma updateStats_storage env w :
  storage (rt (updateStats env w).1) =
  if stats_written env
  then storage_merge (stats_items env w) (storage (rt w))
  else storage (rt w).
Proof.
  unfold updateStats, stats_written, try_catch, bind, call, storage_set, console_error, effect.
  destruct (storageGet env), (storageSet env); reflexivity.
Qed.

Lemma Steady_updateStats env : Keeps Steady (updateStats env).
Proof.
  intros w.
  unfold updateStats, try_catch, bind, call, storage_set, console_error, effect.
  destruct (storageGet env), (storageSet env); simpl;
    apply Steady_same_timing; done.
Qed.

Lemma totalCount_number (w : World) (n : Z) :
  storage (rt w) !! "totalScreenshots" = Some (VNum n) -> totalCount w = n.
Proof.
  intros H. unfold totalCount. rewrite H. simpl. unfold truthy_num.
  destruct (Z.eqb_spec n 0) as [->|]; reflexivity.
Qed.

Lemma totalCount_absent (w : World) :
  storage (rt w) !! "totalScreenshots" = None -> totalCount w = 0.
Proof. intros H. unfold totalCount. rewrite H. reflexivity. Qed.

(** Integers of magnitude below 2^53 are doubles. *)
Lemma to_double_exact (m : Z) : - MAX_COUNT < m < MAX_COUNT -> to_double m = m.
Proof.
  intros H. unfold to_double.
  destruct (Z.leb_spec (Z.log2 (Z.abs m) - 52) 0) as [_|Hl]; [reflexivity|].
  exfalso.
  assert (Z.abs m < 2 ^ 53) as Ha
    by (unfold MAX_COUNT in H; change (2 ^ 53) with 9007199254740992; lia).
  destruct (Z.eq_dec (Z.abs m) 0) as [E|E].
  - rewrite E in Hl. simpl in Hl. lia.
  - apply Z.log2_lt_pow2 in Ha; lia.
Qed.

(** Up to 2^53 adding one is exact; 2^53 + 1 lies half way between the
    doubles 2^53 and 2^53 + 2 and is rounded to 2^53, whose significand is
    even. *)
Lemma plus_one_capped (n : Z) :
  - MAX_COUNT <= n <= MAX_COUNT -> to_double (n + 1) = Z.min (n + 1) MAX_COUNT.
Proof.
  intros H.
  destruct (Z.eq_dec n MAX_COUNT) as [->|Hn]; [vm_compute; reflexivity|].
  destruct (Z.eq_dec (n + 1) MAX_COUNT) as [E|Hn1]; [rewrite E; vm_compute; reflexivity|].
  rewrite to_double_exact by lia. lia.
Qed.

(** On a numeric counter, [(result.totalScreenshots || 0) + 1] is the
    double nearest to the displayed count plus one. *)
Lemma next_count (w : World) :
  counter_is_number w = true ->
  js_plus_one (js_or (storage (rt w) !! "totalScreenshots") (VNum 0))
  = VNum (to_double (totalCount w + 1)).
Proof.
  unfold counter_is_number. intros H.
  destruct (storage (rt w) !! "totalScreenshots") as [[b|n|s]|] eqn:E; try discriminate.
  - rewrite (totalCount_number w n E). simpl. unfold truthy_num.
    destruct (Z.eqb_spec n 0) as [->|]; reflexivity.
  - rewrite (totalCount_absent w E). reflexivity.
Qed.

Lemma updateStats_count env w :
  counter_is_number w = true ->
  counter_is_number (updateStats env w).1 = true /\
  totalCount (updateStats env w).1 =
    if stats_written env then to_double (totalCount w + 1) else totalCount w.
Proof.
  intros Hok. pose proof (updateStats_storage env w) as Hs.
  destruct (stats_written env).
  - unfold stats_items in Hs. rewrite (next_count w Hok) in Hs. simpl in Hs.
    assert (storage (rt (updateStats env w).1) !! "totalScreenshots"
            = Some (VNum (to_double (totalCount w + 1)))) as Hl
      by (rewrite Hs; apply lookup_insert_eq).
    split.
    + unfold counter_is_number. rewrite Hl. reflexivity.
    + apply totalCount_number. exact Hl.
  - split.
    + unfold counter_is_number in *. rewrite Hs. exact Hok.
    + unfold totalCount. rewrite Hs. reflexivity.
Qed.

(** The counter is in range when it is a number and the displayed count
    is in range. *)
Lemma in_range_iff (w : World) :
  counter_in_range w = true <->
  counter_is_number w = true /\ - MAX_COUNT <= totalCount w <= MAX_COUNT.
Proof.
  unfold counter_in_range, counter_is_number, totalCount.
  destruct (storage (rt w) !! "totalScreenshots") as [[b|n|s]|]; simpl.
  - split; [discriminate | intros [? _]; discriminate].
  - unfold truthy_num. destruct (Z.eqb_spec n 0) as [->|Hn]; simpl.
    + split; [intros _; split; [reflexivity | unfold MAX_COUNT; lia] | reflexivity].
    + rewrite andb_true_iff, Z.leb_le, Z.leb_le. tauto.
  - split; [discriminate | intros [? _]; discriminate].
  - split; [intros _; split; [reflexivity | unfold MAX_COUNT; lia] | reflexivity].
Qed.

(** *** One cycle *)

Lemma try_bind_returned {A B} (m : Async A) (k : A -> Async B) h w w2 a :
  m w = (w2, Returned a) -> try_catch (bind m k) h w = try_catch (k a) h w2.
Proof. intros H. unfold try_catch, bind. rewrite H. reflexivity. Qed.

Lemma try_bind_thrown {A B} (m : Async A) (k : A -> Async B) h w w2 e :
  m w = (w2, Thrown e) -> try_catch (bind m k) h w = h e w2.
Proof. intros H. unfold try_catch, bind. rewrite H. reflexivity. Qed.

Lemma resume_cases env url w1 :
  match captureAndSave env url w1 with
  | (w2, Returned _) =>
      (takeScreenshot_resume env url w1).1 =
      (console_log "Screenshot process completed successfully" (updateStats env w2).1).1
  | (w2, Thrown e) =>
      (takeScreenshot_resume env url w1).1 =
      (console_error "Error during screenshot process:" w2).1
  | (w2, Hung) => False
  end.
Proof.
  pose proof (Settles_captureAndSave env url w1) as Hs.
  unfold takeScreenshot_resume.
  destruct (captureAndSave env url w1) as [w2 [a|e|]] eqn:E; simpl in *.
  - rewrite (try_bind_returned _ _ _ _ _ _ E).
    destruct (updateStats_returns env w2) as [[] Hr].
    destruct (updateStats env w2) as [w3 o3] eqn:E3. simpl in Hr. subst o3.
    rewrite (try_bind_returned _ _ _ _ _ _ E3). reflexivity.
  - rewrite (try_bind_thrown _ _ _ _ _ _ E). reflexivity.
  - apply Hs. reflexivity.
Qed.

Lemma Calm_storage_facts (w w' : World) :
  Calm w w' ->
  counter_is_number w' = counter_is_number w /\ totalCount w' = totalCount w.
Proof.
  intros (_ & Hs & _). unfold counter_is_number, totalCount. rewrite Hs. done.
Qed.

Lemma log_storage_facts (e : Effect) (w : World) :
  counter_is_number (effect e w).1 = counter_is_number w /\
  totalCount (effect e w).1 = totalCount w /\
  storage (rt (effect e w).1) = storage (rt w).
Proof. done. Qed.

(** A cycle that fails before the statistics update does not touch the
    store; one that gets there adds one to the count exactly when both
    storage calls succeed. *)
Lemma resume_count env url w1 :
  counter_is_number w1 = true ->
  let w' := (takeScreenshot_resume env url w1).1 in
  counter_is_number w' = true /\
  match (captureAndSave env url w1).2 with
  | Returned _ => totalCount w' =
                  if stats_written env then to_double (totalCount w1 + 1) else totalCount w1
  | Thrown _ => totalCount w' = totalCount w1 /\
                storage (rt w') = storage (rt w1) /\
                storage_calls w' = storage_calls w1
  | Hung => False
  end.
Proof.
  intros Hok w'. subst w'.
  pose proof (resume_cases env url w1) as Hc.
  pose proof (Calm_captureAndSave env url w1) as HC.
  destruct (captureAndSave env url w1) as [w2 [a|e|]]; simpl in *; try done.
  - rewrite Hc. destruct (Calm_storage_facts _ _ HC) as [Hn Ht].
    rewrite Hok in Hn.
    destruct (updateStats_count env w2 Hn) as [Hn' Ht'].
    split; [exact Hn' | rewrite <- Ht; exact Ht'].
  - rewrite Hc. destruct (Calm_storage_facts _ _ HC) as [Hn Ht].
    destruct HC as (_ & Hs & Hcalls).
    split; [rewrite <- Hok; exact Hn|]. split; [exact Ht|]. split; [exact Hs|].
    unfold storage_calls in *. simpl. rewrite List.filter_app. simpl.
    rewrite app_nil_r. exact Hcalls.
Qed.

Lemma Steady_takeScreenshot_resume env url : Keeps Steady (takeScreenshot_resume env url).
Proof.
  intros w1. pose proof (resume_cases env url w1) as Hc.
  pose proof (Calm_captureAndSave env url w1) as [HS _].
  destruct (captureAndSave env url w1) as [w2 [a|e|]]; simpl in *; try done.
  - rewrite Hc. eapply Steady_trans; [exact HS|].
    eapply Steady_trans; [apply Steady_updateStats|].
    apply Steady_same_timing; done.
  - rewrite Hc. eapply Steady_trans; [exact HS|].
    apply Steady_same_timing; done.
Qed.

Lemma Steady_takeScreenshot env : Keeps Steady (takeScreenshot env).
Proof.
  intros w. unfold takeScreenshot.
  pose proof (Calm_takeScreenshot_begin env w) as [HS _].
  destruct (takeScreenshot_begin env w) as [w1 url]. simpl in HS.
  eapply Steady_trans; [exact HS | apply Steady_takeScreenshot_resume].
Qed.

(** *** Starting and stopping *)

Lemma start_running env w :
  isRunning w = true ->
  startAutomatedScreenshots env w =
  (with_rt (emit (ConsoleLog "Screenshot process already running") (rt w)) w, None).
Proof. intros H. unfold startAutomatedScreenshots. rewrite H. reflexivity. Qed.

Lemma start_stopped env w :
  isRunning w = false ->
  let r := startAutomatedScreenshots env w in
  r.2 = Some (Select.getRandomUrl (random env)) /\
  isRunning r.1 = true /\
  intervalId r.1 = Some (Z.pos (nextHandle (rt w))) /\
  intervals (rt r.1) = <[Z.pos (nextHandle (rt w)) := SCREENSHOT_INTERVAL]> (intervals (rt w)) /\
  storage (rt r.1) = match controlSet env with
                     | Ok _ => storage_merge (start_items env) (storage (rt w))
                     | Err _ => storage (rt w)
                     end /\
  timers (rt r.1) = timers (rt w) /\ onUpdated (rt r.1) = onUpdated (rt w) /\
  nextHandle (rt r.1) = Pos.succ (nextHandle (rt w)) /\
  nextClosure (rt r.1) = nextClosure (rt w).
Proof.
  intros H. unfold startAutomatedScreenshots. rewrite H.
  unfold storage_set. destruct (controlSet env); simpl; done.
Qed.

Lemma start_items_written env (st : gmap string JsVal) :
  storage_merge (start_items env) st !! "totalScreenshots" = Some (VNum 0) /\
  storage_merge (start_items env) st !! "isRunning" = Some (VBool true) /\
  storage_merge (start_items env) st !! "lastRun"
    = Some (VStr (toISOString (controlDate env))) /\
  (forall k, k <> "totalScreenshots" -> k <> "isRunning" -> k <> "lastRun" ->
             storage_merge (start_items env) st !! k = st !! k).
Proof.
  unfold storage_merge, start_items. simpl. repeat split.
  - rewrite !lookup_insert_ne by done. apply lookup_insert_eq.
  - apply lookup_insert_eq.
  - rewrite lookup_insert_ne by done. apply lookup_insert_eq.
  - intros k H1 H2 H3. rewrite !lookup_insert_ne by done. reflexivity.
Qed.

Lemma stop_stopped env w : isRunning w = false -> stopAutomatedScreenshots env w = w.
Proof. intros H. unfold stopAutomatedScreenshots. rewrite H. reflexivity. Qed.

Lemma stop_running env w h :
  isRunning w = true -> intervalId w = Some h -> h <> 0 ->
  let w' := stopAutomatedScreenshots env w in
  isRunning w' = false /\ intervalId w' = None /\
  intervals (rt w') = delete h (intervals (rt w)) /\
  storage (rt w') = match controlSet env with
                    | Ok _ => <["isRunning" := VBool false]> (storage (rt w))
                    | Err _ => storage (rt w)
                    end /\
  timers (rt w') = timers (rt w) /\ onUpdated (rt w') = onUpdated (rt w) /\
  nextHandle (rt w') = nextHandle (rt w) /\ nextClosure (rt w') = nextClosure (rt w).
Proof.
  intros H Hi Hh. unfold stopAutomatedScreenshots. rewrite H. simpl. rewrite Hi.
  unfold truthy_num. destruct (Z.eqb_spec h 0) as [->|_]; [done|].
  unfold storage_set. destruct (controlSet env); simpl; done.
Qed.

(** *** The schedule invariant *)

Lemma good_Steady w w' : good w -> Steady w w' -> good w'.
Proof.
  intros [Hs (Hf & Ht & Hl)] (H1 & H2 & H3 & H4).
  destruct (H4 Hf) as (Hf' & Ht' & Hl').
  split.
  - unfold scheduled in *. rewrite H1, H2, H3. exact Hs.
  - split; [exact Hf'|]. split; congruence.
Qed.

Lemma good_initial st : good (initial st).
Proof.
  split; [done|]. split; [|done]. split.
  - intros p _. apply lookup_empty.
  - intros n _. apply not_elem_of_empty.
Qed.

Lemma good_log (e : Effect) w : good w -> good (with_rt (emit e (rt w)) w).
Proof. intros H. apply (good_Steady w); [exact H|]. apply Steady_same_timing; done. Qed.

Lemma good_start env w : good w -> good (startAutomatedScreenshots env w).1.
Proof.
  intros Hg. destruct (isRunning w) eqn:Hr.
  - rewrite (start_running env w Hr). apply good_log. exact Hg.
  - pose proof (start_stopped env w Hr) as (_ & H1 & H2 & H3 & _ & H5 & H6 & H7 & H8).
    destruct Hg as [Hs (Hf & Ht & Hl)]. unfold scheduled in Hs. rewrite Hr in Hs.
    destruct Hs as [_ Hiv].
    split.
    + unfold scheduled. rewrite H1. exists (Z.pos (nextHandle (rt w))).
      split; [exact H2|]. split; [done|]. rewrite H3, Hiv. apply insert_empty.
    + split; [|split; congruence]. destruct Hf as [Hft Hfl]. split.
      * intros p Hp. rewrite H5. apply Hft. rewrite H7 in Hp. lia.
      * intros n Hn. rewrite H6. apply Hfl. rewrite H8 in Hn. exact Hn.
Qed.

Lemma good_stop env w : good w -> good (stopAutomatedScreenshots env w).
Proof.
  intros Hg. destruct (isRunning w) eqn:Hr.
  - pose proof Hg as [Hs (Hf & Ht & Hl)]. unfold scheduled in Hs. rewrite Hr in Hs.
    destruct Hs as (h & Hi & Hh & Hiv).
    pose proof (stop_running env w h Hr Hi Hh) as (H1 & H2 & H3 & _ & H5 & H6 & H7 & H8).
    split.
    + unfold scheduled. rewrite H1. split; [exact H2|].
      rewrite H3, Hiv. apply delete_singleton_eq.
    + split; [|split; congruence]. destruct Hf as [Hft Hfl]. split.
      * intros p Hp. rewrite H5. apply Hft. rewrite H7 in Hp. exact Hp.
      * intros n Hn. rewrite H6. apply Hfl. rewrite H8 in Hn. exact Hn.
  - rewrite (stop_stopped env w Hr). exact Hg.
Qed.

Lemma good_resume_started env started w : good w -> good (resume_started env started w).
Proof.
  intros Hg. destruct started as [url|]; [|exact Hg]. simpl.
  apply (good_Steady w); [exact Hg | apply Steady_takeScreenshot_resume].
Qed.

Lemma good_takeScreenshot env w : good w -> good (takeScreenshot env w).1.
Proof. intros Hg. apply (good_Steady w); [exact Hg | apply Steady_takeScreenshot]. Qed.

Lemma onMessage_start env w :
  onMessage "start" env w =
  (resume_started env (startAutomatedScreenshots env w).2 (startAutomatedScreenshots env w).1,
   Some SuccessReply).
Proof. unfold onMessage. simpl. destruct (startAutomatedScreenshots env w). reflexivity. Qed.


Lemma good_onMessage action env w : good w -> good (onMessage action env w).1.
Proof.
  intros Hg. unfold onMessage.
  destruct (String.eqb action "getStatus").
  { destruct (storageGet env); simpl; apply good_log; exact Hg. }
  destruct (String.eqb action "start").
  { pose proof (good_start env w Hg) as Hs.
    destruct (startAutomatedScreenshots env w) as [w1 started]. simpl in *.
    apply good_resume_started. exact Hs. }
  destruct (String.eqb action "stop").
  { simpl. apply good_stop. exact Hg. }
  destruct (String.eqb action "takeScreenshotNow").
  { pose proof (good_takeScreenshot env w Hg) as Ht.
    destruct (takeScreenshot env w) as [w1 [a|e|]]; exact Ht. }
  exact Hg.
Qed.

Lemma good_step i env w : good w -> good (step i env w).
Proof.
  intros Hg. destruct i as [| | |action|h]; simpl.
  - pose proof (good_start env _ (good_log
      (ConsoleLog "Extension starting up - initializing screenshot process") w Hg)) as Hs.
    destruct (startAutomatedScreenshots env _) as [w1 started]. simpl in *.
    apply good_resume_started. exact Hs.
  - pose proof (good_start env _ (good_log
      (ConsoleLog "Extension installed - initializing screenshot process") w Hg)) as Hs.
    destruct (startAutomatedScreenshots env _) as [w1 started]. simpl in *.
    apply good_resume_started. exact Hs.
  - apply good_stop. apply good_log. exact Hg.
  - apply good_onMessage. exact Hg.
  - destruct (intervals (rt w) !! h); [apply good_takeScreenshot|]; exact Hg.
Qed.

Lemma good_run inputs w : good w -> good (run inputs w).
Proof.
  revert w. induction inputs as [|[i env] inputs IH]; intros w Hg; simpl.
  - exact Hg.
  - apply IH. apply good_step. exact Hg.
Qed.

Lemma good_reachable st inputs : good (run inputs (initial st)).
Proof. apply good_run, good_initial. Qed.

(** *** The counter along a run *)

Lemma same_counter (w w' : World) :
  storage (rt w') !! "totalScreenshots" = storage (rt w) !! "totalScreenshots" ->
  counter_is_number w' = counter_is_number w /\ totalCount w' = totalCount w.
Proof. intros H. unfold counter_is_number, totalCount. rewrite H. done. Qed.

Lemma takeScreenshot_count env w :
  counter_is_number w = true ->
  let w' := (takeScreenshot env w).1 in
  counter_is_number w' = true /\
  match (before_stats env w).2 with
  | Returned _ => totalCount w' =
                  if stats_written env then to_double (totalCount w + 1) else totalCount w
  | Thrown _ => totalCount w' = totalCount w /\
                storage (rt w') = storage (rt w) /\
                storage_calls w' = storage_calls w
  | Hung => False
  end.
Proof.
  intros Hok. unfold takeScreenshot, before_stats.
  pose proof (Calm_takeScreenshot_begin env w) as HC.
  destruct (takeScreenshot_begin env w) as [w1 url]. simpl in HC.
  destruct (Calm_storage_facts _ _ HC) as [Hn Ht]. destruct HC as (_ & Hs & Hcalls).
  rewrite Hok in Hn. pose proof (resume_count env url w1 Hn) as [Hn' Hcase].
  simpl. split; [exact Hn'|].
  destruct ((captureAndSave env url w1).2); [| |exact Hcase].
  - rewrite <- Ht. exact Hcase.
  - destruct Hcase as (H1 & H2 & H3). split; [congruence|]. split; congruence.
Qed.

(** A cycle adds one to a count below 2^53 when it gets through and its
    statistics update is written, and nothing otherwise. *)
Lemma takeScreenshot_bounds env w :
  counter_in_range w = true ->
  counter_in_range (takeScreenshot env w).1 = true /\
  totalCount w <= totalCount (takeScreenshot env w).1 <= totalCount w + 1.
Proof.
  intros Hin. apply in_range_iff in Hin as [Hok Hb].
  destruct (takeScreenshot_count env w Hok) as [Hn Hcase].
  rewrite in_range_iff.
  assert (totalCount w <= totalCount (takeScreenshot env w).1 <= totalCount w + 1 /\
          totalCount (takeScreenshot env w).1 <= MAX_COUNT) as [H1 H2].
  { destruct ((before_stats env w).2); [| |done].
    - rewrite Hcase. destruct (stats_written env); [|lia].
      rewrite (plus_one_capped _ Hb). lia.
    - destruct Hcase as [-> _]. lia. }
  split; [split; [exact Hn | lia] | exact H1].
Qed.

Lemma resume_number env url w :
  counter_is_number w = true ->
  counter_is_number (takeScreenshot_resume env url w).1 = true.
Proof. intros Hok. apply (resume_count env url w Hok). Qed.

Lemma takeScreenshot_number env w :
  counter_is_number w = true -> counter_is_number (takeScreenshot env w).1 = true.
Proof. intros Hok. apply (takeScreenshot_count env w Hok). Qed.

Lemma resume_bounds env url w :
  counter_in_range w = true ->
  counter_in_range (takeScreenshot_resume env url w).1 = true /\
  totalCount w <= totalCount (takeScreenshot_resume env url w).1 <= totalCount w + 1.
Proof.
  intros Hin. apply in_range_iff in Hin as [Hok Hb].
  destruct (resume_count env url w Hok) as [Hn Hcase].
  rewrite in_range_iff.
  assert (totalCount w <= totalCount (takeScreenshot_resume env url w).1
            <= totalCount w + 1 /\
          totalCount (takeScreenshot_resume env url w).1 <= MAX_COUNT) as [H1 H2].
  { destruct ((captureAndSave env url w).2); [| |done].
    - rewrite Hcase. destruct (stats_written env); [|lia].
      rewrite (plus_one_capped _ Hb). lia.
    - destruct Hcase as [-> _]. lia. }
  split; [split; [exact Hn | lia] | exact H1].
Qed.

Lemma stop_counter env w :
  storage (rt (stopAutomatedScreenshots env w)) !! "totalScreenshots"
  = storage (rt w) !! "totalScreenshots".
Proof.
  unfold stopAutomatedScreenshots. destruct (isRunning w); [|reflexivity]. simpl.
  unfold storage_set.
  destruct (intervalId w) as [h|]; [destruct (truthy_num h)|];
    destruct (controlSet env); simpl; try reflexivity;
    rewrite lookup_insert_ne; done.
Qed.

(** A start of a stopped worker leaves zero in the counter, or the old
    value when the write fails. *)
Lemma start_counter env w :
  counter_is_number w = true ->
  counter_is_number (startAutomatedScreenshots env w).1 = true.
Proof.
  intros Hok. destruct (isRunning w) eqn:Hr.
  - rewrite (start_running env w Hr). exact Hok.
  - pose proof (start_stopped env w Hr) as (_ & _ & _ & _ & Hs & _).
    unfold counter_is_number in *. rewrite Hs.
    destruct (controlSet env); [|exact Hok].
    destruct (start_items_written env (storage (rt w))) as [-> _]. reflexivity.
Qed.

Lemma counter_resume_started env started w :
  counter_is_number w = true -> counter_is_number (resume_started env started w) = true.
Proof.
  intros Hok. destruct started as [url|]; [|exact Hok]. apply resume_number. exact Hok.
Qed.

Lemma counter_onMessage action env w :
  counter_is_number w = true -> counter_is_number (onMessage action env w).1 = true.
Proof.
  intros Hok. unfold onMessage.
  destruct (String.eqb action "getStatus").
  { destruct (storageGet env); exact Hok. }
  destruct (String.eqb action "start").
  { pose proof (start_counter env w Hok) as Hs.
    destruct (startAutomatedScreenshots env w) as [w1 started]. simpl in *.
    apply counter_resume_started. exact Hs. }
  destruct (String.eqb action "stop").
  { simpl. destruct (same_counter w _ (stop_counter env w)) as [-> _]. exact Hok. }
  destruct (String.eqb action "takeScreenshotNow").
  { pose proof (takeScreenshot_number env w Hok) as Ht.
    destruct (takeScreenshot env w) as [w1 [a|e|]]; exact Ht. }
  exact Hok.
Qed.

Lemma counter_step i env w :
  counter_is_number w = true -> counter_is_number (step i env w) = true.
Proof.
  intros Hok. destruct i as [| | |action|h]; simpl.
  - match goal with |- context [startAutomatedScreenshots env ?w0] =>
      pose proof (start_counter env w0 Hok) as Hs;
      destruct (startAutomatedScreenshots env w0) as [w1 started] end.
    apply counter_resume_started. exact Hs.
  - match goal with |- context [startAutomatedScreenshots env ?w0] =>
      pose proof (start_counter env w0 Hok) as Hs;
      destruct (startAutomatedScreenshots env w0) as [w1 started] end.
    apply counter_resume_started. exact Hs.
  - match goal with |- context [stopAutomatedScreenshots env ?w0] =>
      destruct (same_counter w0 _ (stop_counter env w0)) as [-> _] end.
    exact Hok.
  - apply counter_onMessage. exact Hok.
  - destruct (intervals (rt w) !! h); [apply takeScreenshot_number|]; exact Hok.
Qed.

Lemma counter_run inputs w :
  counter_is_number w = true -> counter_is_number (run inputs w) = true.
Proof.
  revert w. induction inputs as [|[i env] inputs IH]; intros w Hok; simpl.
  - exact Hok.
  - apply IH. apply counter_step. exact Hok.
Qed.

(** The counter stays in range. *)
Lemma same_range (w w' : World) :
  storage (rt w') !! "totalScreenshots" = storage (rt w) !! "totalScreenshots" ->
  counter_in_range w' = counter_in_range w.
Proof. intros H. unfold counter_in_range. rewrite H. reflexivity. Qed.

Lemma range_start env w :
  counter_in_range w = true ->
  counter_in_range (startAutomatedScreenshots env w).1 = true.
Proof.
  intros Hok. destruct (isRunning w) eqn:Hr.
  - rewrite (start_running env w Hr). exact Hok.
  - pose proof (start_stopped env w Hr) as (_ & _ & _ & _ & Hs & _).
    unfold counter_in_range in *. rewrite Hs.
    destruct (controlSet env); [|exact Hok].
    destruct (start_items_written env (storage (rt w))) as [-> _]. reflexivity.
Qed.

Lemma range_resume_started env started w :
  counter_in_range w = true -> counter_in_range (resume_started env started w) = true.
Proof.
  intros Hok. destruct started as [url|]; [|exact Hok]. apply resume_bounds. exact Hok.
Qed.

Lemma range_onMessage action env w :
  counter_in_range w = true -> counter_in_range (onMessage action env w).1 = true.
Proof.
  intros Hok. unfold onMessage.
  destruct (String.eqb action "getStatus").
  { destruct (storageGet env); exact Hok. }
  destruct (String.eqb action "start").
  { pose proof (range_start env w Hok) as Hs.
    destruct (startAutomatedScreenshots env w) as [w1 started]. simpl in *.
    apply range_resume_started. exact Hs. }
  destruct (String.eqb action "stop").
  { simpl. rewrite (same_range w _ (stop_counter env w)). exact Hok. }
  destruct (String.eqb action "takeScreenshotNow").
  { pose proof (takeScreenshot_bounds env w Hok) as [Ht _].
    destruct (takeScreenshot env w) as [w1 [a|e|]]; exact Ht. }
  exact Hok.
Qed.

Lemma range_step i env w :
  counter_in_range w = true -> counter_in_range (step i env w) = true.
Proof.
  intros Hok. destruct i as [| | |action|h]; simpl.
  - match goal with |- context [startAutomatedScreenshots env ?w0] =>
      pose proof (range_start env w0 Hok) as Hs;
      destruct (startAutomatedScreenshots env w0) as [w1 started] end.
    apply range_resume_started. exact Hs.
  - match goal with |- context [startAutomatedScreenshots env ?w0] =>
      pose proof (range_start env w0 Hok) as Hs;
      destruct (startAutomatedScreenshots env w0) as [w1 started] end.
    apply range_resume_started. exact Hs.
  - match goal with |- context [stopAutomatedScreenshots env ?w0] =>
      rewrite (same_range w0 _ (stop_counter env w0)) end.
    exact Hok.
  - apply range_onMessage. exact Hok.
  - destruct (intervals (rt w) !! h); [apply takeScreenshot_bounds|]; exact Hok.
Qed.

Lemma range_run inputs w :
  counter_in_range w = true -> counter_in_range (run inputs w) = true.
Proof.
  revert w. induction inputs as [|[i env] inputs IH]; intros w Hok; simpl.
  - exact Hok.
  - apply IH. apply range_step. exact Hok.
Qed.

(** While the flag is set no event makes the count go down. *)
Lemma mono_onMessage action env w :
  counter_in_range w = true -> isRunning w = true ->
  totalCount w <= totalCount (onMessage action env w).1.
Proof.
  intros Hok Hr. unfold onMessage.
  destruct (String.eqb action "getStatus").
  { destruct (storageGet env); simpl; unfold totalCount; simpl; lia. }
  destruct (String.eqb action "start").
  { rewrite (start_running env w Hr). simpl. unfold totalCount. simpl. lia. }
  destruct (String.eqb action "stop").
  { simpl. destruct (same_counter w _ (stop_counter env w)) as [_ ->]. lia. }
  destruct (String.eqb action "takeScreenshotNow").
  { pose proof (takeScreenshot_bounds env w Hok) as [_ Ht].
    destruct (takeScreenshot env w) as [w1 [a|e|]]; simpl in *; lia. }
  simpl. lia.
Qed.

Lemma mono_step i env w :
  counter_in_range w = true -> isRunning w = true ->
  totalCount w <= totalCount (step i env w).
Proof.
  intros Hok Hr. destruct i as [| | |action|h]; simpl.
  - rewrite start_running; [|exact Hr]. simpl. unfold totalCount. simpl. lia.
  - rewrite start_running; [|exact Hr]. simpl. unfold totalCount. simpl. lia.
  - match goal with |- context [stopAutomatedScreenshots env ?w0] =>
      destruct (same_counter w0 _ (stop_counter env w0)) as [_ ->] end.
    unfold totalCount. simpl. lia.
  - apply mono_onMessage; assumption.
  - destruct (intervals (rt w) !! h); [|lia].
    apply (takeScreenshot_bounds env w Hok).
Qed.

(** *** The load wait inside the cycle *)

Lemma bind_returned {A B} (m : Async A) (k : A -> Async B) w w2 a :
  m w = (w2, Returned a) -> bind m k w = k a w2.
Proof. intros H. unfold bind. rewrite H. reflexivity. Qed.

(** Once a tab is there, the capture step runs from the world the load
    wait leaves, whatever happened during the wait. *)
Lemma captureAndSave_after_wait env url w w2 tab :
  createOrUpdateTab_resume env url w = (w2, Returned tab) ->
  captureAndSave env url w =
  bind (captureScreenshot env tab) (fun d => saveScreenshot env d url)
       (await_waitForPageLoad env tab (set_currentTabId tab w2).1).1.
Proof.
  intros H. unfold captureAndSave. rewrite (bind_returned _ _ _ _ _ H).
  rewrite (bind_returned _ _ w2 (set_currentTabId tab w2).1 tt) by reflexivity.
  pose proof (await_waitForPageLoad_returns env tab (set_currentTabId tab w2).1) as Hr.
  destruct (await_waitForPageLoad env tab (set_currentTabId tab w2).1) as [w3 o] eqn:E.
  simpl in Hr. subst o. rewrite (bind_returned _ _ _ _ _ E). reflexivity.
Qed.

(** C1. Whenever the promise of [waitForPageLoad] is fulfilled, by
    whichever side of the race, the timer of the call is no longer pending
    and its listener is no longer registered; whatever the browser does
    afterwards, no timeout callback and no listener of that call runs any
    more and both stay cancelled; in a runtime that hands out new handles
    and closures the pending timers and registered listeners are exactly
    those of before the call; and after any sequence of events handled by
    the worker no timer is pending and no listener is registered. *)
Theorem load_wait_race_cancels
        (rt0 : Runtime) (tab : Z) (evs later : list LoadWait.Event)
        (st : gmap string JsVal) (inputs : list (Input * Env)) :
  let h := Z.pos (nextHandle rt0) in
  let l := nextClosure rt0 in
  let s := LoadWait.run evs (LoadWait.waitForPageLoad tab rt0) in
  let s' := LoadWait.run later s in
  let w := run inputs (initial st) in
  LoadWait.promise s.1 = LoadWait.Fulfilled ->
  (LoadWait.timeoutId s.1 = Some h /\ timers s.2 !! h = None) /\
  (LoadWait.loadingListener s.1 = Some l /\ l ∉ onUpdated s.2) /\
  (LoadWait.notifications s'.2 = LoadWait.notifications s.2 /\
   timers s'.2 !! h = None /\ l ∉ onUpdated s'.2) /\
  (fresh rt0 -> timers s.2 = timers rt0 /\ onUpdated s.2 = onUpdated rt0) /\
  (timers (rt w) = ∅ /\ onUpdated (rt w) = ∅).
Proof.
  intros h l s s' w Hp.
  pose proof (LoadWaitFacts.Inv_reachable rt0 tab evs) as HI. fold s in HI.
  pose proof HI as [HF _].
  destruct (LoadWait.inv_fulfilled _ _ _ HF Hp) as (Hnone & Hnot & _).
  split; [split; [apply (LoadWait.inv_timeoutId _ _ _ HF) | exact Hnone]|].
  split; [split; [apply (LoadWait.inv_listener _ _ _ HF) | exact Hnot]|].
  split; [|split].
  - destruct (LoadWaitFacts.quiet_run rt0 tab later s HI Hp) as [Hp' Hn'].
    pose proof (LoadWaitFacts.Inv_run rt0 tab later s HI) as [HF' _]. fold s' in HF', Hp', Hn'.
    destruct (LoadWait.inv_fulfilled _ _ _ HF' Hp') as (Hnone' & Hnot' & _).
    split; [exact Hn' | split; assumption].
  - intros [Hft Hfl]. split.
    + apply (LoadWaitFacts.settled_restores_timers rt0 tab s HI Hp). apply Hft. lia.
    + apply (LoadWaitFacts.settled_restores_listeners rt0 tab s HI Hp). apply Hfl. lia.
  - destruct (good_reachable st inputs) as [_ (_ & Ht & Hl)]. split; assumption.
Qed.

(** The three ways the race can end, on a tab that reports its load, on
    one that never does, and on one whose status query fails. *)
Lemma load_wait_race_cancels_witness :
  LoadWait.cancelled_after [LoadWait.TabUpdated 7 (Some complete)] /\
  LoadWait.cancelled_after [LoadWait.Elapse 15000] /\
  LoadWait.cancelled_after [LoadWait.TabsGetFulfilled complete] /\
  LoadWait.cancelled_after [LoadWait.TabsGetRejected].
Proof.
  assert (forall evs,
            LoadWait.promise
              (LoadWait.run evs (LoadWait.waitForPageLoad 7 LoadWait.empty_runtime)).1
            = LoadWait.Fulfilled -> LoadWait.cancelled_after evs) as Hw.
  { intros evs Hp. split; [exact Hp|].
    pose proof (load_wait_race_cancels LoadWait.empty_runtime 7 evs
                  [LoadWait.Elapse 20000; LoadWait.TabsGetFulfilled complete] ∅ [] Hp)
      as ((_ & Ht) & (_ & Hl) & _).
    split; [exact Ht | exact Hl]. }
  repeat split; apply Hw; vm_compute; reflexivity.
Defined.

(** C2. The promise of [waitForPageLoad] is never rejected; once the
    timeout period of 15000 ms has passed it is fulfilled, and the time at
    which it was fulfilled is at most 15000 ms after the call; the timeout
    callback, the listener (for the awaited tab reporting [complete]) and
    both branches of the status query all resolve it.  In the cycle the
    [await] therefore always returns normally, and the capture step runs
    next. *)
Theorem load_wait_always_resolves
        (rt0 : Runtime) (tab : Z) (evs : list LoadWait.Event)
        (env : Env) (url : option string) (w w2 : World) :
  let s := LoadWait.run evs (LoadWait.waitForPageLoad tab rt0) in
  PAGE_LOAD_TIMEOUT = 15000 /\
  LoadWait.promise s.1 <> LoadWait.Rejected /\
  (now rt0 + PAGE_LOAD_TIMEOUT <= now s.2 -> LoadWait.promise s.1 = LoadWait.Fulfilled) /\
  (LoadWait.promise s.1 = LoadWait.Fulfilled ->
   exists t, LoadWait.settledAt s.1 = Some t /\
             now rt0 <= t <= now rt0 + PAGE_LOAD_TIMEOUT) /\
  LoadWait.promise
    (LoadWait.dispatch (LoadWait.Elapse (Z.to_N PAGE_LOAD_TIMEOUT)) s).1
    = LoadWait.Fulfilled /\
  LoadWait.promise (LoadWait.dispatch (LoadWait.TabUpdated tab (Some complete)) s).1
    = LoadWait.Fulfilled /\
  (LoadWait.getPending s.1 = true ->
   LoadWait.promise (LoadWait.dispatch LoadWait.TabsGetRejected s).1
     = LoadWait.Fulfilled /\
   LoadWait.promise (LoadWait.dispatch (LoadWait.TabsGetFulfilled complete) s).1
     = LoadWait.Fulfilled) /\
  (await_waitForPageLoad env tab w).2 = Returned tt /\
  (createOrUpdateTab_resume env url w = (w2, Returned tab) ->
   captureAndSave env url w =
   bind (captureScreenshot env tab) (fun d => saveScreenshot env d url)
        (await_waitForPageLoad env tab (set_currentTabId tab w2).1).1).
Proof.
  intros s.
  pose proof (LoadWaitFacts.Inv_reachable rt0 tab evs) as HI. fold s in HI.
  pose proof HI as [HF _].
  split; [reflexivity|].
  split; [apply (LoadWait.inv_not_rejected _ _ _ HF)|].
  split; [apply (LoadWaitFacts.Inv_settled_by_deadline rt0 tab s HI)|].
  split.
  { intros Hp. destruct (LoadWait.inv_fulfilled _ _ _ HF Hp) as (_ & _ & t & Hs & Hb & _).
    exists t. split; [exact Hs | exact Hb]. }
  split; [apply (LoadWaitFacts.timeout_resolves rt0 tab s HI)|].
  split; [apply (LoadWaitFacts.load_complete_resolves rt0 tab s HI)|].
  split.
  { intros Hg. split.
    - apply (LoadWaitFacts.query_error_resolves rt0 tab s HI Hg).
    - apply (LoadWaitFacts.already_complete_resolves rt0 tab s HI Hg). }
  split; [apply await_waitForPageLoad_returns|].
  apply captureAndSave_after_wait.
Qed.

(** A tab that never reports its load: when the timeout period has
    passed the promise is fulfilled, at 15000 ms. *)
Lemma load_wait_always_resolves_witness :
  let s := LoadWait.run [LoadWait.TabUpdated 7 (Some loading); LoadWait.Elapse 15000]
                        (LoadWait.waitForPageLoad 7 LoadWait.empty_runtime) in
  now LoadWait.empty_runtime + PAGE_LOAD_TIMEOUT <= now s.2 /\
  LoadWait.promise s.1 = LoadWait.Fulfilled /\
  LoadWait.settledAt s.1 = Some 15000.
Proof.
  intros s.
  assert (now LoadWait.empty_runtime + PAGE_LOAD_TIMEOUT <= now s.2) as Hd
    by (vm_compute; discriminate).
  pose proof (load_wait_always_resolves LoadWait.empty_runtime 7
                [LoadWait.TabUpdated 7 (Some loading); LoadWait.Elapse 15000]
                fair_weather None (initial ∅) (initial ∅))
    as (_ & _ & Hf & _).
  split; [exact Hd|]. split; [exact (Hf Hd) | vm_compute; reflexivity].
Defined.

(** *** The log of cycles *)

Lemma Unmarked_refl w : Unmarked w w.
Proof. reflexivity. Qed.

Lemma Unmarked_trans a b c : Unmarked a b -> Unmarked b c -> Unmarked a c.
Proof. unfold Unmarked. congruence. Qed.

Lemma Unmarked_bind {A B} (m : Async A) (k : A -> Async B) :
  Keeps Unmarked m -> (forall a, Keeps Unmarked (k a)) -> Keeps Unmarked (bind m k).
Proof. apply Keeps_bind. exact Unmarked_trans. Qed.

Lemma Unmarked_try_catch {A} (body : Async A) (handler : string -> Async A) :
  Keeps Unmarked body -> (forall e, Keeps Unmarked (handler e)) ->
  Keeps Unmarked (try_catch body handler).
Proof. apply Keeps_try_catch. exact Unmarked_trans. Qed.

Lemma Unmarked_pure {A} (m : Async A) : (forall w, (m w).1 = w) -> Keeps Unmarked m.
Proof. intros H w. rewrite H. apply Unmarked_refl. Qed.

Lemma marks_emit (e : Effect) (w : World) :
  cycle_marks (with_rt (emit e (rt w)) w)
  = (cycle_marks w ++ if is_cycle_mark e then [e] else [])%list.
Proof.
  unfold cycle_marks. simpl. rewrite List.filter_app. simpl.
  destruct (is_cycle_mark e); reflexivity.
Qed.

Lemma Unmarked_effect (e : Effect) : is_cycle_mark e = false -> Keeps Unmarked (effect e).
Proof.
  intros H w. unfold Unmarked, effect. simpl. rewrite marks_emit, H. apply app_nil_r.
Qed.

Lemma Unmarked_call {A} (e : Effect) (r : Result A) :
  is_cycle_mark e = false -> Keeps Unmarked (call e r).
Proof. intros H w. exact (Unmarked_effect e H w). Qed.

Lemma Unmarked_sleep ms : Keeps Unmarked (sleep ms).
Proof.
  intros w. unfold Unmarked, cycle_marks, sleep. simpl.
  rewrite !List.filter_app. simpl. rewrite !app_nil_r. reflexivity.
Qed.

Lemma Unmarked_storage_set items r : Keeps Unmarked (storage_set items r).
Proof.
  intros w. unfold Unmarked, cycle_marks, storage_set.
  destruct r; simpl; rewrite List.filter_app; simpl; apply app_nil_r.
Qed.

(** No callback of the load wait writes a message of the cycle. *)
Lemma marks_dispatch (e : LoadWait.Event) (s : LoadWait.Call * Runtime) :
  List.filter is_cycle_mark (trace (LoadWait.dispatch e s).2)
  = List.filter is_cycle_mark (trace s.2).
Proof.
  destruct s as [c r].
  unfold LoadWait.dispatch, LoadWait.advance, LoadWait.onTimeout, LoadWait.onTabUpdated,
    LoadWait.onGetFulfilled, LoadWait.onGetRejected, LoadWait.cleanup,
    clearTimeout, removeListener.
  destruct e as [dt|t [[| |]|]|[| |]|]; simpl;
    repeat match goal with
           | |- context [match ?x with _ => _ end] => destruct x; simpl
           end;
    rewrite ?List.filter_app; simpl; rewrite ?app_nil_r; reflexivity.
Qed.

Lemma marks_run (evs : list LoadWait.Event) (s : LoadWait.Call * Runtime) :
  List.filter is_cycle_mark (trace (LoadWait.run evs s).2)
  = List.filter is_cycle_mark (trace s.2).
Proof.
  revert s. induction evs as [|e evs IH]; intros s; [reflexivity|].
  simpl. rewrite IH. apply marks_dispatch.
Qed.

Lemma Unmarked_await_waitForPageLoad env tab :
  Keeps Unmarked (await_waitForPageLoad env tab).
Proof.
  intros w. unfold Unmarked, cycle_marks, await_waitForPageLoad.
  destruct (deliver_run (loadEvents env ++ [LoadWait.Elapse (Z.to_N PAGE_LOAD_TIMEOUT)])
                        (LoadWait.waitForPageLoad tab (rt w))) as [k Hk].
  rewrite Hk. simpl.
  match goal with
  | |- context [LoadWait.settledAt ?c] => destruct (LoadWait.settledAt c)
  end; simpl; rewrite marks_run; unfold LoadWait.waitForPageLoad; simpl;
    rewrite !List.filter_app; simpl; rewrite !app_nil_r; reflexivity.
Qed.

Lemma Unmarked_createOrUpdateTab_resume env url :
  Keeps Unmarked (createOrUpdateTab_resume env url).
Proof.
  apply Unmarked_try_catch.
  - apply Unmarked_bind; [apply Unmarked_pure; done|]. intros [id|].
    + apply Unmarked_bind; [apply Unmarked_call; done | intros; apply Unmarked_pure; done].
    + apply Unmarked_call; done.
  - intros e.
    apply Unmarked_bind; [apply Unmarked_effect; done | intros; apply Unmarked_call; done].
Qed.

Lemma Unmarked_captureScreenshot env tab : Keeps Unmarked (captureScreenshot env tab).
Proof.
  apply Unmarked_try_catch.
  - apply Unmarked_bind; [apply Unmarked_call; done | intros _].
    apply Unmarked_bind; [apply Unmarked_sleep | intros _].
    apply Unmarked_bind; [apply Unmarked_call; done | intros d].
    apply Unmarked_bind; [apply Unmarked_effect; done | intros _; apply Unmarked_pure; done].
  - intros e.
    apply Unmarked_bind; [apply Unmarked_effect; done | intros; apply Unmarked_pure; done].
Qed.

Lemma Unmarked_saveScreenshot env d url : Keeps Unmarked (saveScreenshot env d url).
Proof.
  apply Unmarked_try_catch.
  - apply Unmarked_bind; [apply Unmarked_pure; done | intros hostname].
    apply Unmarked_bind; [apply Unmarked_call; done | intros _].
    apply Unmarked_bind; [apply Unmarked_call; done | intros o].
    apply Unmarked_bind; [apply Unmarked_call; done | intros _].
    apply Unmarked_effect. reflexivity.
  - intros e.
    apply Unmarked_bind; [apply Unmarked_effect; done | intros; apply Unmarked_pure; done].
Qed.

Lemma Unmarked_captureAndSave env url : Keeps Unmarked (captureAndSave env url).
Proof.
  apply Unmarked_bind; [apply Unmarked_createOrUpdateTab_resume | intros tab].
  apply Unmarked_bind; [intros w; reflexivity | intros _].
  apply Unmarked_bind; [apply Unmarked_await_waitForPageLoad | intros _].
  apply Unmarked_bind; [apply Unmarked_captureScreenshot | intros d].
  apply Unmarked_saveScreenshot.
Qed.

Lemma Unmarked_updateStats env : Keeps Unmarked (updateStats env).
Proof.
  apply Unmarked_try_catch.
  - apply Unmarked_bind; [apply Unmarked_call; done | intros _].
    intros w. apply Unmarked_storage_set.
  - intros e. apply Unmarked_effect; done.
Qed.

(** How the rest of a cycle ends: with the message of completion when the
    steps up to the save got through, with the error message otherwise.
    This message is the last thing the cycle does, and the only message of
    the cycle that the rest of it writes. *)
Lemma resume_marks env url w :
  let w' := (takeScreenshot_resume env url w).1 in
  let closing := match (captureAndSave env url w).2 with
                 | Returned _ => cycle_completed
                 | _ => cycle_failed
                 end in
  last (trace (rt w')) = Some closing /\
  cycle_marks w' = (cycle_marks w ++ [closing])%list.
Proof.
  intros w' closing. subst w' closing.
  pose proof (resume_cases env url w) as Hc.
  pose proof (Unmarked_captureAndSave env url w) as Hu.
  destruct (captureAndSave env url w) as [w2 [a|e|]]; simpl in *; [| |done].
  - rewrite Hc. split; [apply last_snoc|].
    unfold console_log, effect. simpl. rewrite marks_emit.
    rewrite (Unmarked_updateStats env w2), Hu. reflexivity.
  - rewrite Hc. split; [apply last_snoc|].
    unfold console_error, effect. simpl. rewrite marks_emit, Hu. reflexivity.
Qed.

Lemma takeScreenshot_marks env w :
  let w' := (takeScreenshot env w).1 in
  let closing := match (before_stats env w).2 with
                 | Returned _ => cycle_completed
                 | _ => cycle_failed
                 end in
  last (trace (rt w')) = Some closing /\
  cycle_marks w' = (cycle_marks w ++ [cycle_begun; closing])%list.
Proof.
  intros w' closing. subst w' closing. unfold takeScreenshot, before_stats.
  assert (cycle_marks (takeScreenshot_begin env w).1 = (cycle_marks w ++ [cycle_begun])%list)
    as Hb.
  { unfold takeScreenshot_begin, cycle_marks. simpl.
    rewrite !List.filter_app. simpl. rewrite !app_nil_r. reflexivity. }
  destruct (takeScreenshot_begin env w) as [w1 url]. simpl in Hb.
  destruct (resume_marks env url w1) as [Hl Hm].
  split; [exact Hl|]. rewrite Hm, Hb, <- app_assoc. reflexivity.
Qed.

(** *** Reporting *)

Lemma takeScreenshot_cases env w :
  match before_stats env w with
  | (w2, Returned _) =>
      (takeScreenshot env w).1 =
      (console_log "Screenshot process completed successfully" (updateStats env w2).1).1
  | (w2, Thrown e) =>
      (takeScreenshot env w).1 =
      (console_error "Error during screenshot process:" w2).1
  | (w2, Hung) => False
  end.
Proof.
  unfold before_stats, takeScreenshot.
  destruct (takeScreenshot_begin env w) as [w1 url]. apply resume_cases.
Qed.

Lemma updateStats_failure_logged env w :
  stats_written env = false ->
  last (trace (rt (updateStats env w).1)) = Some (ConsoleError "Error updating stats:").
Proof.
  unfold stats_written, updateStats, try_catch, bind, call, storage_set, console_error, effect.
  destruct (storageGet env), (storageSet env); simpl; intros H; try discriminate;
    apply last_snoc.
Qed.


Lemma mono_run inputs w :
  counter_in_range w = true -> running_throughout inputs w = true ->
  totalCount w <= totalCount (run inputs w).
Proof.
  revert w. induction inputs as [|[i env] inputs IH]; intros w Hok Hr; simpl in *.
  - lia.
  - apply andb_prop in Hr as [Hr Hrest].
    pose proof (mono_step i env w Hok Hr).
    pose proof (IH (step i env w) (range_step i env w Hok) Hrest). lia.
Qed.


(** *** Errors, the counter and the schedule *)

(** C5, at a save that fails.  The download is rejected while a
    [takeScreenshotNow] command is served on a store that counts 41
    screenshots: the cycle is aborted before the statistics update (the
    store is not accessed, the count stays at 41) and the error is logged,
    but [takeScreenshot] has caught it, so the command is answered with
    [success: true] and not with [success: false]. *)
Theorem persist_error_is_answered_with_success :
  let w0 := initial used_store in
  let r := onMessage "takeScreenshotNow" download_fails w0 in
  (before_stats download_fails w0).2 = Thrown "Download canceled by the user" /\
  trace (rt r.1) =
    [ConsoleLog "Starting screenshot process...";
     ConsoleLog "Selected URL: https://www.google.com";
     TabsQuery; TabsUpdateUrl 7 (Some "https://www.google.com");
     SetTimeout 1 15000; AddListener 0; TabsGet 7; ListenerInvoked 0;
     ClearTimeout 1; RemoveListener 0; ConsoleLog "Page loaded successfully";
     TabsActivate 7; SetTimeout 2 1000; TimeoutFired 2; CaptureVisibleTab;
     ConsoleLog "Screenshot captured successfully";
     Fetch "data:image/png;base64,AAAA"; CreateObjectURL;
     Download "blob:1" "screenshot_google.com_2024-01-15T10-30-00.png";
     ConsoleError "Error saving screenshot:";
     ConsoleError "Error during screenshot process:"] /\
  storage (rt r.1) = used_store /\
  totalCount r.1 = 41 /\
  r.2 = Some SuccessReply /\
  r.2 <> Some (FailureReply "Download canceled by the user").
Proof.
  intros w0 r.
  split; [vm_compute; reflexivity|]. split; [vm_compute; reflexivity|].
  split; [vm_compute; reflexivity|]. split; [vm_compute; reflexivity|].
  split; [vm_compute; reflexivity|]. vm_compute. discriminate.
Qed.

(** C6. [updateStats] returns normally whatever the two storage calls do;
    when one of them fails the error is logged and the store is left as it
    was; a cycle that got as far as the statistics update ends with the
    message of successful completion; [takeScreenshot] always returns, and
    a [takeScreenshotNow] command is answered with [success: true]. *)
Theorem stats_failure_is_absorbed (env : Env) (w : World) :
  (updateStats env w).2 = Returned tt /\
  (stats_written env = false ->
   storage (rt (updateStats env w).1) = storage (rt w) /\
   last (trace (rt (updateStats env w).1)) = Some (ConsoleError "Error updating stats:")) /\
  (forall w2, before_stats env w = (w2, Returned tt) ->
     last (trace (rt (takeScreenshot env w).1))
     = Some (ConsoleLog "Screenshot process completed successfully")) /\
  (takeScreenshot env w).2 = Returned tt /\
  (onMessage "takeScreenshotNow" env w).2 = Some SuccessReply.
Proof.
  split.
  { destruct (updateStats_returns env w) as [[] H]. exact H. }
  split.
  { intros Hf. split.
    - rewrite updateStats_storage, Hf. reflexivity.
    - apply updateStats_failure_logged. exact Hf. }
  split.
  { intros w2 Hb. pose proof (takeScreenshot_cases env w) as Hc.
    rewrite Hb in Hc. rewrite Hc. apply last_snoc. }
  split.
  { destruct (takeScreenshot_returns env w) as [[] H]. exact H. }
  apply takeScreenshotNow_reply.
Qed.

(** The storage read of the statistics update is rejected while a
    [takeScreenshotNow] command is served. *)
Lemma stats_failure_is_absorbed_witness :
  let w := initial used_store in
  stats_written storage_fails = false /\
  (before_stats storage_fails w).2 = Returned tt /\
  totalCount (takeScreenshot storage_fails w).1 = 41 /\
  last (trace (rt (takeScreenshot storage_fails w).1))
    = Some (ConsoleLog "Screenshot process completed successfully") /\
  (onMessage "takeScreenshotNow" storage_fails w).2 = Some SuccessReply.
Proof.
  intros w.
  pose proof (stats_failure_is_absorbed storage_fails w) as (_ & _ & Hlog & _ & Hreply).
  split; [reflexivity|]. split; [vm_compute; reflexivity|].
  split; [vm_compute; reflexivity|].
  split; [|exact Hreply].
  apply (Hlog (before_stats storage_fails w).1).
  vm_compute. reflexivity.
Defined.

(** C7, as the code has it.  On a store whose counter is absent or an
    integer from -2^53 to 2^53, in any state the worker can reach: no
    event handled while the run flag is set, and no sequence of such
    events, makes the displayed count go down.  A cycle whose steps up to the save get
    through ends with the message of successful completion; it adds
    exactly one to the count when both storage calls of its statistics
    update succeed and the count is below 2^53, and it leaves the count as
    it is when the statistics update fails or the count has reached 2^53
    (where adding one is rounded back to 2^53).  A cycle in which a step up
    to and including the save fails ends with the error message and leaves
    the count and the store untouched, without a storage call. *)
Theorem counter_counts_written_updates
        (st : gmap string JsVal) (inputs more : list (Input * Env))
        (i : Input) (env : Env) :
  counter_in_range (initial st) = true ->
  let w := run inputs (initial st) in
  let w' := (takeScreenshot env w).1 in
  (isRunning w = true -> totalCount w <= totalCount (step i env w)) /\
  (running_throughout more w = true -> totalCount w <= totalCount (run more w)) /\
  match (before_stats env w).2 with
  | Returned _ =>
      last (trace (rt w')) = Some cycle_completed /\
      totalCount w' =
        if stats_written env && (totalCount w <? MAX_COUNT)%Z
        then totalCount w + 1
        else totalCount w
  | Thrown _ =>
      last (trace (rt w')) = Some cycle_failed /\
      totalCount w' = totalCount w /\
      storage (rt w') = storage (rt w) /\
      storage_calls w' = storage_calls w
  | Hung => False
  end.
Proof.
  intros Hst w w'.
  pose proof (range_run inputs (initial st) Hst) as Hin. fold w in Hin.
  pose proof (proj1 (in_range_iff w) Hin) as [Hok Hb].
  split; [apply mono_step; exact Hin|].
  split; [apply mono_run; exact Hin|].
  pose proof (takeScreenshot_count env w Hok) as [_ Hc].
  pose proof (takeScreenshot_marks env w) as [Hl _].
  fold w' in Hc, Hl.
  destruct ((before_stats env w).2); [| |exact Hc].
  - split; [exact Hl|]. rewrite Hc.
    destruct (stats_written env); [|reflexivity]. simpl.
    rewrite (plus_one_capped _ Hb).
    destruct (Z.ltb_spec (totalCount w) MAX_COUNT); lia.
  - split; [exact Hl | exact Hc].
Qed.

Lemma counter_counts_written_updates_witness :
  let w := run [(Message "start", fair_weather)] (initial used_store) in
  counter_in_range (initial used_store) = true /\
  isRunning w = true /\
  totalCount w = 1 /\
  totalCount w <= totalCount (step (IntervalFired 1) fair_weather w) /\
  totalCount (takeScreenshot fair_weather w).1 = 2.
Proof.
  intros w.
  assert (counter_in_range (initial used_store) = true) as H0 by reflexivity.
  assert (isRunning w = true) as Hr by (vm_compute; reflexivity).
  assert (totalCount w = 1) as H1 by (vm_compute; reflexivity).
  pose proof (counter_counts_written_updates used_store
                [(Message "start", fair_weather)] []
                (IntervalFired 1) fair_weather H0) as (Hm & _ & Hc).
  fold w in Hm, Hc.
  assert ((before_stats fair_weather w).2 = Returned tt) as Hb by (vm_compute; reflexivity).
  rewrite Hb in Hc. destruct Hc as [_ Hc].
  split; [exact H0|]. split; [exact Hr|]. split; [exact H1|].
  split; [exact (Hm Hr)|].
  rewrite Hc, H1. reflexivity.
Defined.

(** C7, as stated, fails at a cycle whose statistics update fails.  The
    worker is running and has counted one screenshot; a
    [takeScreenshotNow] cycle captures and saves, the storage read of
    [updateStats] is rejected, the cycle ends with the message of
    successful completion and the command is answered with
    [success: true]; the count is still one. *)
Lemma completed_cycle_without_increment :
  let w := run [(Message "start", fair_weather)] (initial used_store) in
  isRunning w = true /\
  successful_cycle storage_fails w = true /\
  (onMessage "takeScreenshotNow" storage_fails w).2 = Some SuccessReply /\
  totalCount w = 1 /\
  totalCount (takeScreenshot storage_fails w).1 = 1 /\
  incremented_by_one storage_fails w <> true.
Proof.
  intros w.
  split; [vm_compute; reflexivity|]. split; [vm_compute; reflexivity|].
  split; [vm_compute; reflexivity|]. split; [vm_compute; reflexivity|].
  split; [vm_compute; reflexivity|]. vm_compute. discriminate.
Qed.



(** C10. A start while the run flag is clear writes [isRunning: true],
    [lastRun: now] and [totalScreenshots: 0] to the store (when the write
    succeeds), whatever the store held: the displayed count is 0 when the
    function returns, and once the cycle it began has finished the count is
    1 if that cycle and its statistics update succeeded and 0 otherwise, so
    nothing of an earlier count is carried over. *)
Theorem start_resets_counter (env : Env) (w : World) :
  isRunning w = false ->
  controlSet env = Ok tt ->
  let r := startAutomatedScreenshots env w in
  let w' := step (Message "start") env w in
  storage (rt r.1) = storage_merge (start_items env) (storage (rt w)) /\
  storage (rt r.1) !! "totalScreenshots" = Some (VNum 0) /\
  storage (rt r.1) !! "isRunning" = Some (VBool true) /\
  storage (rt r.1) !! "lastRun" = Some (VStr (toISOString (controlDate env))) /\
  totalCount r.1 = 0 /\
  match (captureAndSave env (Select.getRandomUrl (random env)) r.1).2 with
  | Returned _ => totalCount w' = if stats_written env then 1 else 0
  | Thrown _ => totalCount w' = 0
  | Hung => False
  end.
Proof.
  intros Hr Hset r w'.
  pose proof (start_stopped env w Hr) as (H1 & _ & _ & _ & Hs & _).
  fold r in H1, Hs. rewrite Hset in Hs.
  destruct (start_items_written env (storage (rt w))) as (L1 & L2 & L3 & _).
  rewrite <- Hs in L1, L2, L3.
  assert (totalCount r.1 = 0) as Hc by (apply totalCount_number; exact L1).
  assert (counter_is_number r.1 = true) as Hok
    by (unfold counter_is_number; rewrite L1; reflexivity).
  split; [exact Hs|]. split; [exact L1|]. split; [exact L2|]. split; [exact L3|].
  split; [exact Hc|].
  assert (w' = (takeScreenshot_resume env (Select.getRandomUrl (random env)) r.1).1) as E.
  { unfold w'. simpl. rewrite onMessage_start. fold r. rewrite H1. reflexivity. }
  pose proof (resume_count env (Select.getRandomUrl (random env)) r.1 Hok) as [_ Hcase].
  rewrite E.
  destruct ((captureAndSave env (Select.getRandomUrl (random env)) r.1).2);
    [| |exact Hcase].
  - rewrite Hcase, Hc. reflexivity.
  - destruct Hcase as [-> _]. exact Hc.
Qed.

Lemma start_resets_counter_witness :
  let w := initial used_store in
  isRunning w = false /\ controlSet fair_weather = Ok tt /\
  totalCount w = 41 /\
  totalCount (startAutomatedScreenshots fair_weather w).1 = 0 /\
  totalCount (step (Message "start") fair_weather w) = 1.
Proof.
  intros w.
  pose proof (start_resets_counter fair_weather w eq_refl eq_refl)
    as (_ & _ & _ & _ & Hc & _).
  split; [reflexivity|]. split; [reflexivity|]. split; [vm_compute; reflexivity|].
  split; [exact Hc | vm_compute; reflexivity].
Defined.

End WorkerFacts.

Module LoadWaitMore.
Import LoadWait Notions.
Open Scope Z_scope.

(** *** The wait resolves for a reason *)

Lemma quiet_step (rt0 : Runtime) (tab : Z) (e : Event) (s : Call * Runtime) :
  Inv rt0 tab s -> promise s.1 = Pending ->
  resolves_wait tab e = false ->
  now s.2 + elapsed [e] < now rt0 + PAGE_LOAD_TIMEOUT ->
  promise (dispatch e s).1 = Pending /\
  now (dispatch e s).2 = now s.2 + elapsed [e].
Proof.
  intros HI Hp Hq Ht. destruct s as [c rt]. pose proof HI as [HF HA].
  pose proof (inv_timeoutId _ _ _ HF) as Hto.
  pose proof (inv_listener _ _ _ HF) as Hli.
  pose proof (inv_tab _ _ _ HF) as Htab.
  destruct (HA Hp) as (Htm & _ & Hin & _).
  simpl in Hp, Hto, Hli, Htab, Htm, Hin, Ht.
  destruct e as [dt|t status|status|].
  - rewrite LoadWaitFacts.dispatch_Elapse. unfold advance. rewrite Hto, Htm.
    simpl in Ht. destruct (Z.leb_spec (now rt0 + PAGE_LOAD_TIMEOUT) (now rt + Z.of_N dt)).
    + lia.
    + simpl. split; [exact Hp | lia].
  - rewrite LoadWaitFacts.dispatch_TabUpdated, Hli.
    destruct (decide (nextClosure rt0 ∈ onUpdated rt)); [|contradiction].
    unfold onTabUpdated. simpl in Hq.
    destruct status as [[| |]|]; simpl; try (split; [exact Hp | lia]).
    rewrite Htab, Hq. simpl. split; [exact Hp | lia].
  - rewrite LoadWaitFacts.dispatch_TabsGetFulfilled.
    destruct (getPending c); [|simpl; split; [exact Hp | lia]].
    unfold onGetFulfilled. destruct status; simpl in *; try discriminate;
      (split; [exact Hp | lia]).
  - discriminate.
Qed.

Lemma elapsed_nonneg (evs : list Event) : 0 <= elapsed evs.
Proof.
  induction evs as [|e evs IH]; simpl; [lia|]. destruct e; lia.
Qed.

Lemma elapsed_cons (e : Event) (evs : list Event) :
  elapsed (e :: evs) = elapsed [e] + elapsed evs.
Proof. simpl. destruct e; lia. Qed.

Lemma pending_run (rt0 : Runtime) (tab : Z) (evs : list Event) (s : Call * Runtime) :
  Inv rt0 tab s -> promise s.1 = Pending ->
  forallb (fun e => negb (resolves_wait tab e)) evs = true ->
  now s.2 + elapsed evs < now rt0 + PAGE_LOAD_TIMEOUT ->
  promise (run evs s).1 = Pending /\
  now (run evs s).2 = now s.2 + elapsed evs.
Proof.
  revert s. induction evs as [|e evs IH]; intros s HI Hp Hq Ht.
  - simpl. split; [exact Hp | lia].
  - simpl in Hq. apply andb_prop in Hq as [Hq1 Hq2].
    apply negb_true_iff in Hq1. rewrite (elapsed_cons e evs) in Ht.
    pose proof (elapsed_nonneg evs) as Hn.
    assert (now s.2 + elapsed [e] < now rt0 + PAGE_LOAD_TIMEOUT) as Ht1 by lia.
    destruct (quiet_step rt0 tab e s HI Hp Hq1 Ht1) as [Hp' Hn'].
    assert (now (dispatch e s).2 + elapsed evs < now rt0 + PAGE_LOAD_TIMEOUT) as Ht2
      by (rewrite Hn'; lia).
    destruct (IH (dispatch e s) (LoadWaitFacts.Inv_dispatch rt0 tab e s HI) Hp' Hq2 Ht2)
      as [Hp'' Hn''].
    change (run (e :: evs) s) with (run evs (dispatch e s)).
    split; [exact Hp''|]. rewrite Hn'', Hn', (elapsed_cons e evs). lia.
Qed.

(** X1. The wait does not resolve without a reason: as long as the awaited
    tab has not reported [complete], the status query has neither answered
    [complete] nor failed, and less than the timeout period has passed, the
    promise is pending, with its timer and its listener still in place.
    In particular updates of other tabs, and updates of the awaited tab
    with another status, are ignored. *)
Theorem wait_stays_pending (rt0 : Runtime) (tab : Z) (evs : list Event) :
  forallb (fun e => negb (resolves_wait tab e)) evs = true ->
  elapsed evs < PAGE_LOAD_TIMEOUT ->
  let s := run evs (waitForPageLoad tab rt0) in
  promise s.1 = Pending /\ settledAt s.1 = None /\
  now s.2 = now rt0 + elapsed evs /\
  timers s.2 !! Z.pos (nextHandle rt0) = Some (now rt0 + PAGE_LOAD_TIMEOUT) /\
  nextClosure rt0 ∈ onUpdated s.2.
Proof.
  intros Hq Ht s.
  pose proof (LoadWaitFacts.Inv_init rt0 tab) as HI0.
  destruct (pending_run rt0 tab evs (waitForPageLoad tab rt0) HI0 eq_refl Hq)
    as [Hp Hn].
  { change (now (waitForPageLoad tab rt0).2) with (now rt0). lia. }
  fold s in Hp, Hn.
  destruct (LoadWaitFacts.Inv_reachable rt0 tab evs) as [_ HA]. fold s in HA.
  destruct (HA Hp) as (Htm & _ & Hin & Hs).
  split; [exact Hp|]. split; [exact Hs|]. split; [exact Hn|]. split; assumption.
Qed.

Lemma wait_stays_pending_witness :
  let evs := [TabUpdated 8 (Some complete); TabUpdated 7 (Some loading);
              Elapse 14999; TabsGetFulfilled loading] in
  let s := run evs (waitForPageLoad 7 empty_runtime) in
  elapsed evs < PAGE_LOAD_TIMEOUT /\ promise s.1 = Pending /\ now s.2 = 14999.
Proof.
  intros evs s.
  assert (elapsed evs < PAGE_LOAD_TIMEOUT) as Ht by reflexivity.
  pose proof (wait_stays_pending empty_runtime 7 evs eq_refl Ht) as (Hp & _ & Hn & _).
  split; [exact Ht|]. split; [exact Hp | exact Hn].
Defined.

(** *** The wait settles once *)

Lemma resolve_settled (c : Call) (rt : Runtime) :
  promise c = Fulfilled -> resolve c rt = c.
Proof. intros H. unfold resolve. rewrite H. reflexivity. Qed.

Lemma dispatch_settled (e : Event) (s : Call * Runtime) :
  promise s.1 = Fulfilled ->
  promise (dispatch e s).1 = Fulfilled /\ settledAt (dispatch e s).1 = settledAt s.1.
Proof.
  intros Hp. destruct s as [c rt]. simpl in Hp.
  destruct e as [dt|t status|status|].
  - rewrite LoadWaitFacts.dispatch_Elapse. unfold advance, onTimeout.
    destruct (timeoutId c) as [h|]; [|done].
    destruct (timers rt !! h) as [due|]; [|done].
    destruct (due <=? now rt + Z.of_N dt); [|done].
    simpl. rewrite resolve_settled by exact Hp. done.
  - rewrite LoadWaitFacts.dispatch_TabUpdated.
    destruct (loadingListener c) as [l|]; [|done].
    destruct (decide (l ∈ onUpdated rt)); [|done].
    unfold onTabUpdated. destruct status as [[| |]|]; try done.
    destruct (t =? tabId c); [|done].
    simpl. rewrite resolve_settled by exact Hp. done.
  - rewrite LoadWaitFacts.dispatch_TabsGetFulfilled.
    destruct (getPending c); [|done].
    unfold onGetFulfilled. destruct status; try done.
    simpl. rewrite resolve_settled by exact Hp. done.
  - rewrite LoadWaitFacts.dispatch_TabsGetRejected.
    destruct (getPending c); [|done].
    unfold onGetRejected. simpl. rewrite resolve_settled by exact Hp. done.
Qed.

(** X2. The promise of [waitForPageLoad] settles once: after it is
    fulfilled, a timeout, a load report or an answer of the status query
    that arrives later calls [resolve] again without effect, and the time
    of the first resolution stands. *)
Theorem wait_settles_once (tab : Z) (rt0 : Runtime) (evs later : list Event) :
  promise (run evs (waitForPageLoad tab rt0)).1 = Fulfilled ->
  promise (run (evs ++ later) (waitForPageLoad tab rt0)).1 = Fulfilled /\
  settledAt (run (evs ++ later) (waitForPageLoad tab rt0)).1
  = settledAt (run evs (waitForPageLoad tab rt0)).1.
Proof.
  unfold run at 2 3. rewrite fold_left_app.
  change (fold_left (fun s e => dispatch e s) evs (waitForPageLoad tab rt0))
    with (run evs (waitForPageLoad tab rt0)).
  generalize (run evs (waitForPageLoad tab rt0)) as s.
  induction later as [|e later IH]; intros s Hp; simpl.
  - done.
  - destruct (dispatch_settled e s Hp) as [Hp' Hs'].
    destruct (IH (dispatch e s) Hp') as [Hp'' Hs''].
    split; [exact Hp'' | congruence].
Qed.

Lemma wait_settles_once_witness :
  let evs := [Elapse 3000; TabUpdated 7 (Some complete)] in
  let later := [TabsGetFulfilled complete; Elapse 20000] in
  promise (run evs (waitForPageLoad 7 empty_runtime)).1 = Fulfilled /\
  settledAt (run (evs ++ later) (waitForPageLoad 7 empty_runtime)).1 = Some 3000.
Proof.
  intros evs later.
  assert (promise (run evs (waitForPageLoad 7 empty_runtime)).1 = Fulfilled) as Hp
    by (vm_compute; reflexivity).
  destruct (wait_settles_once 7 empty_runtime evs later Hp) as [_ Hs].
  split; [exact Hp|]. rewrite Hs. vm_compute. reflexivity.
Defined.

End LoadWaitMore.

Module FilenameMore.
Import Filename Notions FilenameFacts.
Open Scope string_scope.

#[local] Arguments digit : simpl never.
#[local] Arguments pad : simpl never.
#[local] Arguments iso_year : simpl never.

(** *** The time stamp is safe in a file name *)

Lemma has_cp_cons (c : ascii) (s : string) :
  has_colon_or_period (String c s) = colon_or_period c || has_colon_or_period s.
Proof. reflexivity. Qed.

Lemma has_cp_append (a b : string) :
  has_colon_or_period (a ++ b) = has_colon_or_period a || has_colon_or_period b.
Proof.
  induction a as [|x a IH]; [reflexivity|].
  rewrite append_cons, !has_cp_cons, IH, orb_assoc. reflexivity.
Qed.

Lemma has_cp_pad (w : nat) (n : Z) : has_colon_or_period (pad w n) = false.
Proof.
  revert n. induction w as [|w IH]; intros n; [reflexivity|].
  rewrite pad_succ, has_cp_append, IH, has_cp_cons, digit_plain. reflexivity.
Qed.

Lemma has_cp_iso_year (y : Z) : has_colon_or_period (iso_year y) = false.
Proof.
  unfold iso_year. destruct ((0 <=? y)%Z && (y <=? 9999)%Z); [apply has_cp_pad|].
  rewrite has_cp_append, has_cp_pad. destruct (y <? 0)%Z; reflexivity.
Qed.

Lemma iso_year_length (y : Z) :
  String.length (iso_year y)
  = if (0 <=? y)%Z && (y <=? 9999)%Z then 4%nat else 7%nat.
Proof.
  unfold iso_year. destruct ((0 <=? y)%Z && (y <=? 9999)%Z); [apply pad_length|].
  rewrite length_append, pad_length. destruct (y <? 0)%Z; reflexivity.
Qed.

(** X3. The time stamp in a file name is the date and the time of day to
    the second, [YYYY-MM-DDTHH-mm-ss]: it contains neither a colon nor a
    period, and it is 19 characters long for every year from 0 to 9999 (22
    for the signed six-digit years outside that range). *)
Theorem timestamp_is_file_safe (d : Date) :
  timestamp d =
    iso_year (year d) ++ "-" ++ pad 2 (month d) ++ "-" ++ pad 2 (day d) ++ "T" ++
    pad 2 (hours d) ++ "-" ++ pad 2 (minutes d) ++ "-" ++ pad 2 (seconds d) /\
  has_colon_or_period (timestamp d) = false /\
  String.length (timestamp d)
  = if (0 <=? year d)%Z && (year d <=? 9999)%Z then 19%nat else 22%nat.
Proof.
  split; [apply timestamp_format|]. rewrite timestamp_format. split.
  - rewrite !has_cp_append, has_cp_iso_year, !has_cp_pad. reflexivity.
  - rewrite !length_append, iso_year_length, !pad_length.
    destruct ((0 <=? year d)%Z && (year d <=? 9999)%Z); reflexivity.
Qed.

(** *** Removing [www.] from the host *)

Lemma strip_prefix_split (p s rest : string) :
  strip_prefix p s = Some rest -> s = p ++ rest.
Proof.
  revert s. induction p as [|a p IH]; intros s H.
  - simpl in H. injection H as ->. reflexivity.
  - destruct s as [|b s]; [discriminate|]. simpl in H.
    destruct (Ascii.eqb_spec a b) as [->|]; [|discriminate].
    rewrite append_cons, (IH s H). reflexivity.
Qed.

Lemma substring_all (s : string) : substring 0 (String.length s) s = s.
Proof. induction s as [|c s IH]; simpl; [reflexivity | rewrite IH; reflexivity]. Qed.

Lemma substring_after (p rest : string) :
  substring (String.length p) (String.length rest) (p ++ rest) = rest.
Proof.
  induction p as [|c p IH]; [apply substring_all|].
  rewrite append_cons. simpl. exact IH.
Qed.

Lemma replace_first_step (pat rep : string) (c : ascii) (s : string) :
  strip_prefix pat (String c s) = None ->
  replace_first pat rep (String c s) = String c (replace_first pat rep s).
Proof.
  intros H.
  change (replace_first pat rep (String c s))
    with (match strip_prefix pat (String c s) with
          | Some rest => rep ++ rest
          | None => String c (replace_first pat rep s)
          end).
  rewrite H. reflexivity.
Qed.

Lemma first_index_step (pat : string) (c : ascii) (s : string) :
  strip_prefix pat (String c s) = None ->
  first_index pat (String c s) = S <$> first_index pat s.
Proof.
  intros H.
  change (first_index pat (String c s))
    with (match strip_prefix pat (String c s) with
          | Some _ => Some 0%nat
          | None => S <$> first_index pat s
          end).
  rewrite H. reflexivity.
Qed.

Lemma first_index_here (pat s rest : string) :
  strip_prefix pat s = Some rest -> first_index pat s = Some 0%nat.
Proof. intros H. destruct s; simpl; rewrite H; reflexivity. Qed.

Lemma first_index_empty (pat : string) :
  strip_prefix pat "" = None -> first_index pat "" = None.
Proof. intros H. simpl. rewrite H. reflexivity. Qed.

Lemma replace_first_empty (pat rep : string) :
  strip_prefix pat "" = None -> replace_first pat rep "" = "".
Proof. intros H. simpl. rewrite H. reflexivity. Qed.

(** X4. The host part of the file name is the host name with the four
    characters of the first [www.] cut out, wherever it is: a host name
    without [www.] is kept as it is, and otherwise exactly one occurrence
    goes, the one [indexOf] finds, so that a second [www.] stays. *)
Theorem urlDomain_cuts_first_occurrence (host : string) :
  match first_index "www." host with
  | None => urlDomain host = host
  | Some i =>
      urlDomain host =
        substring 0 i host ++ substring (i + 4) (String.length host - (i + 4)) host /\
      String.length host = (String.length (urlDomain host) + 4)%nat
  end.
Proof.
  unfold urlDomain. induction host as [|c host IH].
  - reflexivity.
  - destruct (strip_prefix "www." (String c host)) as [rest|] eqn:E.
    + rewrite (first_index_here _ _ _ E), (replace_first_prefix _ _ _ _ E).
      pose proof (strip_prefix_split _ _ _ E) as Hs. rewrite Hs.
      rewrite append_nil, length_append.
      change (String.length "www.") with 4%nat.
      replace (4 + String.length rest - (0 + 4))%nat with (String.length rest) by lia.
      split; [|lia].
      change (0 + 4)%nat with (String.length "www.").
      rewrite substring_after. destruct rest; reflexivity.
    + rewrite (first_index_step _ _ _ E), (replace_first_step _ _ _ _ E).
      destruct (first_index "www." host) as [i|]; simpl.
      * destruct IH as [IH1 IH2]. rewrite IH1 at 1. split.
        -- rewrite append_cons. reflexivity.
        -- rewrite IH2. reflexivity.
      * rewrite IH. reflexivity.
Qed.

Example urlDomain_keeps_second_www :
  urlDomain "www.www.example.com" = "www.example.com".
Proof. reflexivity. Qed.

(** *** From the draw to the file name *)

(** X5. Whatever [Math.random()] returns in [0,1) and whatever the date,
    the selected URL is parsed without an exception and the file name is
    [screenshot_<host>_<timestamp>.png], where the host is one of the four
    configured ones without its [www.]. *)
Theorem selected_url_names_file (r : Q) (d : Date) :
  (0 <= r)%Q -> (r < 1)%Q ->
  exists url host,
    Select.getRandomUrl r = Some url /\
    In host target_domains /\
    filename_of_url (Select.getRandomUrl r) d
    = Some (Ok ("screenshot_" ++ host ++ "_" ++ timestamp d ++ ".png")).
Proof.
  intros H0 H1.
  pose proof (SelectFacts.randomIndex_in_bounds r H0 H1) as Hb.
  destruct (SelectFacts.array_get_in TARGET_URLS (Select.randomIndex r) Hb)
    as [url [Hg Hin]].
  unfold Select.getRandomUrl. rewrite Hg. exists url.
  simpl in Hin. destruct Hin as [ <- | [ <- | [ <- | [ <- | [] ] ] ] ].
  - exists "competitiondatabase.co.uk". split; [reflexivity|].
    split; [simpl; tauto | reflexivity].
  - exists "facebook.com". split; [reflexivity|].
    split; [simpl; tauto | reflexivity].
  - exists "google.com". split; [reflexivity|].
    split; [simpl; tauto | reflexivity].
  - exists "yahoo.com". split; [reflexivity|].
    split; [simpl; tauto | reflexivity].
Qed.

Lemma selected_url_names_file_witness :
  (0 <= 9 # 10)%Q /\ (9 # 10 < 1)%Q /\
  filename_of_url (Select.getRandomUrl (9 # 10)) date_2024_01_15
  = Some (Ok "screenshot_yahoo.com_2024-01-15T10-30-00.png").
Proof.
  assert (0 <= 9 # 10)%Q as H0 by discriminate.
  assert (9 # 10 < 1)%Q as H1 by reflexivity.
  destruct (selected_url_names_file (9 # 10) date_2024_01_15 H0 H1)
    as (url & host & _ & _ & _).
  split; [exact H0|]. split; [exact H1 | reflexivity].
Defined.

End FilenameMore.

Module WorkerMore.
Import Filename Worker Notions WorkerFacts.
Open Scope string_scope.
Open Scope Z_scope.

#[local] Arguments to_double : simpl never.

Lemma new_effects_ext (w w' : World) (ext : list Effect) :
  trace (rt w') = (trace (rt w) ++ ext)%list -> new_effects w w' = ext.
Proof. intros H. unfold new_effects. rewrite H. apply drop_app_length. Qed.

Ltac effects_are :=
  apply new_effects_ext; simpl; rewrite <- ?app_assoc; reflexivity.

(** *** Getting a tab *)

(** X6. [createOrUpdateTab] returns the active tab when there is one and it
    could be navigated, and the new tab when there is none and the creation
    succeeded; when that first attempt fails in any way it creates a tab
    once more, and only the failure of this second creation makes it throw,
    with the error of the second creation.  No tab is created when the
    active tab was navigated, and never more than two. *)
Theorem createOrUpdateTab_outcome (env : Env) (url : option string) (w : World) :
  let r := createOrUpdateTab_resume env url w in
  r.2 = match first_attempt env with
        | Ok id => Returned id
        | Err _ => match createTabFallback env with
                   | Ok id => Returned id
                   | Err e => Thrown e
                   end
        end /\
  (length (List.filter is_tabs_create (new_effects w r.1)) <= 2)%nat /\
  (forall id, queryActive env = Ok (Some id) -> navigate env = Ok tt ->
              r.2 = Returned id /\ new_effects w r.1 = [TabsUpdateUrl id url]) /\
  (forall e, queryActive env = Err e ->
             new_effects w r.1 =
             [ConsoleError "Error creating/updating tab:"; TabsCreate url]).
Proof.
  intros r. subst r.
  unfold createOrUpdateTab_resume, first_attempt, try_catch, bind, await, call,
    console_error, effect, ret.
  destruct (queryActive env) as [[id|]|e0];
    [destruct (navigate env) as [[]|e1]|destruct (createTab env) as [id1|e1]|];
    destruct (createTabFallback env) as [id2|e2]; simpl;
    (split; [reflexivity|]);
    (split; [match goal with
             | |- context [new_effects ?a ?b] =>
                 let H := fresh in
                 evar (ext : list Effect);
                 assert (new_effects a b = ext) as H by (subst ext; effects_are);
                 subst ext; rewrite H; simpl; lia
             end|]);
    (split; [intros ? Hq Hn;
             first [discriminate Hq | discriminate Hn
                   | injection Hq as <-; split; [reflexivity | effects_are]]
            | intros ? Hq; first [discriminate Hq | effects_are]]).
Qed.

Lemma createOrUpdateTab_outcome_witness :
  let url := Some "https://www.google.com" in
  let r := createOrUpdateTab_resume fair_weather url (initial used_store) in
  queryActive fair_weather = Ok (Some 7) /\ navigate fair_weather = Ok tt /\
  r.2 = Returned 7 /\
  new_effects (initial used_store) r.1 = [TabsUpdateUrl 7 url].
Proof.
  intros url r.
  pose proof (createOrUpdateTab_outcome fair_weather url (initial used_store))
    as (_ & _ & Hnav & _).
  split; [reflexivity|]. split; [reflexivity|].
  exact (Hnav 7 eq_refl eq_refl).
Defined.

(** *** Capturing and saving *)

(** X7. [captureScreenshot] makes the tab active, waits 1000 ms on a timer
    that is gone afterwards, and captures; it returns the data URL of the
    capture.  When the tab cannot be made active nothing is captured and no
    delay is taken; an error of either call is logged and thrown on as it
    is. *)
Theorem captureScreenshot_outcome (env : Env) (tab : Z) (w : World) :
  let r := captureScreenshot env tab w in
  let h := Z.pos (nextHandle (rt w)) in
  r.2 = match activate env with
        | Err e => Thrown e
        | Ok _ => match captureVisibleTab env with
                  | Ok dataUrl => Returned dataUrl
                  | Err e => Thrown e
                  end
        end /\
  new_effects w r.1 =
    match activate env with
    | Err _ => [TabsActivate tab; ConsoleError "Error capturing screenshot:"]
    | Ok _ =>
        [TabsActivate tab; SetTimeout h 1000; TimeoutFired h; CaptureVisibleTab;
         match captureVisibleTab env with
         | Ok _ => ConsoleLog "Screenshot captured successfully"
         | Err _ => ConsoleError "Error capturing screenshot:"
         end]
    end /\
  now (rt r.1) = match activate env with
                 | Err _ => now (rt w)
                 | Ok _ => now (rt w) + 1000
                 end /\
  timers (rt r.1) = match activate env with
                    | Err _ => timers (rt w)
                    | Ok _ => delete h (timers (rt w))
                    end.
Proof.
  intros r h. subst r h.
  unfold captureScreenshot, try_catch, bind, call, sleep, console_log, console_error,
    effect, ret, throw.
  destruct (activate env) as [[]|e1]; [destruct (captureVisibleTab env) as [d|e2]|];
    simpl; (split; [reflexivity|]); (split; [effects_are|]);
    (split; [reflexivity|]).
  - apply delete_insert_eq.
  - apply delete_insert_eq.
  - reflexivity.
Qed.

(** X8. [saveScreenshot] first has the source URL parsed.  When the
    constructor of [URL] throws, nothing is fetched and nothing is offered
    for download.  Otherwise the capture is offered for download under the
    name computed from the host name the parser reports and the date, after
    fetching the data URL and creating an object URL for it; nothing is
    offered for download when the fetch or the object URL fails.  Whatever
    step fails, the error is logged and thrown on as it is. *)
Theorem saveScreenshot_outcome
        (env : Env) (dataUrl : string) (sourceUrl : option string) (w : World) :
  let r := saveScreenshot env dataUrl sourceUrl w in
  let failed := ConsoleError "Error saving screenshot:" in
  match hostnameOf env sourceUrl with
  | Err e => r.2 = Thrown e /\ new_effects w r.1 = [failed]
  | Ok hostname =>
      let name := filename hostname (saveDate env) in
      match fetchBlob env with
      | Err e => r.2 = Thrown e /\ new_effects w r.1 = [Fetch dataUrl; failed]
      | Ok _ =>
          match createObjectURL env with
          | Err e => r.2 = Thrown e /\
                     new_effects w r.1 = [Fetch dataUrl; CreateObjectURL; failed]
          | Ok objectUrl =>
              new_effects w r.1 =
                [Fetch dataUrl; CreateObjectURL; Download objectUrl name;
                 match download env with
                 | Ok _ => ConsoleLog ("Screenshot saved: " ++ name)
                 | Err _ => failed
                 end] /\
              r.2 = match download env with
                    | Ok _ => Returned tt
                    | Err e => Thrown e
                    end
          end
      end
  end.
Proof.
  intros r failed. subst r failed.
  unfold saveScreenshot, try_catch, bind, await, call, console_log, console_error,
    effect, ret, throw.
  destruct (hostnameOf env sourceUrl) as [hostname|e0]; simpl.
  - destruct (fetchBlob env) as [[]|e1]; simpl.
    + destruct (createObjectURL env) as [o|e2]; simpl.
      * destruct (download env) as [n|e3]; simpl; (split; [effects_are | reflexivity]).
      * split; [reflexivity | effects_are].
    + split; [reflexivity | effects_are].
  - split; [reflexivity | effects_are].
Qed.

(** X9. The steps of a cycle before the statistics update run in a chain
    that the first failure cuts: without a tab there is no load wait (so
    no timer and no listener), no capture and no save; with a tab
    [currentTabId] is set to it, the load wait is sat out, and the capture
    runs; a failed capture is the failure of the chain and nothing is
    saved; a successful one hands its data URL to [saveScreenshot], whose
    outcome is the outcome of the chain. *)
Theorem cycle_stops_at_first_failure (env : Env) (url : option string) (w : World) :
  (forall w1 e, createOrUpdateTab_resume env url w = (w1, Thrown e) ->
                captureAndSave env url w = (w1, Thrown e)) /\
  (forall w1 tab,
     createOrUpdateTab_resume env url w = (w1, Returned tab) ->
     let w2 := (await_waitForPageLoad env tab (set_currentTabId tab w1).1).1 in
     currentTabId w2 = Some tab /\
     (forall w3 e, captureScreenshot env tab w2 = (w3, Thrown e) ->
                   captureAndSave env url w = (w3, Thrown e)) /\
     (forall w3 dataUrl, captureScreenshot env tab w2 = (w3, Returned dataUrl) ->
                         captureAndSave env url w = saveScreenshot env dataUrl url w3)).
Proof.
  split.
  - intros w1 e H. unfold captureAndSave, bind. rewrite H. reflexivity.
  - intros w1 tab H w2. rewrite (captureAndSave_after_wait env url w w1 tab H). fold w2.
    split; [reflexivity|]. split.
    + intros w3 e Hc. unfold bind. rewrite Hc. reflexivity.
    + intros w3 d Hc. unfold bind. rewrite Hc. reflexivity.
Qed.

Lemma cycle_stops_at_first_failure_witness :
  let url := Some "https://www.google.com" in
  let w := initial used_store in
  let w1 := (createOrUpdateTab_resume download_fails url w).1 in
  let w2 := (await_waitForPageLoad download_fails 7 (set_currentTabId 7 w1).1).1 in
  let w3 := (captureScreenshot download_fails 7 w2).1 in
  createOrUpdateTab_resume download_fails url w = (w1, Returned 7) /\
  captureScreenshot download_fails 7 w2 = (w3, Returned "data:image/png;base64,AAAA") /\
  currentTabId w2 = Some 7 /\
  captureAndSave download_fails url w
  = saveScreenshot download_fails "data:image/png;base64,AAAA" url w3.
Proof.
  intros url w w1 w2 w3.
  assert (createOrUpdateTab_resume download_fails url w = (w1, Returned 7)) as H1
    by (vm_compute; reflexivity).
  assert (captureScreenshot download_fails 7 w2
          = (w3, Returned "data:image/png;base64,AAAA")) as H2
    by (vm_compute; reflexivity).
  pose proof (cycle_stops_at_first_failure download_fails url w) as [_ Hc].
  destruct (Hc w1 7 H1) as (Ht & _ & Hs).
  split; [exact H1|]. split; [exact H2|]. split; [exact Ht|].
  exact (Hs w3 _ H2).
Defined.

(** *** The statistics *)

Lemma merge_stats_lookup (env : Env) (w : World) (k : string) :
  k <> "totalScreenshots" -> k <> "lastRun" ->
  storage_merge (stats_items env w) (storage (rt w)) !! k = storage (rt w) !! k.
Proof.
  intros H1 H2. unfold storage_merge, stats_items. simpl.
  rewrite !lookup_insert_ne by done. reflexivity.
Qed.

(** X10. [updateStats] writes the two keys [totalScreenshots] and [lastRun]
    and no other: every other key of the store, [isRunning] among them,
    keeps its value.  When both storage calls succeed [lastRun] is the
    current date and the counter is the old one plus one, for every
    counter from -2^53 to 2^53 - 1, counting from 1 when the key is
    missing; a counter that has reached 2^53 stays there, since 2^53 + 1
    is not a double.  When one of the calls fails the store is as it
    was. *)
Theorem updateStats_writes_two_keys (env : Env) (w : World) :
  let w' := (updateStats env w).1 in
  (forall k, k <> "totalScreenshots" -> k <> "lastRun" ->
             storage (rt w') !! k = storage (rt w) !! k) /\
  (stats_written env = true ->
   storage (rt w') !! "lastRun" = Some (VStr (toISOString (statsDate env))) /\
   (storage (rt w) !! "totalScreenshots" = None ->
    storage (rt w') !! "totalScreenshots" = Some (VNum 1)) /\
   (forall n, storage (rt w) !! "totalScreenshots" = Some (VNum n) ->
              - MAX_COUNT <= n < MAX_COUNT ->
              storage (rt w') !! "totalScreenshots" = Some (VNum (n + 1))) /\
   (storage (rt w) !! "totalScreenshots" = Some (VNum MAX_COUNT) ->
    storage (rt w') !! "totalScreenshots" = Some (VNum MAX_COUNT))) /\
  (stats_written env = false -> storage (rt w') = storage (rt w)).
Proof.
  intros w'. subst w'. rewrite updateStats_storage.
  assert (forall n, storage (rt w) !! "totalScreenshots" = Some (VNum n) ->
                    - MAX_COUNT <= n <= MAX_COUNT ->
                    storage_merge (stats_items env w) (storage (rt w)) !! "totalScreenshots"
                    = Some (VNum (Z.min (n + 1) MAX_COUNT))) as Hnum.
  { intros n Hn Hb. unfold storage_merge, stats_items. simpl.
    rewrite lookup_insert_eq, next_count
      by (unfold counter_is_number; rewrite Hn; reflexivity).
    rewrite (totalCount_number w n Hn), (plus_one_capped n Hb). reflexivity. }
  split; [|split].
  - intros k H1 H2. destruct (stats_written env); [|reflexivity].
    apply merge_stats_lookup; assumption.
  - intros ->.
    split; [unfold storage_merge, stats_items; simpl;
            rewrite lookup_insert_ne by done; apply lookup_insert_eq|].
    split; [intros Hn; unfold storage_merge, stats_items; simpl;
            rewrite Hn; apply lookup_insert_eq|].
    split.
    + intros n Hn Hb. rewrite (Hnum n Hn) by lia. f_equal. f_equal. lia.
    + intros Hn. rewrite (Hnum _ Hn) by (unfold MAX_COUNT; lia). reflexivity.
  - intros ->. reflexivity.
Qed.

Lemma updateStats_writes_two_keys_witness :
  let w := initial {[ "isRunning" := VBool true ]} in
  let w' := (updateStats fair_weather w).1 in
  stats_written fair_weather = true /\
  storage (rt w) !! "totalScreenshots" = None /\
  storage (rt w') !! "totalScreenshots" = Some (VNum 1) /\
  storage (rt w') !! "isRunning" = Some (VBool true).
Proof.
  intros w w'.
  pose proof (updateStats_writes_two_keys fair_weather w) as (Hk & Hw & _).
  destruct (Hw eq_refl) as (_ & H1 & _).
  split; [reflexivity|]. split; [reflexivity|]. split; [exact (H1 eq_refl)|].
  unfold w'. rewrite (Hk "isRunning") by done. reflexivity.
Defined.

(** *** What a cycle leaves alone *)

Lemma updateStats_keys (env : Env) (w : World) (k : string) :
  k <> "totalScreenshots" -> k <> "lastRun" ->
  storage (rt (updateStats env w).1) !! k = storage (rt w) !! k.
Proof.
  intros H1 H2. rewrite updateStats_storage.
  destruct (stats_written env); [|reflexivity]. apply merge_stats_lookup; assumption.
Qed.

Lemma resume_keys (env : Env) (url : option string) (w : World) (k : string) :
  k <> "totalScreenshots" -> k <> "lastRun" ->
  storage (rt (takeScreenshot_resume env url w).1) !! k = storage (rt w) !! k.
Proof.
  intros H1 H2. pose proof (resume_cases env url w) as Hc.
  pose proof (Calm_captureAndSave env url w) as (_ & Hs & _).
  destruct (captureAndSave env url w) as [w2 [a|e|]]; simpl in *; try done.
  - rewrite Hc. simpl. rewrite (updateStats_keys env w2 k H1 H2), Hs. reflexivity.
  - rewrite Hc. simpl. rewrite Hs. reflexivity.
Qed.

Lemma takeScreenshot_keys (env : Env) (w : World) (k : string) :
  k <> "totalScreenshots" -> k <> "lastRun" ->
  storage (rt (takeScreenshot env w).1) !! k = storage (rt w) !! k.
Proof.
  intros H1 H2. unfold takeScreenshot.
  pose proof (Calm_takeScreenshot_begin env w) as (_ & Hs & _).
  destruct (takeScreenshot_begin env w) as [w1 url]. simpl in Hs.
  rewrite (resume_keys env url w1 k H1 H2), Hs. reflexivity.
Qed.

(** X11. A cycle, however it ends, leaves the run flag, [intervalId] and the
    registered interval as they are, and of the store it changes at most
    [totalScreenshots] and [lastRun]: a failing cycle cannot cancel the
    schedule, and no cycle can change the stored [isRunning]. *)
Theorem cycle_keeps_schedule (env : Env) (w : World) :
  let w' := (takeScreenshot env w).1 in
  isRunning w' = isRunning w /\
  intervalId w' = intervalId w /\
  intervals (rt w') = intervals (rt w) /\
  (forall k, k <> "totalScreenshots" -> k <> "lastRun" ->
             storage (rt w') !! k = storage (rt w) !! k).
Proof.
  intros w'. subst w'.
  destruct (Steady_takeScreenshot env w) as (H1 & H2 & H3 & _).
  split; [exact H1|]. split; [exact H2|]. split; [exact H3|].
  intros k. apply takeScreenshot_keys.
Qed.

(** *** The count is the number of counted cycles *)

Lemma cycle_gain_spec (env : Env) (w : World) :
  counter_in_range w = true ->
  totalCount (takeScreenshot env w).1
  = Z.min (totalCount w + cycle_gain env w) MAX_COUNT.
Proof.
  intros Hin. apply in_range_iff in Hin as [Hok Hb].
  destruct (takeScreenshot_count env w Hok) as [_ Hc].
  unfold cycle_gain. destruct ((before_stats env w).2); [| |done].
  - rewrite Hc. destruct (stats_written env); [apply plus_one_capped; exact Hb | lia].
  - destruct Hc as [-> _]. lia.
Qed.

Lemma cycle_gain_nonneg (env : Env) (w : World) : 0 <= cycle_gain env w.
Proof.
  unfold cycle_gain. destruct ((before_stats env w).2); [|lia|lia].
  destruct (stats_written env); lia.
Qed.

Lemma gain_nonneg (i : Input) (env : Env) (w : World) : 0 <= gain i env w.
Proof.
  destruct i as [| | |action|h]; simpl; try lia.
  - destruct (String.eqb action "takeScreenshotNow"); [apply cycle_gain_nonneg | lia].
  - destruct (intervals (rt w) !! h); [apply cycle_gain_nonneg | lia].
Qed.

Lemma counted_nonneg (inputs : list (Input * Env)) (w : World) : 0 <= counted inputs w.
Proof.
  revert w. induction inputs as [|[i env] inputs IH]; intros w; simpl; [lia|].
  pose proof (gain_nonneg i env w). pose proof (IH (step i env w)). lia.
Qed.

Lemma gain_onMessage (action : string) (env : Env) (w : World) :
  counter_in_range w = true -> isRunning w = true ->
  totalCount (onMessage action env w).1
  = Z.min (totalCount w + gain (Message action) env w) MAX_COUNT.
Proof.
  intros Hin Hr. pose proof (proj1 (in_range_iff w) Hin) as [Hok Hb].
  unfold onMessage, gain.
  destruct (String.eqb_spec action "getStatus") as [->|_].
  { simpl. destruct (storageGet env); simpl; unfold totalCount in *; simpl; lia. }
  destruct (String.eqb_spec action "start") as [->|_].
  { simpl. rewrite (start_running env w Hr). simpl. unfold totalCount in *. simpl. lia. }
  destruct (String.eqb_spec action "stop") as [->|_].
  { simpl. destruct (same_counter w _ (stop_counter env w)) as [_ ->]. lia. }
  destruct (String.eqb_spec action "takeScreenshotNow") as [->|_].
  { pose proof (cycle_gain_spec env w Hin) as Hg.
    destruct (takeScreenshot env w) as [w1 [a|e|]]; exact Hg. }
  simpl. lia.
Qed.

Lemma gain_step (i : Input) (env : Env) (w : World) :
  counter_in_range w = true -> isRunning w = true ->
  totalCount (step i env w) = Z.min (totalCount w + gain i env w) MAX_COUNT.
Proof.
  intros Hin Hr. pose proof (proj1 (in_range_iff w) Hin) as [Hok Hb].
  destruct i as [| | |action|h].
  - simpl. rewrite start_running by exact Hr. simpl. unfold totalCount in *. simpl. lia.
  - simpl. rewrite start_running by exact Hr. simpl. unfold totalCount in *. simpl. lia.
  - simpl.
    match goal with |- context [stopAutomatedScreenshots env ?w0] =>
      destruct (same_counter w0 _ (stop_counter env w0)) as [_ ->] end.
    unfold totalCount in *. simpl. lia.
  - apply gain_onMessage; assumption.
  - simpl. destruct (intervals (rt w) !! h); [|lia].
    apply cycle_gain_spec. exact Hin.
Qed.

(** X12. While the worker is running, on a counter from -2^53 to 2^53, the
    displayed count keeps account of the cycles: after any sequence of
    events it is the count before plus the number of cycles, scheduled or
    requested with [takeScreenshotNow], in which every step and both
    storage calls of the statistics update succeeded, as long as this sum
    does not exceed 2^53, where the count stops.  Status requests,
    repeated starts and ticks of intervals that are not registered add
    nothing. *)
Theorem count_is_number_of_counted_cycles
        (inputs : list (Input * Env)) (w : World) :
  counter_in_range w = true ->
  running_throughout inputs w = true ->
  totalCount (run inputs w) = Z.min (totalCount w + counted inputs w) MAX_COUNT.
Proof.
  revert w. induction inputs as [|[i env] inputs IH]; intros w Hin Hr; simpl in *.
  - apply in_range_iff in Hin as [_ Hb]. lia.
  - apply andb_prop in Hr as [Hr Hrest].
    rewrite (IH (step i env w) (range_step i env w Hin) Hrest).
    rewrite (gain_step i env w Hin Hr).
    pose proof (counted_nonneg inputs (step i env w)). lia.
Qed.

Lemma count_is_number_of_counted_cycles_witness :
  let w := step (Message "start") fair_weather (initial used_store) in
  let inputs := [(IntervalFired 1, fair_weather); (Message "getStatus", fair_weather);
                 (IntervalFired 1, download_fails);
                 (Message "takeScreenshotNow", storage_fails);
                 (IntervalFired 5, fair_weather);
                 (Message "takeScreenshotNow", fair_weather)] in
  counter_in_range w = true /\ running_throughout inputs w = true /\
  totalCount w = 1 /\ counted inputs w = 2 /\ totalCount (run inputs w) = 3.
Proof.
  intros w inputs.
  assert (counter_in_range w = true) as Hok by (vm_compute; reflexivity).
  assert (running_throughout inputs w = true) as Hr by (vm_compute; reflexivity).
  assert (totalCount w = 1) as H1 by (vm_compute; reflexivity).
  assert (counted inputs w = 2) as H2 by (vm_compute; reflexivity).
  split; [exact Hok|]. split; [exact Hr|]. split; [exact H1|]. split; [exact H2|].
  rewrite (count_is_number_of_counted_cycles inputs w Hok Hr), H1, H2. reflexivity.
Defined.

(** *** The store along a run *)

Lemma stop_storage (env : Env) (w : World) :
  storage (rt (stopAutomatedScreenshots env w)) =
  if isRunning w
  then match controlSet env with
       | Ok _ => <["isRunning" := VBool false]> (storage (rt w))
       | Err _ => storage (rt w)
       end
  else storage (rt w).
Proof.
  unfold stopAutomatedScreenshots. destruct (isRunning w); [|reflexivity]. simpl.
  unfold storage_set.
  destruct (intervalId w) as [h|]; [destruct (truthy_num h)|];
    destruct (controlSet env); reflexivity.
Qed.

Lemma stop_flag (env : Env) (w : World) :
  isRunning (stopAutomatedScreenshots env w) = false.
Proof.
  unfold stopAutomatedScreenshots. destruct (isRunning w) eqn:Hr; [|exact Hr]. simpl.
  unfold storage_set.
  destruct (intervalId w) as [h|]; [destruct (truthy_num h)|];
    destruct (controlSet env); reflexivity.
Qed.

Lemma start_storage (env : Env) (w : World) :
  storage (rt (startAutomatedScreenshots env w).1) =
  if isRunning w then storage (rt w)
  else match controlSet env with
       | Ok _ => storage_merge (start_items env) (storage (rt w))
       | Err _ => storage (rt w)
       end.
Proof.
  destruct (isRunning w) eqn:Hr.
  - rewrite (start_running env w Hr). reflexivity.
  - pose proof (start_stopped env w Hr) as (_ & _ & _ & _ & Hs & _). exact Hs.
Qed.

Lemma worker_key_false (k : string) :
  worker_key k = false ->
  k <> "isRunning" /\ k <> "lastRun" /\ k <> "totalScreenshots".
Proof.
  unfold worker_key. intros H.
  apply orb_false_elim in H as [H H3]. apply orb_false_elim in H as [H1 H2].
  apply String.eqb_neq in H1, H2, H3. done.
Qed.

Section ForeignKey.
Variable k : string.
Hypothesis Hk : worker_key k = false.

Lemma foreign_start env w :
  storage (rt (startAutomatedScreenshots env w).1) !! k = storage (rt w) !! k.
Proof.
  destruct (worker_key_false k Hk) as (N1 & N2 & N3).
  rewrite start_storage. destruct (isRunning w); [reflexivity|].
  destruct (controlSet env); [|reflexivity].
  apply (start_items_written env (storage (rt w))); assumption.
Qed.

Lemma foreign_stop env w :
  storage (rt (stopAutomatedScreenshots env w)) !! k = storage (rt w) !! k.
Proof.
  destruct (worker_key_false k Hk) as (N1 & N2 & N3).
  rewrite stop_storage. destruct (isRunning w); [|reflexivity].
  destruct (controlSet env); [|reflexivity].
  rewrite lookup_insert_ne by done. reflexivity.
Qed.

Lemma foreign_resume_started env started w :
  storage (rt (resume_started env started w)) !! k = storage (rt w) !! k.
Proof.
  destruct (worker_key_false k Hk) as (N1 & N2 & N3).
  destruct started as [url|]; [|reflexivity]. simpl.
  apply resume_keys; assumption.
Qed.

Lemma foreign_takeScreenshot env w :
  storage (rt (takeScreenshot env w).1) !! k = storage (rt w) !! k.
Proof.
  destruct (worker_key_false k Hk) as (N1 & N2 & N3).
  apply takeScreenshot_keys; assumption.
Qed.

Lemma foreign_started env w :
  storage (rt (resume_started env (startAutomatedScreenshots env w).2
                              (startAutomatedScreenshots env w).1)) !! k
  = storage (rt w) !! k.
Proof. rewrite foreign_resume_started. apply foreign_start. Qed.

Lemma foreign_onMessage action env w :
  storage (rt (onMessage action env w).1) !! k = storage (rt w) !! k.
Proof.
  unfold onMessage.
  destruct (String.eqb action "getStatus").
  { destruct (storageGet env); reflexivity. }
  destruct (String.eqb action "start").
  { pose proof (foreign_started env w) as H.
    destruct (startAutomatedScreenshots env w) as [w1 started]. exact H. }
  destruct (String.eqb action "stop").
  { apply foreign_stop. }
  destruct (String.eqb action "takeScreenshotNow").
  { pose proof (foreign_takeScreenshot env w) as H.
    destruct (takeScreenshot env w) as [w1 [a|e|]]; exact H. }
  reflexivity.
Qed.

Lemma foreign_step i env w :
  storage (rt (step i env w)) !! k = storage (rt w) !! k.
Proof.
  destruct i as [| | |action|h]; simpl.
  - match goal with |- context [startAutomatedScreenshots env ?w0] =>
      pose proof (foreign_started env w0) as H;
      destruct (startAutomatedScreenshots env w0) as [w1 started] end.
    exact H.
  - match goal with |- context [startAutomatedScreenshots env ?w0] =>
      pose proof (foreign_started env w0) as H;
      destruct (startAutomatedScreenshots env w0) as [w1 started] end.
    exact H.
  - rewrite foreign_stop. reflexivity.
  - apply foreign_onMessage.
  - destruct (intervals (rt w) !! h); [apply foreign_takeScreenshot | reflexivity].
Qed.
End ForeignKey.

(** X13. Of [chrome.storage.local] the worker writes the three keys
    [isRunning], [lastRun] and [totalScreenshots] and nothing else:
    whatever events it handles, every other key keeps the value it had. *)
Theorem foreign_keys_untouched (inputs : list (Input * Env)) (w : World) (k : string) :
  worker_key k = false ->
  storage (rt (run inputs w)) !! k = storage (rt w) !! k.
Proof.
  intros Hk. revert w. induction inputs as [|[i env] inputs IH]; intros w; simpl.
  - reflexivity.
  - rewrite IH. apply foreign_step. exact Hk.
Qed.

Lemma foreign_keys_untouched_witness :
  let st : gmap string JsVal := {[ "theme" := VStr "dark"; "totalScreenshots" := VNum 3 ]} in
  let inputs := [(Message "start", fair_weather); (IntervalFired 1, fair_weather);
                 (Message "stop", fair_weather)] in
  worker_key "theme" = false /\
  storage (rt (run inputs (initial st))) !! "theme" = Some (VStr "dark").
Proof.
  intros st inputs. split; [reflexivity|].
  rewrite (foreign_keys_untouched inputs (initial st) "theme" eq_refl). reflexivity.
Defined.

(** *** The stored run flag *)

Lemma flag_log (e : Effect) (w : World) :
  flag_persisted w -> flag_persisted (with_rt (emit e (rt w)) w).
Proof. intros H. exact H. Qed.

Lemma flag_start (env : Env) (w : World) :
  (exists u, controlSet env = Ok u) ->
  flag_persisted w -> flag_persisted (startAutomatedScreenshots env w).1.
Proof.
  intros [u Hu] Hf. unfold flag_persisted in *. rewrite start_storage.
  destruct (isRunning w) eqn:Hr.
  - rewrite (start_running env w Hr). simpl. rewrite Hr. exact Hf.
  - pose proof (start_stopped env w Hr) as (_ & -> & _).
    rewrite Hu. apply (start_items_written env (storage (rt w))).
Qed.

Lemma flag_stop (env : Env) (w : World) :
  (exists u, controlSet env = Ok u) ->
  flag_persisted w -> flag_persisted (stopAutomatedScreenshots env w).
Proof.
  intros [u Hu] Hf. unfold flag_persisted in *.
  rewrite stop_storage, stop_flag. destruct (isRunning w) eqn:Hr.
  - rewrite Hu. apply lookup_insert_eq.
  - exact Hf.
Qed.

Lemma flag_resume (env : Env) (url : option string) (w : World) :
  flag_persisted w -> flag_persisted (takeScreenshot_resume env url w).1.
Proof.
  intros Hf. unfold flag_persisted in *.
  destruct (Steady_takeScreenshot_resume env url w) as (-> & _).
  rewrite resume_keys by done. exact Hf.
Qed.

Lemma flag_resume_started env started w :
  flag_persisted w -> flag_persisted (resume_started env started w).
Proof.
  intros Hf. destruct started as [url|]; [|exact Hf]. apply flag_resume. exact Hf.
Qed.

Lemma flag_takeScreenshot (env : Env) (w : World) :
  flag_persisted w -> flag_persisted (takeScreenshot env w).1.
Proof.
  intros Hf. unfold flag_persisted in *.
  destruct (Steady_takeScreenshot env w) as (-> & _).
  rewrite takeScreenshot_keys by done. exact Hf.
Qed.

Lemma flag_started env w :
  (exists u, controlSet env = Ok u) -> flag_persisted w ->
  flag_persisted (resume_started env (startAutomatedScreenshots env w).2
                                 (startAutomatedScreenshots env w).1).
Proof. intros Hu Hf. apply flag_resume_started, flag_start; assumption. Qed.

Lemma flag_step i env w :
  (exists u, controlSet env = Ok u) ->
  flag_persisted w -> flag_persisted (step i env w).
Proof.
  intros Hu Hf. destruct i as [| | |action|h]; simpl.
  - match goal with |- context [startAutomatedScreenshots env ?w0] =>
      pose proof (flag_started env w0 Hu Hf) as H;
      destruct (startAutomatedScreenshots env w0) as [w1 started] end.
    exact H.
  - match goal with |- context [startAutomatedScreenshots env ?w0] =>
      pose proof (flag_started env w0 Hu Hf) as H;
      destruct (startAutomatedScreenshots env w0) as [w1 started] end.
    exact H.
  - apply flag_stop; [exact Hu | exact Hf].
  - unfold onMessage.
    destruct (String.eqb action "getStatus").
    { destruct (storageGet env); exact Hf. }
    destruct (String.eqb action "start").
    { pose proof (flag_started env w Hu Hf) as H.
      destruct (startAutomatedScreenshots env w) as [w1 started]. exact H. }
    destruct (String.eqb action "stop").
    { apply flag_stop; [exact Hu | exact Hf]. }
    destruct (String.eqb action "takeScreenshotNow").
    { pose proof (flag_takeScreenshot env w Hf) as H.
      destruct (takeScreenshot env w) as [w1 [a|e|]]; exact H. }
    exact Hf.
  - destruct (intervals (rt w) !! h); [apply flag_takeScreenshot|]; exact Hf.
Qed.

Lemma flag_after_start env w :
  isRunning w = false -> (exists u, controlSet env = Ok u) ->
  flag_persisted (step (Message "start") env w).
Proof.
  intros Hr [u Hu]. simpl. rewrite onMessage_start. simpl.
  apply flag_resume_started. unfold flag_persisted. rewrite start_storage, Hr, Hu.
  pose proof (start_stopped env w Hr) as (_ & -> & _).
  apply (start_items_written env (storage (rt w))).
Qed.

(** X14. The stored [isRunning] follows the flag in memory as long as the
    writes of [start] and [stop] succeed: if the two agree they agree after
    every event, and a start of a stopped worker makes them agree whatever
    the store held. *)
Theorem stored_flag_follows (inputs : list (Input * Env)) (env0 : Env) (w : World) :
  control_writes_succeed ((Message "start", env0) :: inputs) = true ->
  (flag_persisted w -> flag_persisted (run inputs w)) /\
  (isRunning w = false -> flag_persisted (run ((Message "start", env0) :: inputs) w)).
Proof.
  intros Hc. simpl in Hc. apply andb_prop in Hc as [H0 Hc].
  assert (forall v, flag_persisted v -> flag_persisted (run inputs v)) as Hrun.
  { clear H0. induction inputs as [|[i env] inputs IH]; intros v Hf; simpl in *.
    - exact Hf.
    - apply andb_prop in Hc as [H1 Hc]. apply (IH Hc). apply flag_step; [|exact Hf].
      destruct (controlSet env) as [u|]; [exists u; reflexivity | discriminate]. }
  split; [apply Hrun|].
  intros Hr. change (run ((Message "start", env0) :: inputs) w)
    with (run inputs (step (Message "start") env0 w)).
  apply Hrun. apply flag_after_start; [exact Hr|].
  destruct (controlSet env0) as [u|]; [exists u; reflexivity | discriminate].
Qed.

Lemma stored_flag_follows_witness :
  let w := initial {[ "isRunning" := VBool true ]} in
  let inputs := [(IntervalFired 1, download_fails); (Message "stop", fair_weather)] in
  control_writes_succeed ((Message "start", fair_weather) :: inputs) = true /\
  isRunning w = false /\
  storage (rt w) !! "isRunning" = Some (VBool true) /\
  flag_persisted (run ((Message "start", fair_weather) :: inputs) w).
Proof.
  intros w inputs.
  assert (control_writes_succeed ((Message "start", fair_weather) :: inputs) = true)
    as Hc by reflexivity.
  destruct (stored_flag_follows inputs fair_weather w Hc) as [_ Hs].
  split; [exact Hc|]. split; [reflexivity|]. split; [reflexivity|].
  exact (Hs eq_refl).
Defined.

(** *** Ticks of the interval *)

(** X15. In every state the worker can reach, a tick does something only
    for the one interval that is registered: while the worker is stopped
    no tick starts a cycle, and while it is running a tick of any handle
    other than [intervalId] changes nothing; after a suspend the worker is
    stopped and has no interval. *)
Theorem ticks_need_the_registered_interval
        (st : gmap string JsVal) (inputs : list (Input * Env)) (h : Z) (env : Env) :
  let w := run inputs (initial st) in
  (isRunning w = false -> step (IntervalFired h) env w = w) /\
  (intervalId w <> Some h -> step (IntervalFired h) env w = w) /\
  (isRunning w = true -> intervalId w = Some h ->
   step (IntervalFired h) env w = (takeScreenshot env w).1) /\
  (isRunning (step Suspend env w) = false /\
   intervals (rt (step Suspend env w)) = ∅).
Proof.
  intros w. pose proof (good_reachable st inputs) as Hg. fold w in Hg.
  pose proof Hg as [Hs _]. unfold scheduled in Hs.
  split; [|split; [|split]].
  - intros Hr. rewrite Hr in Hs. destruct Hs as [_ Hiv].
    simpl. rewrite Hiv, lookup_empty. reflexivity.
  - intros Hne. simpl. destruct (isRunning w).
    + destruct Hs as (h0 & Hi & _ & Hiv). rewrite Hiv.
      rewrite lookup_singleton_ne; [reflexivity | congruence].
    + destruct Hs as [_ Hiv]. rewrite Hiv, lookup_empty. reflexivity.
  - intros Hr Hi. rewrite Hr in Hs. destruct Hs as (h0 & Hi0 & _ & Hiv).
    assert (h0 = h) as -> by congruence.
    simpl. rewrite Hiv, lookup_singleton_eq. reflexivity.
  - pose proof (good_step Suspend env w Hg) as [Hs' _].
    assert (isRunning (step Suspend env w) = false) as Hr' by apply stop_flag.
    split; [exact Hr'|]. unfold scheduled in Hs'. rewrite Hr' in Hs'. apply Hs'.
Qed.

Lemma ticks_need_the_registered_interval_witness :
  let w := run [(Message "start", fair_weather)] (initial used_store) in
  isRunning w = true /\ intervalId w = Some 1 /\
  step (IntervalFired 1) fair_weather w = (takeScreenshot fair_weather w).1 /\
  step (IntervalFired 2) fair_weather w = w.
Proof.
  intros w.
  assert (isRunning w = true) as Hr by (vm_compute; reflexivity).
  assert (intervalId w = Some 1) as Hi by (vm_compute; reflexivity).
  assert (intervalId w <> Some 2) as Hn by (rewrite Hi; discriminate).
  pose proof (ticks_need_the_registered_interval
                used_store [(Message "start", fair_weather)] 1 fair_weather)
    as (_ & _ & Hon & _).
  pose proof (ticks_need_the_registered_interval
                used_store [(Message "start", fair_weather)] 2 fair_weather)
    as (_ & Hoff & _).
  split; [exact Hr|]. split; [exact Hi|].
  split; [exact (Hon Hr Hi) | exact (Hoff Hn)].
Defined.

(** *** Status requests *)

Lemma shown_count (w : World) :
  counter_is_number w = true ->
  js_or (storage (rt w) !! "totalScreenshots") (VNum 0) = VNum (totalCount w).
Proof.
  unfold counter_is_number, totalCount. intros H.
  destruct (storage (rt w) !! "totalScreenshots") as [[b|n|s]|]; try discriminate.
  - simpl. unfold truthy_num. destruct (Z.eqb_spec n 0) as [->|]; reflexivity.
  - reflexivity.
Qed.

(** X16. A status request changes nothing (it only reads the store): in
    every state the worker can reach on a store whose counter is a number
    or absent, it is answered with the run flag held in memory, the stored
    [lastRun], and the count as a number, 0 when the key is missing; when
    the read fails no answer is sent.  A message with any other action than
    the four known ones changes nothing and gets no answer. *)
Theorem status_request_reads_only
        (st : gmap string JsVal) (inputs : list (Input * Env)) (env : Env) :
  counter_is_number (initial st) = true ->
  let w := run inputs (initial st) in
  let r := onMessage "getStatus" env w in
  r.1 = with_rt (emit (StorageGet ["isRunning"; "lastRun"; "totalScreenshots"]) (rt w)) w /\
  r.2 = match storageGet env with
        | Ok _ => Some (StatusReply (isRunning w) (storage (rt w) !! "lastRun")
                                    (VNum (totalCount w)))
        | Err _ => None
        end /\
  (storage (rt w) !! "totalScreenshots" = None -> totalCount w = 0) /\
  (forall action,
     action <> "getStatus" -> action <> "start" -> action <> "stop" ->
     action <> "takeScreenshotNow" ->
     onMessage action env w = (w, None)).
Proof.
  intros Hst w r.
  pose proof (counter_run inputs (initial st) Hst) as Hok. fold w in Hok.
  split; [|split; [|split]].
  - unfold r, onMessage. simpl. destruct (storageGet env); reflexivity.
  - unfold r, onMessage. simpl. destruct (storageGet env); [|reflexivity].
    simpl. rewrite (shown_count w Hok). reflexivity.
  - apply totalCount_absent.
  - intros action N1 N2 N3 N4. unfold onMessage.
    apply String.eqb_neq in N1, N2, N3, N4. rewrite N1, N2, N3, N4. reflexivity.
Qed.

Lemma status_request_reads_only_witness :
  let w := run [(Message "start", fair_weather)] (initial used_store) in
  counter_is_number (initial used_store) = true /\
  (onMessage "getStatus" fair_weather w).2
  = Some (StatusReply true (Some (VStr "2024-01-15T10:30:00.000Z")) (VNum 1)).
Proof.
  intros w.
  assert (counter_is_number (initial used_store) = true) as H0 by reflexivity.
  pose proof (status_request_reads_only used_store [(Message "start", fair_weather)]
                fair_weather H0) as (_ & Hr & _).
  split; [exact H0|]. fold w in Hr. rewrite Hr. vm_compute. reflexivity.
Defined.

(** *** The load wait in the cycle *)



End WorkerMore.
